(** * Order status checker: the rule engine, the fetcher, the formatter and
      the dispatcher of the Slack bot, embedded from the JavaScript source.

    Strings are Rocq strings, sequences of bytes that hold the text in UTF-8.
    [trim] removes the white space and the line terminators of ECMAScript
    (TAB, LF, VT, FF, CR, SP, NBSP, the space separators of Unicode, LS, PS
    and the byte order mark), and [toUpperCase] applies the full upper-case
    mapping of Unicode character by character (a-z, and above 127 the table
    of [Unicode.upperData], which sends the dotless i to I, the long s to S,
    the sharp s to SS and a ligature to its letters).

    Timestamps are held as their time value, the integer number of
    milliseconds [getTime()] returns.  The weeks of [weeksSince] are computed
    exactly, over the rationals; the binary64 arithmetic of the source returns
    the same one-decimal value as long as the two time values are at most
    2^51 ms (about 71,000 years) apart, see [elapsedBound], and lemmas
    evaluate the binary64 computation itself with primitive floats: at the
    ties of the rounding, and at an elapsed time beyond the bound, where it
    differs by one tenth.

    The node of an order is read at the types of the GraphQL projection
    (strings, DateTime strings, lists and objects); [typedOrder] spells them
    out. *)

From Stdlib Require Import List String Ascii Bool Arith NArith ZArith QArith Qround Lia Lqa.
From Stdlib Require Import Floats.
From Stdlib Require Import Sorting.Sorted.
From Stdlib Require Import Numbers.DecimalString.
Import ListNotations.

Close Scope Q_scope.
Local Open Scope nat_scope.
Local Open Scope string_scope.
Local Open Scope list_scope.

(** ** Unicode data *)

Module Unicode.

(** The UTF-8 encoding of a code point. *)
Definition utf8 (c : N) : string :=
  (if c <? 128 then String (ascii_of_N c) EmptyString
   else if c <? 2048 then
     String (ascii_of_N (192 + c / 64))
       (String (ascii_of_N (128 + c mod 64)) EmptyString)
   else if c <? 65536 then
     String (ascii_of_N (224 + c / 4096))
       (String (ascii_of_N (128 + (c / 64) mod 64))
          (String (ascii_of_N (128 + c mod 64)) EmptyString))
   else
     String (ascii_of_N (240 + c / 262144))
       (String (ascii_of_N (128 + (c / 4096) mod 64))
          (String (ascii_of_N (128 + (c / 64) mod 64))
             (String (ascii_of_N (128 + c mod 64)) EmptyString))))%N.

(** The number of bytes of the character whose encoding starts with [b];
    a byte that starts none counts for itself. *)
Definition width (b : ascii) : nat :=
  let n := nat_of_ascii b in
  if Nat.ltb n 192 then 1
  else if Nat.ltb n 224 then 2
  else if Nat.ltb n 240 then 3
  else 4.

(** WhiteSpace and LineTerminator of ECMAScript: TAB, LF, VT, FF, CR, SP,
    NBSP, the other space separators (Zs), LS, PS and the byte order mark. *)
Definition whiteSpaceData : list N :=
  [9; 10; 11; 12; 13; 32; 160; 5760;
   8192; 8193; 8194; 8195; 8196; 8197; 8198; 8199; 8200; 8201; 8202;
   8232; 8233; 8239; 8287; 12288; 65279]%N.

(** The full upper-case mapping of the code points above 127 that have one
    (UnicodeData and the unconditional mappings of SpecialCasing,
    Unicode 14). *)
Definition upperData : list (N * list N) :=
  [
   (181, [924]); (223, [83; 83]); (224, [192]); (225, [193]); (226, [194]);
   (227, [195]); (228, [196]); (229, [197]); (230, [198]); (231, [199]);
   (232, [200]); (233, [201]); (234, [202]); (235, [203]); (236, [204]);
   (237, [205]); (238, [206]); (239, [207]); (240, [208]); (241, [209]);
   (242, [210]); (243, [211]); (244, [212]); (245, [213]); (246, [214]);
   (248, [216]); (249, [217]); (250, [218]); (251, [219]); (252, [220]);
   (253, [221]); (254, [222]); (255, [376]); (257, [256]); (259, [258]);
   (261, [260]); (263, [262]); (265, [264]); (267, [266]); (269, [268]);
   (271, [270]); (273, [272]); (275, [274]); (277, [276]); (279, [278]);
   (281, [280]); (283, [282]); (285, [284]); (287, [286]); (289, [288]);
   (291, [290]); (293, [292]); (295, [294]); (297, [296]); (299, [298]);
   (301, [300]); (303, [302]); (305, [73]); (307, [306]); (309, [308]);
   (311, [310]); (314, [313]); (316, [315]); (318, [317]); (320, [319]);
   (322, [321]); (324, [323]); (326, [325]); (328, [327]); (329, [700; 78]);
   (331, [330]); (333, [332]); (335, [334]); (337, [336]); (339, [338]);
   (341, [340]); (343, [342]); (345, [344]); (347, [346]); (349, [348]);
   (351, [350]); (353, [352]); (355, [354]); (357, [356]); (359, [358]);
   (361, [360]); (363, [362]); (365, [364]); (367, [366]); (369, [368]);
   (371, [370]); (373, [372]); (375, [374]); (378, [377]); (380, [379]);
   (382, [381]); (383, [83]); (384, [579]); (387, [386]); (389, [388]);
   (392, [391]); (396, [395]); (402, [401]); (405, [502]); (409, [408]);
   (410, [573]); (414, [544]); (417, [416]); (419, [418]); (421, [420]);
   (424, [423]); (429, [428]); (432, [431]); (436, [435]); (438, [437]);
   (441, [440]); (445, [444]); (447, [503]); (453, [452]); (454, [452]);
   (456, [455]); (457, [455]); (459, [458]); (460, [458]); (462, [461]);
   (464, [463]); (466, [465]); (468, [467]); (470, [469]); (472, [471]);
   (474, [473]); (476, [475]); (477, [398]); (479, [478]); (481, [480]);
   (483, [482]); (485, [484]); (487, [486]); (489, [488]); (491, [490]);
   (493, [492]); (495, [494]); (496, [74; 780]); (498, [497]); (499, [497]);
   (501, [500]); (505, [504]); (507, [506]); (509, [508]); (511, [510]);
   (513, [512]); (515, [514]); (517, [516]); (519, [518]); (521, [520]);
   (523, [522]); (525, [524]); (527, [526]); (529, [528]); (531, [530]);
   (533, [532]); (535, [534]); (537, [536]); (539, [538]); (541, [540]);
   (543, [542]); (547, [546]); (549, [548]); (551, [550]); (553, [552]);
   (555, [554]); (557, [556]); (559, [558]); (561, [560]); (563, [562]);
   (572, [571]); (575, [11390]); (576, [11391]); (578, [577]); (583, [582]);
   (585, [584]); (587, [586]); (589, [588]); (591, [590]); (592, [11375]);
   (593, [11373]); (594, [11376]); (595, [385]); (596, [390]); (598, [393]);
   (599, [394]); (601, [399]); (603, [400]); (604, [42923]); (608, [403]);
   (609, [42924]); (611, [404]); (613, [42893]); (614, [42922]); (616, [407]);
   (617, [406]); (618, [42926]); (619, [11362]); (620, [42925]); (623, [412]);
   (625, [11374]); (626, [413]); (629, [415]); (637, [11364]); (640, [422]);
   (642, [42949]); (643, [425]); (647, [42929]); (648, [430]); (649, [580]);
   (650, [433]); (651, [434]); (652, [581]); (658, [439]); (669, [42930]);
   (670, [42928]); (837, [921]); (881, [880]); (883, [882]); (887, [886]);
   (891, [1021]); (892, [1022]); (893, [1023]); (912, [921; 776; 769]);
   (940, [902]); (941, [904]); (942, [905]); (943, [906]);
   (944, [933; 776; 769]); (945, [913]); (946, [914]); (947, [915]);
   (948, [916]); (949, [917]); (950, [918]); (951, [919]); (952, [920]);
   (953, [921]); (954, [922]); (955, [923]); (956, [924]); (957, [925]);
   (958, [926]); (959, [927]); (960, [928]); (961, [929]); (962, [931]);
   (963, [931]); (964, [932]); (965, [933]); (966, [934]); (967, [935]);
   (968, [936]); (969, [937]); (970, [938]); (971, [939]); (972, [908]);
   (973, [910]); (974, [911]); (976, [914]); (977, [920]); (981, [934]);
   (982, [928]); (983, [975]); (985, [984]); (987, [986]); (989, [988]);
   (991, [990]); (993, [992]); (995, [994]); (997, [996]); (999, [998]);
   (1001, [1000]); (1003, [1002]); (1005, [1004]); (1007, [1006]);
   (1008, [922]); (1009, [929]); (1010, [1017]); (1011, [895]); (1013, [917]);
   (1016, [1015]); (1019, [1018]); (1072, [1040]); (1073, [1041]);
   (1074, [1042]); (1075, [1043]); (1076, [1044]); (1077, [1045]);
   (1078, [1046]); (1079, [1047]); (1080, [1048]); (1081, [1049]);
   (1082, [1050]); (1083, [1051]); (1084, [1052]); (1085, [1053]);
   (1086, [1054]); (1087, [1055]); (1088, [1056]); (1089, [1057]);
   (1090, [1058]); (1091, [1059]); (1092, [1060]); (1093, [1061]);
   (1094, [1062]); (1095, [1063]); (1096, [1064]); (1097, [1065]);
   (1098, [1066]); (1099, [1067]); (1100, [1068]); (1101, [1069]);
   (1102, [1070]); (1103, [1071]); (1104, [1024]); (1105, [1025]);
   (1106, [1026]); (1107, [1027]); (1108, [1028]); (1109, [1029]);
   (1110, [1030]); (1111, [1031]); (1112, [1032]); (1113, [1033]);
   (1114, [1034]); (1115, [1035]); (1116, [1036]); (1117, [1037]);
   (1118, [1038]); (1119, [1039]); (1121, [1120]); (1123, [1122]);
   (1125, [1124]); (1127, [1126]); (1129, [1128]); (1131, [1130]);
   (1133, [1132]); (1135, [1134]); (1137, [1136]); (1139, [1138]);
   (1141, [1140]); (1143, [1142]); (1145, [1144]); (1147, [1146]);
   (1149, [1148]); (1151, [1150]); (1153, [1152]); (1163, [1162]);
   (1165, [1164]); (1167, [1166]); (1169, [1168]); (1171, [1170]);
   (1173, [1172]); (1175, [1174]); (1177, [1176]); (1179, [1178]);
   (1181, [1180]); (1183, [1182]); (1185, [1184]); (1187, [1186]);
   (1189, [1188]); (1191, [1190]); (1193, [1192]); (1195, [1194]);
   (1197, [1196]); (1199, [1198]); (1201, [1200]); (1203, [1202]);
   (1205, [1204]); (1207, [1206]); (1209, [1208]); (1211, [1210]);
   (1213, [1212]); (1215, [1214]); (1218, [1217]); (1220, [1219]);
   (1222, [1221]); (1224, [1223]); (1226, [1225]); (1228, [1227]);
   (1230, [1229]); (1231, [1216]); (1233, [1232]); (1235, [1234]);
   (1237, [1236]); (1239, [1238]); (1241, [1240]); (1243, [1242]);
   (1245, [1244]); (1247, [1246]); (1249, [1248]); (1251, [1250]);
   (1253, [1252]); (1255, [1254]); (1257, [1256]); (1259, [1258]);
   (1261, [1260]); (1263, [1262]); (1265, [1264]); (1267, [1266]);
   (1269, [1268]); (1271, [1270]); (1273, [1272]); (1275, [1274]);
   (1277, [1276]); (1279, [1278]); (1281, [1280]); (1283, [1282]);
   (1285, [1284]); (1287, [1286]); (1289, [1288]); (1291, [1290]);
   (1293, [1292]); (1295, [1294]); (1297, [1296]); (1299, [1298]);
   (1301, [1300]); (1303, [1302]); (1305, [1304]); (1307, [1306]);
   (1309, [1308]); (1311, [1310]); (1313, [1312]); (1315, [1314]);
   (1317, [1316]); (1319, [1318]); (1321, [1320]); (1323, [1322]);
   (1325, [1324]); (1327, [1326]); (1377, [1329]); (1378, [1330]);
   (1379, [1331]); (1380, [1332]); (1381, [1333]); (1382, [1334]);
   (1383, [1335]); (1384, [1336]); (1385, [1337]); (1386, [1338]);
   (1387, [1339]); (1388, [1340]); (1389, [1341]); (1390, [1342]);
   (1391, [1343]); (1392, [1344]); (1393, [1345]); (1394, [1346]);
   (1395, [1347]); (1396, [1348]); (1397, [1349]); (1398, [1350]);
   (1399, [1351]); (1400, [1352]); (1401, [1353]); (1402, [1354]);
   (1403, [1355]); (1404, [1356]); (1405, [1357]); (1406, [1358]);
   (1407, [1359]); (1408, [1360]); (1409, [1361]); (1410, [1362]);
   (1411, [1363]); (1412, [1364]); (1413, [1365]); (1414, [1366]);
   (1415, [1333; 1362]); (4304, [7312]); (4305, [7313]); (4306, [7314]);
   (4307, [7315]); (4308, [7316]); (4309, [7317]); (4310, [7318]);
   (4311, [7319]); (4312, [7320]); (4313, [7321]); (4314, [7322]);
   (4315, [7323]); (4316, [7324]); (4317, [7325]); (4318, [7326]);
   (4319, [7327]); (4320, [7328]); (4321, [7329]); (4322, [7330]);
   (4323, [7331]); (4324, [7332]); (4325, [7333]); (4326, [7334]);
   (4327, [7335]); (4328, [7336]); (4329, [7337]); (4330, [7338]);
   (4331, [7339]); (4332, [7340]); (4333, [7341]); (4334, [7342]);
   (4335, [7343]); (4336, [7344]); (4337, [7345]); (4338, [7346]);
   (4339, [7347]); (4340, [7348]); (4341, [7349]); (4342, [7350]);
   (4343, [7351]); (4344, [7352]); (4345, [7353]); (4346, [7354]);
   (4349, [7357]); (4350, [7358]); (4351, [7359]); (5112, [5104]);
   (5113, [5105]); (5114, [5106]); (5115, [5107]); (5116, [5108]);
   (5117, [5109]); (7296, [1042]); (7297, [1044]); (7298, [1054]);
   (7299, [1057]); (7300, [1058]); (7301, [1058]); (7302, [1066]);
   (7303, [1122]); (7304, [42570]); (7545, [42877]); (7549, [11363]);
   (7566, [42950]); (7681, [7680]); (7683, [7682]); (7685, [7684]);
   (7687, [7686]); (7689, [7688]); (7691, [7690]); (7693, [7692]);
   (7695, [7694]); (7697, [7696]); (7699, [7698]); (7701, [7700]);
   (7703, [7702]); (7705, [7704]); (7707, [7706]); (7709, [7708]);
   (7711, [7710]); (7713, [7712]); (7715, [7714]); (7717, [7716]);
   (7719, [7718]); (7721, [7720]); (7723, [7722]); (7725, [7724]);
   (7727, [7726]); (7729, [7728]); (7731, [7730]); (7733, [7732]);
   (7735, [7734]); (7737, [7736]); (7739, [7738]); (7741, [7740]);
   (7743, [7742]); (7745, [7744]); (7747, [7746]); (7749, [7748]);
   (7751, [7750]); (7753, [7752]); (7755, [7754]); (7757, [7756]);
   (7759, [7758]); (7761, [7760]); (7763, [7762]); (7765, [7764]);
   (7767, [7766]); (7769, [7768]); (7771, [7770]); (7773, [7772]);
   (7775, [7774]); (7777, [7776]); (7779, [7778]); (7781, [7780]);
   (7783, [7782]); (7785, [7784]); (7787, [7786]); (7789, [7788]);
   (7791, [7790]); (7793, [7792]); (7795, [7794]); (7797, [7796]);
   (7799, [7798]); (7801, [7800]); (7803, [7802]); (7805, [7804]);
   (7807, [7806]); (7809, [7808]); (7811, [7810]); (7813, [7812]);
   (7815, [7814]); (7817, [7816]); (7819, [7818]); (7821, [7820]);
   (7823, [7822]); (7825, [7824]); (7827, [7826]); (7829, [7828]);
   (7830, [72; 817]); (7831, [84; 776]); (7832, [87; 778]); (7833, [89; 778]);
   (7834, [65; 702]); (7835, [7776]); (7841, [7840]); (7843, [7842]);
   (7845, [7844]); (7847, [7846]); (7849, [7848]); (7851, [7850]);
   (7853, [7852]); (7855, [7854]); (7857, [7856]); (7859, [7858]);
   (7861, [7860]); (7863, [7862]); (7865, [7864]); (7867, [7866]);
   (7869, [7868]); (7871, [7870]); (7873, [7872]); (7875, [7874]);
   (7877, [7876]); (7879, [7878]); (7881, [7880]); (7883, [7882]);
   (7885, [7884]); (7887, [7886]); (7889, [7888]); (7891, [7890]);
   (7893, [7892]); (7895, [7894]); (7897, [7896]); (7899, [7898]);
   (7901, [7900]); (7903, [7902]); (7905, [7904]); (7907, [7906]);
   (7909, [7908]); (7911, [7910]); (7913, [7912]); (7915, [7914]);
   (7917, [7916]); (7919, [7918]); (7921, [7920]); (7923, [7922]);
   (7925, [7924]); (7927, [7926]); (7929, [7928]); (7931, [7930]);
   (7933, [7932]); (7935, [7934]); (7936, [7944]); (7937, [7945]);
   (7938, [7946]); (7939, [7947]); (7940, [7948]); (7941, [7949]);
   (7942, [7950]); (7943, [7951]); (7952, [7960]); (7953, [7961]);
   (7954, [7962]); (7955, [7963]); (7956, [7964]); (7957, [7965]);
   (7968, [7976]); (7969, [7977]); (7970, [7978]); (7971, [7979]);
   (7972, [7980]); (7973, [7981]); (7974, [7982]); (7975, [7983]);
   (7984, [7992]); (7985, [7993]); (7986, [7994]); (7987, [7995]);
   (7988, [7996]); (7989, [7997]); (7990, [7998]); (7991, [7999]);
   (8000, [8008]); (8001, [8009]); (8002, [8010]); (8003, [8011]);
   (8004, [8012]); (8005, [8013]); (8016, [933; 787]); (8017, [8025]);
   (8018, [933; 787; 768]); (8019, [8027]); (8020, [933; 787; 769]);
   (8021, [8029]); (8022, [933; 787; 834]); (8023, [8031]); (8032, [8040]);
   (8033, [8041]); (8034, [8042]); (8035, [8043]); (8036, [8044]);
   (8037, [8045]); (8038, [8046]); (8039, [8047]); (8048, [8122]);
   (8049, [8123]); (8050, [8136]); (8051, [8137]); (8052, [8138]);
   (8053, [8139]); (8054, [8154]); (8055, [8155]); (8056, [8184]);
   (8057, [8185]); (8058, [8170]); (8059, [8171]); (8060, [8186]);
   (8061, [8187]); (8064, [7944; 921]); (8065, [7945; 921]);
   (8066, [7946; 921]); (8067, [7947; 921]); (8068, [7948; 921]);
   (8069, [7949; 921]); (8070, [7950; 921]); (8071, [7951; 921]);
   (8072, [7944; 921]); (8073, [7945; 921]); (8074, [7946; 921]);
   (8075, [7947; 921]); (8076, [7948; 921]); (8077, [7949; 921]);
   (8078, [7950; 921]); (8079, [7951; 921]); (8080, [7976; 921]);
   (8081, [7977; 921]); (8082, [7978; 921]); (8083, [7979; 921]);
   (8084, [7980; 921]); (8085, [7981; 921]); (8086, [7982; 921]);
   (8087, [7983; 921]); (8088, [7976; 921]); (8089, [7977; 921]);
   (8090, [7978; 921]); (8091, [7979; 921]); (8092, [7980; 921]);
   (8093, [7981; 921]); (8094, [7982; 921]); (8095, [7983; 921]);
   (8096, [8040; 921]); (8097, [8041; 921]); (8098, [8042; 921]);
   (8099, [8043; 921]); (8100, [8044; 921]); (8101, [8045; 921]);
   (8102, [8046; 921]); (8103, [8047; 921]); (8104, [8040; 921]);
   (8105, [8041; 921]); (8106, [8042; 921]); (8107, [8043; 921]);
   (8108, [8044; 921]); (8109, [8045; 921]); (8110, [8046; 921]);
   (8111, [8047; 921]); (8112, [8120]); (8113, [8121]); (8114, [8122; 921]);
   (8115, [913; 921]); (8116, [902; 921]); (8118, [913; 834]);
   (8119, [913; 834; 921]); (8124, [913; 921]); (8126, [921]);
   (8130, [8138; 921]); (8131, [919; 921]); (8132, [905; 921]);
   (8134, [919; 834]); (8135, [919; 834; 921]); (8140, [919; 921]);
   (8144, [8152]); (8145, [8153]); (8146, [921; 776; 768]);
   (8147, [921; 776; 769]); (8150, [921; 834]); (8151, [921; 776; 834]);
   (8160, [8168]); (8161, [8169]); (8162, [933; 776; 768]);
   (8163, [933; 776; 769]); (8164, [929; 787]); (8165, [8172]);
   (8166, [933; 834]); (8167, [933; 776; 834]); (8178, [8186; 921]);
   (8179, [937; 921]); (8180, [911; 921]); (8182, [937; 834]);
   (8183, [937; 834; 921]); (8188, [937; 921]); (8526, [8498]); (8560, [8544]);
   (8561, [8545]); (8562, [8546]); (8563, [8547]); (8564, [8548]);
   (8565, [8549]); (8566, [8550]); (8567, [8551]); (8568, [8552]);
   (8569, [8553]); (8570, [8554]); (8571, [8555]); (8572, [8556]);
   (8573, [8557]); (8574, [8558]); (8575, [8559]); (8580, [8579]);
   (9424, [9398]); (9425, [9399]); (9426, [9400]); (9427, [9401]);
   (9428, [9402]); (9429, [9403]); (9430, [9404]); (9431, [9405]);
   (9432, [9406]); (9433, [9407]); (9434, [9408]); (9435, [9409]);
   (9436, [9410]); (9437, [9411]); (9438, [9412]); (9439, [9413]);
   (9440, [9414]); (9441, [9415]); (9442, [9416]); (9443, [9417]);
   (9444, [9418]); (9445, [9419]); (9446, [9420]); (9447, [9421]);
   (9448, [9422]); (9449, [9423]); (11312, [11264]); (11313, [11265]);
   (11314, [11266]); (11315, [11267]); (11316, [11268]); (11317, [11269]);
   (11318, [11270]); (11319, [11271]); (11320, [11272]); (11321, [11273]);
   (11322, [11274]); (11323, [11275]); (11324, [11276]); (11325, [11277]);
   (11326, [11278]); (11327, [11279]); (11328, [11280]); (11329, [11281]);
   (11330, [11282]); (11331, [11283]); (11332, [11284]); (11333, [11285]);
   (11334, [11286]); (11335, [11287]); (11336, [11288]); (11337, [11289]);
   (11338, [11290]); (11339, [11291]); (11340, [11292]); (11341, [11293]);
   (11342, [11294]); (11343, [11295]); (11344, [11296]); (11345, [11297]);
   (11346, [11298]); (11347, [11299]); (11348, [11300]); (11349, [11301]);
   (11350, [11302]); (11351, [11303]); (11352, [11304]); (11353, [11305]);
   (11354, [11306]); (11355, [11307]); (11356, [11308]); (11357, [11309]);
   (11358, [11310]); (11359, [11311]); (11361, [11360]); (11365, [570]);
   (11366, [574]); (11368, [11367]); (11370, [11369]); (11372, [11371]);
   (11379, [11378]); (11382, [11381]); (11393, [11392]); (11395, [11394]);
   (11397, [11396]); (11399, [11398]); (11401, [11400]); (11403, [11402]);
   (11405, [11404]); (11407, [11406]); (11409, [11408]); (11411, [11410]);
   (11413, [11412]); (11415, [11414]); (11417, [11416]); (11419, [11418]);
   (11421, [11420]); (11423, [11422]); (11425, [11424]); (11427, [11426]);
   (11429, [11428]); (11431, [11430]); (11433, [11432]); (11435, [11434]);
   (11437, [11436]); (11439, [11438]); (11441, [11440]); (11443, [11442]);
   (11445, [11444]); (11447, [11446]); (11449, [11448]); (11451, [11450]);
   (11453, [11452]); (11455, [11454]); (11457, [11456]); (11459, [11458]);
   (11461, [11460]); (11463, [11462]); (11465, [11464]); (11467, [11466]);
   (11469, [11468]); (11471, [11470]); (11473, [11472]); (11475, [11474]);
   (11477, [11476]); (11479, [11478]); (11481, [11480]); (11483, [11482]);
   (11485, [11484]); (11487, [11486]); (11489, [11488]); (11491, [11490]);
   (11500, [11499]); (11502, [11501]); (11507, [11506]); (11520, [4256]);
   (11521, [4257]); (11522, [4258]); (11523, [4259]); (11524, [4260]);
   (11525, [4261]); (11526, [4262]); (11527, [4263]); (11528, [4264]);
   (11529, [4265]); (11530, [4266]); (11531, [4267]); (11532, [4268]);
   (11533, [4269]); (11534, [4270]); (11535, [4271]); (11536, [4272]);
   (11537, [4273]); (11538, [4274]); (11539, [4275]); (11540, [4276]);
   (11541, [4277]); (11542, [4278]); (11543, [4279]); (11544, [4280]);
   (11545, [4281]); (11546, [4282]); (11547, [4283]); (11548, [4284]);
   (11549, [4285]); (11550, [4286]); (11551, [4287]); (11552, [4288]);
   (11553, [4289]); (11554, [4290]); (11555, [4291]); (11556, [4292]);
   (11557, [4293]); (11559, [4295]); (11565, [4301]); (42561, [42560]);
   (42563, [42562]); (42565, [42564]); (42567, [42566]); (42569, [42568]);
   (42571, [42570]); (42573, [42572]); (42575, [42574]); (42577, [42576]);
   (42579, [42578]); (42581, [42580]); (42583, [42582]); (42585, [42584]);
   (42587, [42586]); (42589, [42588]); (42591, [42590]); (42593, [42592]);
   (42595, [42594]); (42597, [42596]); (42599, [42598]); (42601, [42600]);
   (42603, [42602]); (42605, [42604]); (42625, [42624]); (42627, [42626]);
   (42629, [42628]); (42631, [42630]); (42633, [42632]); (42635, [42634]);
   (42637, [42636]); (42639, [42638]); (42641, [42640]); (42643, [42642]);
   (42645, [42644]); (42647, [42646]); (42649, [42648]); (42651, [42650]);
   (42787, [42786]); (42789, [42788]); (42791, [42790]); (42793, [42792]);
   (42795, [42794]); (42797, [42796]); (42799, [42798]); (42803, [42802]);
   (42805, [42804]); (42807, [42806]); (42809, [42808]); (42811, [42810]);
   (42813, [42812]); (42815, [42814]); (42817, [42816]); (42819, [42818]);
   (42821, [42820]); (42823, [42822]); (42825, [42824]); (42827, [42826]);
   (42829, [42828]); (42831, [42830]); (42833, [42832]); (42835, [42834]);
   (42837, [42836]); (42839, [42838]); (42841, [42840]); (42843, [42842]);
   (42845, [42844]); (42847, [42846]); (42849, [42848]); (42851, [42850]);
   (42853, [42852]); (42855, [42854]); (42857, [42856]); (42859, [42858]);
   (42861, [42860]); (42863, [42862]); (42874, [42873]); (42876, [42875]);
   (42879, [42878]); (42881, [42880]); (42883, [42882]); (42885, [42884]);
   (42887, [42886]); (42892, [42891]); (42897, [42896]); (42899, [42898]);
   (42900, [42948]); (42903, [42902]); (42905, [42904]); (42907, [42906]);
   (42909, [42908]); (42911, [42910]); (42913, [42912]); (42915, [42914]);
   (42917, [42916]); (42919, [42918]); (42921, [42920]); (42933, [42932]);
   (42935, [42934]); (42937, [42936]); (42939, [42938]); (42941, [42940]);
   (42943, [42942]); (42945, [42944]); (42947, [42946]); (42952, [42951]);
   (42954, [42953]); (42961, [42960]); (42967, [42966]); (42969, [42968]);
   (42998, [42997]); (43859, [42931]); (43888, [5024]); (43889, [5025]);
   (43890, [5026]); (43891, [5027]); (43892, [5028]); (43893, [5029]);
   (43894, [5030]); (43895, [5031]); (43896, [5032]); (43897, [5033]);
   (43898, [5034]); (43899, [5035]); (43900, [5036]); (43901, [5037]);
   (43902, [5038]); (43903, [5039]); (43904, [5040]); (43905, [5041]);
   (43906, [5042]); (43907, [5043]); (43908, [5044]); (43909, [5045]);
   (43910, [5046]); (43911, [5047]); (43912, [5048]); (43913, [5049]);
   (43914, [5050]); (43915, [5051]); (43916, [5052]); (43917, [5053]);
   (43918, [5054]); (43919, [5055]); (43920, [5056]); (43921, [5057]);
   (43922, [5058]); (43923, [5059]); (43924, [5060]); (43925, [5061]);
   (43926, [5062]); (43927, [5063]); (43928, [5064]); (43929, [5065]);
   (43930, [5066]); (43931, [5067]); (43932, [5068]); (43933, [5069]);
   (43934, [5070]); (43935, [5071]); (43936, [5072]); (43937, [5073]);
   (43938, [5074]); (43939, [5075]); (43940, [5076]); (43941, [5077]);
   (43942, [5078]); (43943, [5079]); (43944, [5080]); (43945, [5081]);
   (43946, [5082]); (43947, [5083]); (43948, [5084]); (43949, [5085]);
   (43950, [5086]); (43951, [5087]); (43952, [5088]); (43953, [5089]);
   (43954, [5090]); (43955, [5091]); (43956, [5092]); (43957, [5093]);
   (43958, [5094]); (43959, [5095]); (43960, [5096]); (43961, [5097]);
   (43962, [5098]); (43963, [5099]); (43964, [5100]); (43965, [5101]);
   (43966, [5102]); (43967, [5103]); (64256, [70; 70]); (64257, [70; 73]);
   (64258, [70; 76]); (64259, [70; 70; 73]); (64260, [70; 70; 76]);
   (64261, [83; 84]); (64262, [83; 84]); (64275, [1348; 1350]);
   (64276, [1348; 1333]); (64277, [1348; 1339]); (64278, [1358; 1350]);
   (64279, [1348; 1341]); (65345, [65313]); (65346, [65314]); (65347, [65315]);
   (65348, [65316]); (65349, [65317]); (65350, [65318]); (65351, [65319]);
   (65352, [65320]); (65353, [65321]); (65354, [65322]); (65355, [65323]);
   (65356, [65324]); (65357, [65325]); (65358, [65326]); (65359, [65327]);
   (65360, [65328]); (65361, [65329]); (65362, [65330]); (65363, [65331]);
   (65364, [65332]); (65365, [65333]); (65366, [65334]); (65367, [65335]);
   (65368, [65336]); (65369, [65337]); (65370, [65338]); (66600, [66560]);
   (66601, [66561]); (66602, [66562]); (66603, [66563]); (66604, [66564]);
   (66605, [66565]); (66606, [66566]); (66607, [66567]); (66608, [66568]);
   (66609, [66569]); (66610, [66570]); (66611, [66571]); (66612, [66572]);
   (66613, [66573]); (66614, [66574]); (66615, [66575]); (66616, [66576]);
   (66617, [66577]); (66618, [66578]); (66619, [66579]); (66620, [66580]);
   (66621, [66581]); (66622, [66582]); (66623, [66583]); (66624, [66584]);
   (66625, [66585]); (66626, [66586]); (66627, [66587]); (66628, [66588]);
   (66629, [66589]); (66630, [66590]); (66631, [66591]); (66632, [66592]);
   (66633, [66593]); (66634, [66594]); (66635, [66595]); (66636, [66596]);
   (66637, [66597]); (66638, [66598]); (66639, [66599]); (66776, [66736]);
   (66777, [66737]); (66778, [66738]); (66779, [66739]); (66780, [66740]);
   (66781, [66741]); (66782, [66742]); (66783, [66743]); (66784, [66744]);
   (66785, [66745]); (66786, [66746]); (66787, [66747]); (66788, [66748]);
   (66789, [66749]); (66790, [66750]); (66791, [66751]); (66792, [66752]);
   (66793, [66753]); (66794, [66754]); (66795, [66755]); (66796, [66756]);
   (66797, [66757]); (66798, [66758]); (66799, [66759]); (66800, [66760]);
   (66801, [66761]); (66802, [66762]); (66803, [66763]); (66804, [66764]);
   (66805, [66765]); (66806, [66766]); (66807, [66767]); (66808, [66768]);
   (66809, [66769]); (66810, [66770]); (66811, [66771]); (66967, [66928]);
   (66968, [66929]); (66969, [66930]); (66970, [66931]); (66971, [66932]);
   (66972, [66933]); (66973, [66934]); (66974, [66935]); (66975, [66936]);
   (66976, [66937]); (66977, [66938]); (66979, [66940]); (66980, [66941]);
   (66981, [66942]); (66982, [66943]); (66983, [66944]); (66984, [66945]);
   (66985, [66946]); (66986, [66947]); (66987, [66948]); (66988, [66949]);
   (66989, [66950]); (66990, [66951]); (66991, [66952]); (66992, [66953]);
   (66993, [66954]); (66995, [66956]); (66996, [66957]); (66997, [66958]);
   (66998, [66959]); (66999, [66960]); (67000, [66961]); (67001, [66962]);
   (67003, [66964]); (67004, [66965]); (68800, [68736]); (68801, [68737]);
   (68802, [68738]); (68803, [68739]); (68804, [68740]); (68805, [68741]);
   (68806, [68742]); (68807, [68743]); (68808, [68744]); (68809, [68745]);
   (68810, [68746]); (68811, [68747]); (68812, [68748]); (68813, [68749]);
   (68814, [68750]); (68815, [68751]); (68816, [68752]); (68817, [68753]);
   (68818, [68754]); (68819, [68755]); (68820, [68756]); (68821, [68757]);
   (68822, [68758]); (68823, [68759]); (68824, [68760]); (68825, [68761]);
   (68826, [68762]); (68827, [68763]); (68828, [68764]); (68829, [68765]);
   (68830, [68766]); (68831, [68767]); (68832, [68768]); (68833, [68769]);
   (68834, [68770]); (68835, [68771]); (68836, [68772]); (68837, [68773]);
   (68838, [68774]); (68839, [68775]); (68840, [68776]); (68841, [68777]);
   (68842, [68778]); (68843, [68779]); (68844, [68780]); (68845, [68781]);
   (68846, [68782]); (68847, [68783]); (68848, [68784]); (68849, [68785]);
   (68850, [68786]); (71872, [71840]); (71873, [71841]); (71874, [71842]);
   (71875, [71843]); (71876, [71844]); (71877, [71845]); (71878, [71846]);
   (71879, [71847]); (71880, [71848]); (71881, [71849]); (71882, [71850]);
   (71883, [71851]); (71884, [71852]); (71885, [71853]); (71886, [71854]);
   (71887, [71855]); (71888, [71856]); (71889, [71857]); (71890, [71858]);
   (71891, [71859]); (71892, [71860]); (71893, [71861]); (71894, [71862]);
   (71895, [71863]); (71896, [71864]); (71897, [71865]); (71898, [71866]);
   (71899, [71867]); (71900, [71868]); (71901, [71869]); (71902, [71870]);
   (71903, [71871]); (93792, [93760]); (93793, [93761]); (93794, [93762]);
   (93795, [93763]); (93796, [93764]); (93797, [93765]); (93798, [93766]);
   (93799, [93767]); (93800, [93768]); (93801, [93769]); (93802, [93770]);
   (93803, [93771]); (93804, [93772]); (93805, [93773]); (93806, [93774]);
   (93807, [93775]); (93808, [93776]); (93809, [93777]); (93810, [93778]);
   (93811, [93779]); (93812, [93780]); (93813, [93781]); (93814, [93782]);
   (93815, [93783]); (93816, [93784]); (93817, [93785]); (93818, [93786]);
   (93819, [93787]); (93820, [93788]); (93821, [93789]); (93822, [93790]);
   (93823, [93791]); (125218, [125184]); (125219, [125185]); (125220, [125186]);
   (125221, [125187]); (125222, [125188]); (125223, [125189]);
   (125224, [125190]); (125225, [125191]); (125226, [125192]);
   (125227, [125193]); (125228, [125194]); (125229, [125195]);
   (125230, [125196]); (125231, [125197]); (125232, [125198]);
   (125233, [125199]); (125234, [125200]); (125235, [125201]);
   (125236, [125202]); (125237, [125203]); (125238, [125204]);
   (125239, [125205]); (125240, [125206]); (125241, [125207]);
   (125242, [125208]); (125243, [125209]); (125244, [125210]);
   (125245, [125211]); (125246, [125212]); (125247, [125213]);
   (125248, [125214]); (125249, [125215]); (125250, [125216]);
   (125251, [125217])
  ]%N.

End Unicode.

(** ** JavaScript string primitives *)

Module JS.

(** [xs.join(sep)] *)
Fixpoint join (sep : string) (xs : list string) : string :=
  match xs with
  | [] => EmptyString
  | [x] => x
  | x :: rest => x ++ sep ++ join sep rest
  end.

Definition whiteSpace : list string :=
  Eval vm_compute in map Unicode.utf8 Unicode.whiteSpaceData.

(** The number of bytes of the white-space character [s] starts with, 0 when
    it starts with none. *)
Definition wsWidth (s : string) : nat :=
  match find (fun ws => String.prefix ws s) whiteSpace with
  | Some ws => String.length ws
  | None => 0
  end.

(** [s] without its leading white space; [skip] counts the bytes still to
    drop of the white-space character being removed. *)
Fixpoint dropWhiteSpace (skip : nat) (s : string) : string :=
  match s with
  | EmptyString => EmptyString
  | String c s' =>
      match skip with
      | S k => dropWhiteSpace k s'
      | O =>
          match wsWidth s with
          | O => s
          | S k => dropWhiteSpace k s'
          end
      end
  end.

Definition trimStart (s : string) : string := dropWhiteSpace 0 s.

Definition isWhiteSpaceOnly (s : string) : bool :=
  match trimStart s with EmptyString => true | _ => false end.

(** [trimEnd] cuts the text where nothing but white space follows. *)
Fixpoint trimEnd (s : string) : string :=
  match s with
  | EmptyString => EmptyString
  | String c s' => if isWhiteSpaceOnly s then EmptyString else String c (trimEnd s')
  end.

Definition trim (s : string) : string := trimEnd (trimStart s).

Definition upperChar (c : ascii) : ascii :=
  let n := nat_of_ascii c in
  if Nat.leb 97 n && Nat.leb n 122 then ascii_of_nat (n - 32) else c.

(** The encoded characters above 127 with their upper case. *)
Definition upperTable : list (string * string) :=
  Eval vm_compute in
    map (fun e => (Unicode.utf8 (fst e), join EmptyString (map Unicode.utf8 (snd e))))
        Unicode.upperData.

Fixpoint lookup (k : string) (t : list (string * string)) : option string :=
  match t with
  | [] => None
  | (k', v) :: t' => if String.eqb k k' then Some v else lookup k t'
  end.

(** A byte above 127: part of a character of several bytes. *)
Definition isWide (c : ascii) : bool :=
  match c with Ascii _ _ _ _ _ _ _ b => b end.

(** [toUpperCase] character by character: the table above 127, a-z in the
    ASCII range; [skip] counts the bytes still to pass of a character already
    mapped. *)
Fixpoint upperFrom (skip : nat) (s : string) : string :=
  match s with
  | EmptyString => EmptyString
  | String c s' =>
      match skip with
      | S k => upperFrom k s'
      | O =>
          if isWide c then
            match lookup (substring 0 (Unicode.width c) s) upperTable with
            | Some t => t ++ upperFrom (Unicode.width c - 1) s'
            | None => String c (upperFrom 0 s')
            end
          else String (upperChar c) (upperFrom 0 s')
      end
  end.

Definition toUpperCase (s : string) : string := upperFrom 0 s.

(** Truthiness of a string: the empty string is the only falsy one. *)
Definition truthy (s : string) : bool :=
  match s with EmptyString => false | _ => true end.

(** [a || b] on an optional string ([None] stands for null/undefined). *)
Definition orElse (a : option string) (b : string) : string :=
  match a with
  | Some s => if truthy s then s else b
  | None => b
  end.

(** Segments of [s.split(sep)] for a one-character separator;
    [cur] is the segment being read. *)
Fixpoint splitAux (sep : ascii) (cur : string) (s : string) : list string :=
  match s with
  | EmptyString => [cur]
  | String c s' =>
      if Ascii.eqb c sep then cur :: splitAux sep EmptyString s'
      else splitAux sep (cur ++ String c EmptyString) s'
  end.

Definition split (sep : ascii) (s : string) : list string :=
  splitAux sep EmptyString s.

(** [xs.pop()] as the value it returns. *)
Definition pop (xs : list string) : option string :=
  match rev xs with
  | [] => None
  | x :: _ => Some x
  end.

Definition string_of_Z (z : Z) : string :=
  NilZero.string_of_int (Z.to_int z).

End JS.

(** ** Data model *)

(** A metafield of the GraphQL projection: [{ value }], or null. *)
Record Metafield := { mf_value : option string }.

(** A fulfillment event; [f_createdAt] is [None] for a null or empty
    timestamp, the values [filter(Boolean)] drops. *)
Record Fulfillment := { f_createdAt : option Z; f_status : string }.

Record Customer := { displayName : option string }.

Record Order := {
  id : option string;
  name : option string;
  createdAt : option Z;
  displayFulfillmentStatus : option string;
  fulfillments : option (list Fulfillment);
  customer : option Customer;
  weeksSinceOrder : option Metafield;
  arrangeStatus : option Metafield;
  arrangedWith : option Metafield;
  incoming : option Metafield;
  reserveIncoming : option Metafield;
  readyToContact : option Metafield;
  needsFollowUp : option Metafield;
  followUpNotes : option Metafield;
  owesReturn : option Metafield;
  returnNotes : option Metafield;
  invoicedWith : option Metafield
}.

(** The local object [mf] of [analyzeOrder]. *)
Module Mf.
Record t := {
  weeks : string;
  arrangeStatus : string;
  arrangedWith : string;
  incoming : string;
  reserveIncoming : string;
  readyToContact : string;
  needsFollowUp : string;
  followUpNotes : string;
  owesReturn : string;
  returnNotes : string;
  invoice : string
}.
End Mf.

Record Detail := { label : string; value : string }.

Record AnalysisResult := {
  headerText : string;
  blurbLines : list string;
  details : list Detail;
  footer : list string
}.

(** Process-wide configuration read from the environment at start. *)
Record Config := {
  SHOPIFY_DOMAIN : string;
  LOCK_CHANNEL : option string
}.

(** ** Helpers *)

Definition val (mf : option Metafield) (fallback : string) : string :=
  match mf with
  | None => fallback
  | Some m =>
      match mf_value m with
      | None => fallback
      | Some s => let v := JS.trim s in if JS.truthy v then v else fallback
      end
  end.

Definition isYes (s : string) (yes : string) : bool :=
  String.eqb (JS.toUpperCase s) yes.

Definition isEq (s target : string) : bool :=
  String.eqb (JS.toUpperCase s) (JS.toUpperCase target).

Definition isBlankOrNo (s : string) : bool :=
  if negb (JS.truthy s) then true
  else
    let t := JS.toUpperCase (JS.trim s) in
    String.eqb t EmptyString || String.eqb t "NO".

Definition WEEK_MS : Z := (1000 * 60 * 60 * 24 * 7)%Z.

(** [Math.round]: the nearest integer, a tie going to the larger one. *)
Definition Math_round (x : Q) : Z := Qfloor (x + (1 # 2))%Q.

Definition weeksSince (now : Z) (dateIso : option Z) : option Q :=
  match dateIso with
  | None => None
  | Some dt =>
      let ms := (now - dt)%Z in
      let weeks := (inject_Z ms / inject_Z WEEK_MS)%Q in
      Some (inject_Z (Math_round (weeks * 10)%Q) / 10)%Q
  end.

(** The text of a number in a template literal, for the one-decimal values
    [weeksSince] returns. *)
Definition numberToString (w : Q) : string :=
  let t := Qfloor (w * 10)%Q in
  let a := Z.abs t in
  let d := (a mod 10)%Z in
  ((if (t <? 0)%Z then "-" else EmptyString)
   ++ JS.string_of_Z (a / 10)%Z
   ++ (if (d =? 0)%Z then EmptyString else "." ++ JS.string_of_Z d)).

(** Stable insertion of [a] in a list sorted by the comparator
    [(a, b) => new Date(b) - new Date(a)]: [a] stays before [b] unless the
    comparator is positive. *)
Fixpoint insertDesc (a : Z) (l : list Z) : list Z :=
  match l with
  | [] => [a]
  | b :: l' => if (b - a <=? 0)%Z then a :: l else b :: insertDesc a l'
  end.

Definition sortDesc (l : list Z) : list Z := fold_right insertDesc [] l.

Fixpoint filterBoolean (l : list (option Z)) : list Z :=
  match l with
  | [] => []
  | Some t :: l' => t :: filterBoolean l'
  | None :: l' => filterBoolean l'
  end.

Definition mostRecentFulfillmentAt (order : Order) : option Z :=
  let list := match fulfillments order with Some l => l | None => [] end in
  match list with
  | [] => None
  | _ =>
      let dates := sortDesc (filterBoolean (map f_createdAt list)) in
      hd_error dates
  end.

Definition adminOrderUrlFromGid (cfg : Config) (gid : option string) : string :=
  let numericId :=
    match gid with
    | None => None
    | Some g => JS.pop (JS.split "/"%char g)
    end in
  match numericId with
  | Some n =>
      if JS.truthy n
      then "https://" ++ SHOPIFY_DOMAIN cfg ++ "/admin/orders/" ++ n
      else "https://" ++ SHOPIFY_DOMAIN cfg ++ "/admin"
  | None => "https://" ++ SHOPIFY_DOMAIN cfg ++ "/admin"
  end.

(** ** Texts of the narrative and of the replies *)

Module Text.

Definition nl : string := String (ascii_of_nat 10) EmptyString.
Definition dash : string := "‚Äî".
Definition headerSep : string := " ‚Äî ".
Definition fulfilledPrefix : string := "‚úÖ Fulfilled ".
Definition dateUnavailable : string := "(date unavailable)".
Definition notFulfilledPrefix : string := "‚è≥ Not yet fulfilled (".
Definition needToArrange : string := "üß© Not yet arranged with supplier ‚Äî check Follow-Up Notes for the reason.".
Definition arranged : string := "üõ†Ô∏è Arranged with supplier (not yet incoming).".
Definition partiallyIncoming : string := "üì¶ Partially incoming: some items are on the way; others still arranged/not invoiced.".
Definition incomingLine : string := "üì¶ Incoming from supplier ‚Äî pending arrival & final QC.".
Definition readyToContact : string := "üìû Ready to contact customer (team should coordinate next steps).".
Definition contactLater : string := "‚è≤Ô∏è Contact later: items are here & passed QC, but it‚Äôs not yet time to contact.".
Definition needsFollowUp : string := "‚ö†Ô∏è Needs follow-up ‚Äî see details for context.".
Definition reserved : string := "üè∑Ô∏è Reserved incoming inventory earmarked for this order.".
Definition owesReturn : string := "‚Ü©Ô∏è Customer owes a return.".
Definition noExceptions : string := "‚ÑπÔ∏è No exceptions detected.".
Definition notFoundPrefix : string := "Couldn‚Äôt find an order named *".
Definition footerSep : string := " ‚Ä¢ ".
Definition summarySuffix : string := " ‚Äî summary".
Definition apology : string := "Sorry, I hit an error looking that up.".

End Text.

(** ** The rule engine *)

(** The mutable locals of [analyzeOrder]: the narrative, the detail list and
    the set of keys already used (a JavaScript Set, in insertion order). *)
Module Locals.
Record t := {
  blurb : list string;
  details : list Detail;
  detailsAdded : list string
}.
Definition empty : t := {| blurb := []; details := []; detailsAdded := [] |}.
End Locals.

Definition has (s : list string) (key : string) : bool :=
  existsb (String.eqb key) s.

(** [blurb.push(line)] *)
Definition push (line : string) (st : Locals.t) : Locals.t :=
  {| Locals.blurb := Locals.blurb st ++ [line];
     Locals.details := Locals.details st;
     Locals.detailsAdded := Locals.detailsAdded st |}.

Definition addDetail (key label value : string) (st : Locals.t) : Locals.t :=
  if negb (JS.truthy value) then st
  else if has (Locals.detailsAdded st) key then st
  else
    {| Locals.blurb := Locals.blurb st;
       Locals.details := Locals.details st ++ [{| label := label; value := value |}];
       Locals.detailsAdded := Locals.detailsAdded st ++ [key] |}.

(** [if (c) f] on the locals. *)
Definition when (c : bool) (f : Locals.t -> Locals.t) (st : Locals.t) : Locals.t :=
  if c then f st else st.

Notation "st |> f" := (f st) (at level 45, left associativity, only parsing).

Definition normalize (order : Order) : Mf.t :=
  {| Mf.weeks := val (weeksSinceOrder order) EmptyString;
     Mf.arrangeStatus := JS.toUpperCase (val (arrangeStatus order) EmptyString);
     Mf.arrangedWith := val (arrangedWith order) EmptyString;
     Mf.incoming := JS.toUpperCase (val (incoming order) EmptyString);
     Mf.reserveIncoming := JS.toUpperCase (val (reserveIncoming order) EmptyString);
     Mf.readyToContact := JS.toUpperCase (val (readyToContact order) EmptyString);
     Mf.needsFollowUp := JS.toUpperCase (val (needsFollowUp order) EmptyString);
     Mf.followUpNotes := val (followUpNotes order) EmptyString;
     Mf.owesReturn := JS.toUpperCase (val (owesReturn order) EmptyString);
     Mf.returnNotes := val (returnNotes order) EmptyString;
     Mf.invoice := val (invoicedWith order) EmptyString |}.

Definition isFulfilledOrder (order : Order) : bool :=
  let dispFulfill := JS.orElse (displayFulfillmentStatus order) Text.dash in
  String.eqb (JS.toUpperCase dispFulfill) "FULFILLED".

Definition fulfilledLine (w : option Q) : string :=
  Text.fulfilledPrefix
  ++ match w with
     | Some x => numberToString x ++ " weeks ago"
     | None => Text.dateUnavailable
     end
  ++ ".".

Definition notFulfilledLine (weeks : string) : string :=
  Text.notFulfilledPrefix
  ++ (if JS.truthy weeks then weeks ++ " weeks open" else "age unknown")
  ++ ").".

(** The rules of [analyzeOrder], one per block of its body, each a change of
    the locals. *)
Section Rules.

Variable mf : Mf.t.
Variable isFulfilled : bool.

(* Fulfilled vs not *)
Definition ruleFulfillment (now : Z) (fulfilledAt : option Z) (st : Locals.t) : Locals.t :=
  if isFulfilled then
    let w := weeksSince now fulfilledAt in
    st |> push (fulfilledLine w)
       |> addDetail "invoice" "Invoiced With" (Mf.invoice mf)
  else
    st |> push (notFulfilledLine (Mf.weeks mf)).

(* NEED TO ARRANGE *)
Definition ruleNeedToArrange (st : Locals.t) : Locals.t :=
  if isEq (Mf.arrangeStatus mf) "NEED TO ARRANGE" then
    st |> push Text.needToArrange
       |> addDetail "followUpNotes" "Follow-Up Notes" (Mf.followUpNotes mf)
       |> when (negb isFulfilled) (addDetail "weeks" "Weeks Since Order" (Mf.weeks mf))
  else st.

(* ARRANGED (but not yet incoming) *)
Definition ruleArranged (st : Locals.t) : Locals.t :=
  if isEq (Mf.arrangeStatus mf) "ARRANGED" && negb (isYes (Mf.incoming mf) "INCOMING") then
    st |> push Text.arranged
       |> addDetail "arrangedWith" "Arranged With" (Mf.arrangedWith mf)
       |> when (negb isFulfilled) (addDetail "weeks" "Weeks Since Order" (Mf.weeks mf))
  else st.

(* INCOMING *)
Definition ruleIncoming (st : Locals.t) : Locals.t :=
  if isYes (Mf.incoming mf) "INCOMING" then
    let alsoArranged := isEq (Mf.arrangeStatus mf) "ARRANGED" in
    (if alsoArranged then
       st |> push Text.partiallyIncoming
          |> addDetail "followUpNotes" "Follow-Up Notes" (Mf.followUpNotes mf)
     else
       st |> push Text.incomingLine)
    |> addDetail "invoice" "Invoiced With" (Mf.invoice mf)
    |> when (negb isFulfilled) (addDetail "weeks" "Weeks Since Order" (Mf.weeks mf))
  else st.

(* READY TO CONTACT / CONTACT LATER *)
Definition ruleReadyToContact (st : Locals.t) : Locals.t :=
  if isEq (Mf.readyToContact mf) "READY TO CONTACT" then
    st |> push Text.readyToContact
       |> addDetail "invoice" "Invoiced With" (Mf.invoice mf)
  else if isEq (Mf.readyToContact mf) "CONTACT LATER" then
    st |> push Text.contactLater
       |> addDetail "weeks" "Weeks Since Order" (Mf.weeks mf)
       |> addDetail "invoice" "Invoiced With" (Mf.invoice mf)
  else st.

(* NEEDS FOLLOW-UP *)
Definition ruleNeedsFollowUp (st : Locals.t) : Locals.t :=
  if isEq (Mf.needsFollowUp mf) "NEEDS FOLLOW-UP" then
    st |> push Text.needsFollowUp
       |> addDetail "followUpNotes" "Follow-Up Notes" (Mf.followUpNotes mf)
  else st.

(* RESERVED INCOMING INVENTORY *)
Definition ruleReserved (st : Locals.t) : Locals.t :=
  if isEq (Mf.reserveIncoming mf) "RESERVED INCOMING INVENTORY" then
    st |> push Text.reserved
       |> addDetail "arrangedWith" "Arranged/Reserved With" (Mf.arrangedWith mf)
  else st.

(* OWES RETURN *)
Definition ruleOwesReturn (st : Locals.t) : Locals.t :=
  if isEq (Mf.owesReturn mf) "OWES RETURN" then
    st |> push Text.owesReturn
       |> addDetail "returnNotes" "Return Notes" (Mf.returnNotes mf)
  else st.

(* if (blurb.length === 0) *)
Definition fallback (st : Locals.t) : Locals.t :=
  if Nat.eqb (List.length (Locals.blurb st)) 0 then
    st |> push Text.noExceptions
  else st.

End Rules.

(** The body of [analyzeOrder] up to and including the fallback line: the
    final value of its locals. *)
Definition analyzeLocals (now : Z) (order : Order) : Locals.t :=
  let mf := normalize order in
  let fulfilledAt := mostRecentFulfillmentAt order in
  let isFulfilled := isFulfilledOrder order in
  Locals.empty
    |> ruleFulfillment mf isFulfilled now fulfilledAt
    |> ruleNeedToArrange mf isFulfilled
    |> ruleArranged mf isFulfilled
    |> ruleIncoming mf isFulfilled
    |> ruleReadyToContact mf
    |> ruleNeedsFollowUp mf
    |> ruleReserved mf
    |> ruleOwesReturn mf
    |> fallback.

Definition analyzeOrder (cfg : Config) (now : Z) (order : Order) : AnalysisResult :=
  let name := JS.orElse (name order) Text.dash in
  let customer :=
    JS.orElse (match customer order with
               | Some c => displayName c
               | None => None
               end) Text.dash in
  let headerText := (name ++ Text.headerSep ++ customer)%string in
  let st := analyzeLocals now order in
  let adminUrl := adminOrderUrlFromGid cfg (id order) in
  let footer := [("<" ++ adminUrl ++ "|Open in Shopify Admin>")%string] in
  {| headerText := headerText;
     blurbLines := Locals.blurb st;
     details := Locals.details st;
     footer := footer |}.

(** ** Identifier pattern *)

(** The fragment of regular expressions [ORDER_REGEX] is written in, with a
    backtracking matcher: greedy bounded repetition and the word boundary
    assertion.  A matcher receives the character before the current position
    (if any), the rest of the input and the number of characters consumed so
    far, and hands them to its continuation. *)
Module Regex.

Inductive re :=
| Chr (c : ascii)
| Digit
| WordBoundary
| Seq (r1 r2 : re)
| Repeat (lo hi : nat) (r : re).

Definition isDigit (c : ascii) : bool :=
  let n := nat_of_ascii c in Nat.leb 48 n && Nat.leb n 57.

Definition isWordChar (c : ascii) : bool :=
  let n := nat_of_ascii c in
  (Nat.leb 48 n && Nat.leb n 57) || (Nat.leb 65 n && Nat.leb n 90)
  || (Nat.leb 97 n && Nat.leb n 122) || Nat.eqb n 95.

Definition isWordAt (c : option ascii) : bool :=
  match c with Some x => isWordChar x | None => false end.

Definition cont := option ascii -> list ascii -> nat -> option nat.
Definition matcher := option ascii -> list ascii -> nat -> cont -> option nat.

Definition one (p : ascii -> bool) : matcher :=
  fun prev s n k =>
    match s with
    | x :: s' => if p x then k (Some x) s' (S n) else None
    | [] => None
    end.

Fixpoint repeatGreedy (step : matcher) (lo hi : nat) {struct hi} : matcher :=
  fun prev s n k =>
    match hi with
    | 0 => if Nat.eqb lo 0 then k prev s n else None
    | S hi' =>
        match step prev s n (fun p s' n' => repeatGreedy step (pred lo) hi' p s' n' k) with
        | Some r => Some r
        | None => if Nat.eqb lo 0 then k prev s n else None
        end
    end.

Fixpoint compile (r : re) : matcher :=
  match r with
  | Chr c => one (Ascii.eqb c)
  | Digit => one isDigit
  | WordBoundary =>
      fun prev s n k =>
        if xorb (isWordAt prev) (isWordAt (hd_error s)) then k prev s n else None
  | Seq r1 r2 =>
      fun prev s n k => compile r1 prev s n (fun p s' n' => compile r2 p s' n' k)
  | Repeat lo hi r1 => repeatGreedy (compile r1) lo hi
  end.

(** One match attempt at the current position: the length of the match. *)
Definition exec (r : re) (prev : option ascii) (s : list ascii) : option nat :=
  compile r prev s 0 (fun _ _ n => Some n).

(** The scan of a global regular expression: after a match at [idx] of
    length [len] the next attempt is at [idx + len] (at [idx + 1] for an empty
    match); [skip] counts the characters still covered by the last match. *)
Fixpoint scan (r : re) (skip : nat) (prev : option ascii) (s : list ascii)
         (idx : nat) : list (nat * list ascii) :=
  match s with
  | [] =>
      match skip, exec r prev [] with
      | 0, Some _ => [(idx, [])]
      | _, _ => []
      end
  | c :: s' =>
      match skip with
      | S k => scan r k (Some c) s' (S idx)
      | 0 =>
          match exec r prev s with
          | Some len => (idx, firstn len s) :: scan r (pred len) (Some c) s' (S idx)
          | None => scan r 0 (Some c) s' (S idx)
          end
      end
  end.

(** [[...text.matchAll(r)]] as the pairs of [m.index] and [m[0]]. *)
Definition matchAll (r : re) (text : string) : list (nat * string) :=
  map (fun im => (fst im, string_of_list_ascii (snd im)))
      (scan r 0 None (list_ascii_of_string text) 0).

End Regex.

(** [/\bC#\d{4,5}\b/g] *)
Definition ORDER_REGEX : Regex.re :=
  Regex.Seq Regex.WordBoundary
    (Regex.Seq (Regex.Chr "C")
      (Regex.Seq (Regex.Chr "#")
        (Regex.Seq (Regex.Repeat 4 5 Regex.Digit) Regex.WordBoundary))).

(** [[...text.matchAll(ORDER_REGEX)].map(m => m[0])] *)
Definition orderMatches (text : string) : list string :=
  map snd (Regex.matchAll ORDER_REGEX text).

(** ** Message formatter *)

Inductive TextObject :=
| plain_text (text : string)
| mrkdwn (text : string).

Inductive Block :=
| header (text : TextObject)
| divider
| section (text : TextObject)
| sectionFields (fields : list TextObject)
| context (elements : list TextObject).

Definition fieldOf (d : Detail) : TextObject :=
  mrkdwn ("*" ++ label d ++ "*" ++ Text.nl
          ++ (if JS.truthy (value d) then value d else Text.dash)).

(** One turn of the loop over [details]: the pair is [(fieldChunks, current)]. *)
Definition chunkStep (acc : list (list TextObject) * list TextObject) (d : Detail)
  : list (list TextObject) * list TextObject :=
  let current := (snd acc ++ [fieldOf d])%list in
  if Nat.eqb (List.length current) 10
  then ((fst acc ++ [current])%list, [])
  else (fst acc, current).

Definition fieldChunks (details : list Detail) : list (list TextObject) :=
  let acc := fold_left chunkStep details ([], []) in
  match snd acc with
  | [] => fst acc
  | current => (fst acc ++ [current])%list
  end.

Definition buildBlocks (r : AnalysisResult) : list Block :=
  ([header (plain_text (headerText r));
    divider;
    section (mrkdwn (JS.join Text.nl (blurbLines r)))]
   ++ match details r with
      | [] => []
      | ds => divider :: map sectionFields (fieldChunks ds)
      end
   ++ [context [mrkdwn (JS.join Text.footerSep (footer r))]])%list.

(** ** Order fetcher *)

(** Parsed JSON.  An object is the list of its members; a key is looked up
    from the front. *)
#[warnings="-register-all"]
Inductive JSON :=
| JNull
| JBool (b : bool)
| JNum (x : Q)
| JStr (s : string)
| JArr (items : list JSON)
| JObj (members : list (string * JSON)).

Module Json.

Fixpoint assoc (k : string) (ms : list (string * JSON)) : option JSON :=
  match ms with
  | [] => None
  | (k', v) :: ms' => if String.eqb k k' then Some v else assoc k ms'
  end.

(** Truthiness of a value; [None] stands for undefined. *)
Definition truthy (v : option JSON) : bool :=
  match v with
  | None => false
  | Some JNull => false
  | Some (JBool b) => b
  | Some (JNum x) => negb (Z.eqb (Qnum x) 0)
  | Some (JStr s) => JS.truthy s
  | Some (JArr _) => true
  | Some (JObj _) => true
  end.

(** [v.k] for a value that is neither null nor undefined. *)
Definition get (v : JSON) (k : string) : option JSON :=
  match v with
  | JObj ms => assoc k ms
  | JArr items =>
      if String.eqb k "length"
      then Some (JNum (inject_Z (Z.of_nat (List.length items))))
      else None
  | JStr s =>
      if String.eqb k "length"
      then Some (JNum (inject_Z (Z.of_nat (String.length s))))
      else None
  | _ => None
  end.

(** [v?.k] *)
Definition opt (v : option JSON) (k : string) : option JSON :=
  match v with
  | None => None
  | Some JNull => None
  | Some x => get x k
  end.

(** [v?.[0]] *)
Definition opt0 (v : option JSON) : option JSON :=
  match v with
  | Some (JArr items) => hd_error items
  | Some (JObj ms) => assoc "0" ms
  | Some (JStr (String c _)) => Some (JStr (String c EmptyString))
  | _ => None
  end.

(** The text of a number: its decimal expansion, which is the text JavaScript
    gives for a number of at most 15 significant digits between 1e-6 and 1e21
    in magnitude; [fuel] bounds the digits after the point. *)
Fixpoint fractionDigits (fuel : nat) (r d : Z) : string :=
  match fuel with
  | O => EmptyString
  | S fuel' =>
      if (r =? 0)%Z then EmptyString
      else JS.string_of_Z (r * 10 / d)%Z ++ fractionDigits fuel' ((r * 10) mod d)%Z d
  end.

Definition numberText (x : Q) : string :=
  let n := Qnum x in
  let d := Zpos (Qden x) in
  let a := Z.abs n in
  ((if (n <? 0)%Z then "-" else EmptyString)
   ++ JS.string_of_Z (a / d)%Z
   ++ (if (a mod d =? 0)%Z then EmptyString
       else "." ++ fractionDigits 20 (a mod d)%Z d))%string.

(** The text of a value in a template literal or through [toString()]. *)
Fixpoint toText (v : JSON) : string :=
  match v with
  | JNull => "null"
  | JBool b => if b then "true" else "false"
  | JNum x => numberText x
  | JStr s => s
  | JArr items =>
      JS.join ","
        (map (fun x => match x with JNull => EmptyString | _ => toText x end) items)
  | JObj _ => "[object Object]"
  end.

(** [v ?? null], null being [None] from here on. *)
Definition orNull (v : option JSON) : option JSON :=
  match v with
  | Some JNull => None
  | _ => v
  end.

End Json.

Record Request := {
  url : string;
  accessToken : string;
  q : string
}.

Record Response := {
  ok : bool;
  status : Z;
  (** the value [resp.json()] resolves to; [None] when it rejects *)
  json : option JSON
}.

(** What [await fetch(...)] does: it rejects or it resolves to a response. *)
Inductive Transport :=
| Rejected
| Responded (resp : Response).

Inductive Error :=
| FetchFailed
| ShopifyHTTP (status : Z)
| BodyNotJSON
| TypeError
| ShopifyGQLErrors (errors : option JSON)
| ShopifyDataErrors (errors : option JSON)
| PostFailed.

Inductive Outcome (A : Type) :=
| Raised (e : Error)
| Returned (a : A).
Arguments Raised {A} e.
Arguments Returned {A} a.

Record Backend := {
  SHOPIFY_TOKEN : string;
  SHOPIFY_VERSION : string;
  config : Config
}.

Definition requestFor (be : Backend) (orderName : string) : Request :=
  {| url := "https://" ++ SHOPIFY_DOMAIN (config be) ++ "/admin/api/"
            ++ SHOPIFY_VERSION be ++ "/graphql.json";
     accessToken := SHOPIFY_TOKEN be;
     q := "name:'" ++ orderName ++ "' status:any" |}.

(** The part of [getOrderByName] after [await fetch(...)]. *)
Definition readResponse (t : Transport) : Outcome (option JSON) :=
  match t with
  | Rejected => Raised FetchFailed
  | Responded resp =>
      if negb (ok resp) then Raised (ShopifyHTTP (status resp))
      else
        match json resp with
        | None => Raised BodyNotJSON
        | Some JNull => Raised TypeError
        | Some data =>
            let errors := Json.get data "errors" in
            if Json.truthy (Json.opt errors "length")
            then Raised (ShopifyGQLErrors errors)
            else
              let dataErrors := Json.opt (Json.get data "data") "errors" in
              if Json.truthy (Json.opt dataErrors "length")
              then Raised (ShopifyDataErrors dataErrors)
              else
                Returned
                  (Json.orNull
                     (Json.opt
                        (Json.opt0
                           (Json.opt (Json.opt (Json.opt (Some data) "data") "orders")
                                     "edges"))
                        "node"))
        end
  end.

Definition getOrderByName (be : Backend) (fetch : Request -> Transport)
           (orderName : string) : Outcome (option JSON) :=
  readResponse (fetch (requestFor be orderName)).

(** ** Event dispatcher *)

Module Event.
Record t := {
  subtype : option string;
  text : option string;
  bot_id : option string;
  channel : string;
  ts : string
}.
End Event.

Module Message.
Record t := {
  channel : string;
  thread_ts : string;
  text : string;
  blocks : list Block
}.
End Message.

(** One call of [client.chat.postMessage] and whether it went through. *)
Record Call := { message : Message.t; delivered : bool }.

(** What the handler meets while it runs: the answer of the backend to the
    request for the i-th identifier, the time at the i-th analysis, and whether
    the n-th call of [postMessage] rejects. *)
Record World := {
  fetch : nat -> Request -> Transport;
  clock : nat -> Z;
  postRejects : nat -> bool
}.

Section Dispatcher.

(** The time value of [new Date(s)] for a timestamp string of the backend. *)
Variable timeValue : string -> Z.
Variable be : Backend.
Variable w : World.

(** The order node is read at the types of the GraphQL projection: strings
    for the identifier, the name, the status, the display name and the value
    of a metafield, DateTime strings for the timestamps.  Where the identifier
    or the status has another type the code calls a string method the value
    does not have, and raises; a name, a display name or a value that is a
    number or a boolean is converted to its text ([toText]).  Lists and
    objects in place of a string, and timestamps that are no DateTime strings,
    are outside the model. *)
Definition asString (v : option JSON) : option string :=
  match v with
  | Some (JStr s) => Some s
  | _ => None
  end.

(** [v || ...] followed by a template literal: a falsy value is replaced, a
    truthy one is converted to text. *)
Definition asText (v : option JSON) : option string :=
  match v with
  | Some (JStr s) => Some s
  | Some x => if Json.truthy v then Some (Json.toText x) else None
  | None => None
  end.

Definition asTime (v : option JSON) : option Z :=
  match asString v with
  | Some s => if JS.truthy s then Some (timeValue s) else None
  | None => None
  end.

(** [mf?.value?.toString()] *)
Definition asMetafield (v : option JSON) : option Metafield :=
  match v with
  | None | Some JNull => None
  | Some m =>
      Some {| mf_value :=
                match Json.get m "value" with
                | None | Some JNull => None
                | Some x => Some (Json.toText x)
                end |}
  end.

Definition asFulfillment (j : JSON) : Fulfillment :=
  {| f_createdAt := asTime (Json.opt (Some j) "createdAt");
     f_status := JS.orElse (asString (Json.opt (Some j) "status")) EmptyString |}.

(** [order?.customer?.displayName] *)
Definition asCustomer (v : option JSON) : option Customer :=
  match v with
  | None | Some JNull => None
  | Some c => Some {| displayName := asText (Json.get c "displayName") |}
  end.

Definition decodeOrder (node : JSON) : Order :=
  {| id := asString (Json.get node "id");
     name := asText (Json.get node "name");
     createdAt := asTime (Json.get node "createdAt");
     displayFulfillmentStatus := asString (Json.get node "displayFulfillmentStatus");
     fulfillments :=
       match Json.get node "fulfillments" with
       | Some (JArr items) => Some (map asFulfillment items)
       | _ => None
       end;
     customer := asCustomer (Json.get node "customer");
     weeksSinceOrder := asMetafield (Json.get node "weeksSinceOrder");
     arrangeStatus := asMetafield (Json.get node "arrangeStatus");
     arrangedWith := asMetafield (Json.get node "arrangedWith");
     incoming := asMetafield (Json.get node "incoming");
     reserveIncoming := asMetafield (Json.get node "reserveIncoming");
     readyToContact := asMetafield (Json.get node "readyToContact");
     needsFollowUp := asMetafield (Json.get node "needsFollowUp");
     followUpNotes := asMetafield (Json.get node "followUpNotes");
     owesReturn := asMetafield (Json.get node "owesReturn");
     returnNotes := asMetafield (Json.get node "returnNotes");
     invoicedWith := asMetafield (Json.get node "invoicedWith") |}.

(** [(dispFulfill || '').toUpperCase()] finds no such method on a truthy
    status that is not a string. *)
Definition statusRaises (node : JSON) : bool :=
  match Json.get node "displayFulfillmentStatus" with
  | Some (JStr _) => false
  | v => Json.truthy v
  end.

(** [gid?.split('/')] finds no such method on an identifier that is neither
    null, undefined nor a string. *)
Definition idRaises (node : JSON) : bool :=
  match Json.get node "id" with
  | None | Some JNull | Some (JStr _) => false
  | Some _ => true
  end.

(** [analyzeOrder(order)] on the node of the backend. *)
Definition analyzeNode (now : Z) (node : JSON) : Outcome AnalysisResult :=
  if statusRaises node || idRaises node then Raised TypeError
  else Returned (analyzeOrder (config be) now (decodeOrder node)).

Definition reply (ev : Event.t) (text : string) (blocks : list Block) : Message.t :=
  {| Message.channel := Event.channel ev;
     Message.thread_ts := Event.ts ev;
     Message.text := text;
     Message.blocks := blocks |}.

Definition notFoundMessage (ev : Event.t) (orderName : string) : Message.t :=
  reply ev (Text.notFoundPrefix ++ orderName ++ "*.") [].

(** The text is the template literal on [order.name]: an absent member reads
    undefined. *)
Definition summaryMessage (ev : Event.t) (r : AnalysisResult) (node : JSON) : Message.t :=
  reply ev
        (match Json.get node "name" with
         | Some x => Json.toText x
         | None => "undefined"
         end ++ Text.summarySuffix)
        (buildBlocks r).

Definition apologyMessage (ev : Event.t) : Message.t :=
  reply ev Text.apology [].

(** [await client.chat.postMessage(msg)] after the calls [calls]: the call is
    recorded, and the flag tells whether it raised. *)
Definition postMessage (msg : Message.t) (calls : list Call) : list Call * bool :=
  let rejects := postRejects w (List.length calls) in
  ((calls ++ [{| message := msg; delivered := negb rejects |}])%list, rejects).

(** The body of the loop for the i-th identifier: the calls made so far and
    the error it raised, if any. *)
Definition processOne (ev : Event.t) (i : nat) (orderName : string)
           (calls : list Call) : list Call * option Error :=
  match getOrderByName be (fetch w i) orderName with
  | Raised e => (calls, Some e)
  | Returned order =>
      if negb (Json.truthy order) then
        let (calls', raised) := postMessage (notFoundMessage ev orderName) calls in
        (calls', if raised then Some PostFailed else None)
      else
        match order with
        | Some node =>
            match analyzeNode (clock w i) node with
            | Raised e => (calls, Some e)
            | Returned r =>
                let (calls', raised) := postMessage (summaryMessage ev r node) calls in
                (calls', if raised then Some PostFailed else None)
            end
        | None => (calls, None)
        end
  end.

(** [for (const orderName of matches) { ... }] from the i-th identifier on;
    an error leaves the loop. *)
Fixpoint forEachMatch (ev : Event.t) (i : nat) (matches : list string)
         (calls : list Call) : list Call * option Error :=
  match matches with
  | [] => (calls, None)
  | orderName :: rest =>
      match processOne ev i orderName calls with
      | (calls', None) => forEachMatch ev (S i) rest calls'
      | (calls', Some e) => (calls', Some e)
      end
  end.

Definition truthyOpt (s : option string) : bool :=
  match s with Some x => JS.truthy x | None => false end.

(** The handler of [app.event('message', ...)]: the calls of [postMessage]
    it makes, in order. *)
Definition handler (ev : Event.t) : list Call :=
  if truthyOpt (Event.subtype ev) || negb (truthyOpt (Event.text ev))
     || truthyOpt (Event.bot_id ev)
  then []
  else if match LOCK_CHANNEL (config be) with
          | Some lock => JS.truthy lock && negb (String.eqb (Event.channel ev) lock)
          | None => false
          end
  then []
  else
    let matches :=
      orderMatches (match Event.text ev with Some s => s | None => EmptyString end) in
    match matches with
    | [] => []
    | _ =>
        match forEachMatch ev 0 matches [] with
        | (calls, None) => calls
        | (calls, Some err) =>
            (* catch (err): one apology, whose own failure is swallowed *)
            fst (postMessage (apologyMessage ev) calls)
        end
    end.

End Dispatcher.

(** * Vocabulary of the properties *)

(** The detail entries paired with the keys they were added under: [addDetail]
    extends [details] and [detailsAdded] together. *)
Definition keyed (st : Locals.t) : list (string * Detail) :=
  combine (Locals.detailsAdded st) (Locals.details st).

(** The calls of [addDetail] that occur in the rules: key, label and the
    attribute passed as value. *)
Definition requestsOf (mf : Mf.t) : list (string * Detail) :=
  [ ("invoice", {| label := "Invoiced With"; value := Mf.invoice mf |});
    ("followUpNotes", {| label := "Follow-Up Notes"; value := Mf.followUpNotes mf |});
    ("weeks", {| label := "Weeks Since Order"; value := Mf.weeks mf |});
    ("arrangedWith", {| label := "Arranged With"; value := Mf.arrangedWith mf |});
    ("arrangedWith", {| label := "Arranged/Reserved With"; value := Mf.arrangedWith mf |});
    ("returnNotes", {| label := "Return Notes"; value := Mf.returnNotes mf |}) ].

(** The key a label is added under in the rules. *)
Definition keyOfLabel (l : string) : string :=
  if String.eqb l "Invoiced With" then "invoice"
  else if String.eqb l "Follow-Up Notes" then "followUpNotes"
  else if String.eqb l "Weeks Since Order" then "weeks"
  else if String.eqb l "Arranged With" then "arrangedWith"
  else if String.eqb l "Arranged/Reserved With" then "arrangedWith"
  else if String.eqb l "Return Notes" then "returnNotes"
  else EmptyString.

(** Whether a rule other than the fulfillment rule fires. *)
Definition otherRuleFires (mf : Mf.t) : bool :=
  isEq (Mf.arrangeStatus mf) "NEED TO ARRANGE"
  || (isEq (Mf.arrangeStatus mf) "ARRANGED" && negb (isYes (Mf.incoming mf) "INCOMING"))
  || isYes (Mf.incoming mf) "INCOMING"
  || isEq (Mf.readyToContact mf) "READY TO CONTACT"
  || isEq (Mf.readyToContact mf) "CONTACT LATER"
  || isEq (Mf.needsFollowUp mf) "NEEDS FOLLOW-UP"
  || isEq (Mf.reserveIncoming mf) "RESERVED INCOMING INVENTORY"
  || isEq (Mf.owesReturn mf) "OWES RETURN".

(** The line of the fulfillment rule. *)
Definition fulfillmentLine (now : Z) (order : Order) : string :=
  if isFulfilledOrder order
  then fulfilledLine (weeksSince now (mostRecentFulfillmentAt order))
  else notFulfilledLine (Mf.weeks (normalize order)).

(** The lines the later rules contribute, in order. *)
Definition exceptionLines (mf : Mf.t) : list string :=
  (if isEq (Mf.arrangeStatus mf) "NEED TO ARRANGE" then [Text.needToArrange] else [])
  ++ (if isEq (Mf.arrangeStatus mf) "ARRANGED" && negb (isYes (Mf.incoming mf) "INCOMING")
      then [Text.arranged] else [])
  ++ (if isYes (Mf.incoming mf) "INCOMING"
      then [if isEq (Mf.arrangeStatus mf) "ARRANGED"
            then Text.partiallyIncoming else Text.incomingLine]
      else [])
  ++ (if isEq (Mf.readyToContact mf) "READY TO CONTACT" then [Text.readyToContact]
      else if isEq (Mf.readyToContact mf) "CONTACT LATER" then [Text.contactLater]
      else [])
  ++ (if isEq (Mf.needsFollowUp mf) "NEEDS FOLLOW-UP" then [Text.needsFollowUp] else [])
  ++ (if isEq (Mf.reserveIncoming mf) "RESERVED INCOMING INVENTORY" then [Text.reserved] else [])
  ++ (if isEq (Mf.owesReturn mf) "OWES RETURN" then [Text.owesReturn] else []).

(** The custom attributes of an order. *)
Inductive Attr :=
| AWeeks | AArrangeStatus | AArrangedWith | AIncoming | AReserveIncoming
| AReadyToContact | ANeedsFollowUp | AFollowUpNotes | AOwesReturn
| AReturnNotes | AInvoice.

Definition rawOf (a : Attr) (o : Order) : option Metafield :=
  match a with
  | AWeeks => weeksSinceOrder o
  | AArrangeStatus => arrangeStatus o
  | AArrangedWith => arrangedWith o
  | AIncoming => incoming o
  | AReserveIncoming => reserveIncoming o
  | AReadyToContact => readyToContact o
  | ANeedsFollowUp => needsFollowUp o
  | AFollowUpNotes => followUpNotes o
  | AOwesReturn => owesReturn o
  | AReturnNotes => returnNotes o
  | AInvoice => invoicedWith o
  end.

(** Missing, or empty after trimming. *)
Definition isBlank (m : option Metafield) : bool :=
  match m with
  | None => true
  | Some {| mf_value := None |} => true
  | Some {| mf_value := Some s |} => negb (JS.truthy (JS.trim s))
  end.

(** The keys and labels of the detail entries that show an attribute. *)
Definition keysOf (a : Attr) : list string :=
  match a with
  | AWeeks => ["weeks"]
  | AArrangedWith => ["arrangedWith"]
  | AFollowUpNotes => ["followUpNotes"]
  | AReturnNotes => ["returnNotes"]
  | AInvoice => ["invoice"]
  | _ => []
  end.

Definition labelsOf (a : Attr) : list string :=
  match a with
  | AWeeks => ["Weeks Since Order"]
  | AArrangedWith => ["Arranged With"; "Arranged/Reserved With"]
  | AFollowUpNotes => ["Follow-Up Notes"]
  | AReturnNotes => ["Return Notes"]
  | AInvoice => ["Invoiced With"]
  | _ => []
  end.

(** The narrative lines of the rules whose condition requires an enum value
    of the attribute. *)
Definition positiveLines (a : Attr) : list string :=
  match a with
  | AArrangeStatus => [Text.needToArrange; Text.arranged; Text.partiallyIncoming]
  | AIncoming => [Text.partiallyIncoming; Text.incomingLine]
  | AReserveIncoming => [Text.reserved]
  | AReadyToContact => [Text.readyToContact; Text.contactLater]
  | ANeedsFollowUp => [Text.needsFollowUp]
  | AOwesReturn => [Text.owesReturn]
  | _ => []
  end.

Definition isArrangedWithLabel (l : string) : bool :=
  String.eqb l "Arranged With" || String.eqb l "Arranged/Reserved With".

(** An order with nothing set. *)
Definition blankOrder : Order :=
  {| id := None; name := None; createdAt := None;
     displayFulfillmentStatus := None; fulfillments := None; customer := None;
     weeksSinceOrder := None; arrangeStatus := None; arrangedWith := None;
     incoming := None; reserveIncoming := None; readyToContact := None;
     needsFollowUp := None; followUpNotes := None; owesReturn := None;
     returnNotes := None; invoicedWith := None |}.

Definition someConfig : Config :=
  {| SHOPIFY_DOMAIN := "shop.example"; LOCK_CHANNEL := None |}.

(** U+00A0, the no-break space, and U+0131, the dotless i, in UTF-8. *)
Definition noBreakSpace : string :=
  String (ascii_of_nat 194) (String (ascii_of_nat 160) EmptyString).

Definition dotlessI : string :=
  String (ascii_of_nat 196) (String (ascii_of_nat 177) EmptyString).

(** An order that needs a follow-up and whose notes hold white space only. *)
Definition blankNotesOrder : Order :=
  {| id := Some "gid://shopify/Order/77"; name := Some "C#7777"; createdAt := None;
     displayFulfillmentStatus := Some "UNFULFILLED"; fulfillments := Some [];
     customer := None; weeksSinceOrder := None; arrangeStatus := None;
     arrangedWith := None; incoming := None; reserveIncoming := None;
     readyToContact := None;
     needsFollowUp := Some {| mf_value := Some ("Needs Follow-Up" ++ noBreakSpace)%string |};
     followUpNotes := Some {| mf_value := Some (" " ++ noBreakSpace ++ " ")%string |};
     owesReturn := None; returnNotes := None; invoicedWith := None |}.

(** ** The rule engine: details *)

(** The invariant of the locals: details and keys go together, no key is
    used twice, and every entry comes from a call of the rules with a
    non-empty value. *)
Record Inv (mf : Mf.t) (st : Locals.t) : Prop := {
  inv_length : List.length (Locals.details st) = List.length (Locals.detailsAdded st);
  inv_nodup : NoDup (Locals.detailsAdded st);
  inv_requests :
    Forall (fun kd => In kd (requestsOf mf) /\ JS.truthy (value (snd kd)) = true)
           (keyed st)
}.

(** [Reach R st st']: [st'] comes from [st] by pushes of lines and calls of
    [addDetail] taken from [R]. *)
Inductive Reach (R : list (string * Detail)) (st : Locals.t) : Locals.t -> Prop :=
| reach_refl : Reach R st st
| reach_push st' line : Reach R st st' -> Reach R st (push line st')
| reach_add st' k l v :
    In (k, {| label := l; value := v |}) R ->
    Reach R st st' -> Reach R st (addDetail k l v st').

(** The calls of the first two rules. *)
Definition earlyRequests (mf : Mf.t) : list (string * Detail) :=
  [ ("invoice", {| label := "Invoiced With"; value := Mf.invoice mf |});
    ("followUpNotes", {| label := "Follow-Up Notes"; value := Mf.followUpNotes mf |});
    ("weeks", {| label := "Weeks Since Order"; value := Mf.weeks mf |}) ].

(** The locals from rule 4 on, given the locals after rule 3. *)
Definition lateRules (mf : Mf.t) (f : bool) (st : Locals.t) : Locals.t :=
  st |> ruleIncoming mf f
     |> ruleReadyToContact mf
     |> ruleNeedsFollowUp mf
     |> ruleReserved mf
     |> ruleOwesReturn mf
     |> fallback.

(** The locals after the first two rules. *)
Definition earlyRules (mf : Mf.t) (f : bool) (now : Z) (at_ : option Z) : Locals.t :=
  Locals.empty
    |> ruleFulfillment mf f now at_
    |> ruleNeedToArrange mf f.

(** The normalized value of an attribute. *)
Definition normOf (a : Attr) (mf : Mf.t) : string :=
  match a with
  | AWeeks => Mf.weeks mf
  | AArrangeStatus => Mf.arrangeStatus mf
  | AArrangedWith => Mf.arrangedWith mf
  | AIncoming => Mf.incoming mf
  | AReserveIncoming => Mf.reserveIncoming mf
  | AReadyToContact => Mf.readyToContact mf
  | ANeedsFollowUp => Mf.needsFollowUp mf
  | AFollowUpNotes => Mf.followUpNotes mf
  | AOwesReturn => Mf.owesReturn mf
  | AReturnNotes => Mf.returnNotes mf
  | AInvoice => Mf.invoice mf
  end.

Definition ruleLines : list string :=
  [Text.needToArrange; Text.arranged; Text.partiallyIncoming; Text.incomingLine;
   Text.readyToContact; Text.contactLater; Text.needsFollowUp; Text.reserved;
   Text.owesReturn].

(** An order that is arranged, reserved and not incoming. *)
Definition arrangedReservedOrder : Order :=
  {| id := Some "gid://shopify/Order/123"; name := Some "C#1234"; createdAt := None;
     displayFulfillmentStatus := Some "UNFULFILLED"; fulfillments := Some [];
     customer := None;
     weeksSinceOrder := Some {| mf_value := Some "12.3" |};
     arrangeStatus := Some {| mf_value := Some "Arranged" |};
     arrangedWith := Some {| mf_value := Some "ACME" |};
     incoming := Some {| mf_value := Some "Not Yet" |};
     reserveIncoming := Some {| mf_value := Some "Reserved Incoming Inventory" |};
     readyToContact := None; needsFollowUp := None; followUpNotes := None;
     owesReturn := None; returnNotes := None; invoicedWith := None |}.

(** The calls of [addDetail] that [analyzeOrder] makes, rule by rule in the
    order of the source, for the normalized attributes [mf] of an order that is
    fulfilled or not ([f]). *)
Definition detailRequests (mf : Mf.t) (f : bool) : list (string * Detail) :=
  let invoice := ("invoice", {| label := "Invoiced With"; value := Mf.invoice mf |}) in
  let notes :=
    ("followUpNotes", {| label := "Follow-Up Notes"; value := Mf.followUpNotes mf |}) in
  let weeks := ("weeks", {| label := "Weeks Since Order"; value := Mf.weeks mf |}) in
  let weeksIfOpen := if f then [] else [weeks] in
  (if f then [invoice] else [])
  ++ (if isEq (Mf.arrangeStatus mf) "NEED TO ARRANGE" then notes :: weeksIfOpen else [])
  ++ (if isEq (Mf.arrangeStatus mf) "ARRANGED" && negb (isYes (Mf.incoming mf) "INCOMING")
      then ("arrangedWith",
            {| label := "Arranged With"; value := Mf.arrangedWith mf |}) :: weeksIfOpen
      else [])
  ++ (if isYes (Mf.incoming mf) "INCOMING"
      then (if isEq (Mf.arrangeStatus mf) "ARRANGED" then [notes] else [])
           ++ invoice :: weeksIfOpen
      else [])
  ++ (if isEq (Mf.readyToContact mf) "READY TO CONTACT" then [invoice]
      else if isEq (Mf.readyToContact mf) "CONTACT LATER" then [weeks; invoice]
      else [])
  ++ (if isEq (Mf.needsFollowUp mf) "NEEDS FOLLOW-UP" then [notes] else [])
  ++ (if isEq (Mf.reserveIncoming mf) "RESERVED INCOMING INVENTORY"
      then [("arrangedWith",
             {| label := "Arranged/Reserved With"; value := Mf.arrangedWith mf |})]
      else [])
  ++ (if isEq (Mf.owesReturn mf) "OWES RETURN"
      then [("returnNotes", {| label := "Return Notes"; value := Mf.returnNotes mf |})]
      else []).

(** First writer wins: each request is kept unless an earlier one has its
    key. *)
Fixpoint firstByKey (rs : list (string * Detail)) : list (string * Detail) :=
  match rs with
  | [] => []
  | r :: rest =>
      r :: filter (fun r' => negb (String.eqb (fst r') (fst r))) (firstByKey rest)
  end.

(** The requests that carry a value, the first one of each key. *)
Definition firstRequests (rs : list (string * Detail)) : list (string * Detail) :=
  firstByKey (filter (fun r => JS.truthy (value (snd r))) rs).

(** The calls [rs] of [addDetail], made in order. *)
Definition applyRequests (rs : list (string * Detail)) (st : Locals.t) : Locals.t :=
  fold_left (fun s r => addDetail (fst r) (label (snd r)) (value (snd r)) s) rs st.

(** The locals without the narrative. *)
Definition noBlurb (st : Locals.t) : Locals.t :=
  {| Locals.blurb := [];
     Locals.details := Locals.details st;
     Locals.detailsAdded := Locals.detailsAdded st |}.

(** An order on which three rules ask for the follow-up notes or the weeks:
    it still needs arranging, needs a follow-up and is marked contact
    later. *)
Definition followUpOrder : Order :=
  {| id := Some "gid://shopify/Order/55"; name := Some "C#5555"; createdAt := None;
     displayFulfillmentStatus := Some "UNFULFILLED"; fulfillments := Some [];
     customer := None;
     weeksSinceOrder := Some {| mf_value := Some "4.5" |};
     arrangeStatus := Some {| mf_value := Some "Need to Arrange" |};
     arrangedWith := None; incoming := None; reserveIncoming := None;
     readyToContact := Some {| mf_value := Some "Contact Later" |};
     needsFollowUp := Some {| mf_value := Some "Needs Follow-Up" |};
     followUpNotes := Some {| mf_value := Some "call the supplier" |};
     owesReturn := None; returnNotes := None;
     invoicedWith := Some {| mf_value := Some "INV-9" |} |}.

(** ** The formatter: chunks of fields *)

(** The fields of the blocks that hold fields, block by block. *)
Definition fieldBlocks (bs : list Block) : list (list TextObject) :=
  flat_map (fun b => match b with sectionFields fs => [fs] | _ => [] end) bs.

(** ** Elapsed weeks *)

(** The nearest integer, a tie going away from zero. *)
Definition roundHalfAway (x : Q) : Z :=
  if Qle_bool 0 x then Qfloor (x + (1 # 2))%Q else (- Qfloor (- x + (1 # 2))%Q)%Z.

(** Rounding to one decimal place, half away from zero. *)
Definition roundTo1Decimal (x : Q) : Q :=
  (inject_Z (roundHalfAway (x * 10)%Q) / 10)%Q.

(** The elapsed weeks before rounding. *)
Definition elapsedWeeks (now dt : Z) : Q :=
  (inject_Z (now - dt) / inject_Z WEEK_MS)%Q.

(** The argument of [Math.round] in [weeksSince], evaluated in binary64 as
    the source does, for an elapsed time that is exact in binary64. *)
Definition tenthsBinary64 (ms : float) : float :=
  (ms / 604800000 * 10)%float.

(** The elapsed times for which the binary64 arithmetic of the source gives
    the value of the exact arithmetic: up to 2^51 ms, about 71,000 years.
    There the tenths are below 2^26 and their binary64 value is within
    2^-26 of the exact one, less than the distance 1/60480000 from a value
    that is no tie to the nearest tie, and a tie is computed exactly. *)
Definition elapsedBound : Z := (2 ^ 51)%Z.

(** An integer below 2^53 in magnitude as the binary64 number that holds
    it. *)
Definition binary64OfZ (z : Z) : float :=
  if (z <? 0)%Z then (- PrimFloat.of_uint63 (Uint63.of_Z (- z)))%float
  else PrimFloat.of_uint63 (Uint63.of_Z z).

(** The exact value of a finite binary64 number. *)
Definition valueOfBinary64 (y : float) : Q :=
  match Prim2SF y with
  | S754_finite s m e =>
      let v := if (0 <=? e)%Z then inject_Z (Zpos m * 2 ^ e)
               else Qmake (Zpos m) (Z.to_pos (2 ^ (- e))) in
      if s then (- v)%Q else v
  | _ => 0%Q
  end.

(** The tenths of a week [Math.round] returns, computed in binary64 as the
    source does and computed exactly. *)
Definition roundedTenthsBinary64 (ms : Z) : Z :=
  Math_round (valueOfBinary64 (tenthsBinary64 (binary64OfZ ms))).

Definition roundedTenths (ms : Z) : Z :=
  Math_round (inject_Z ms / inject_Z WEEK_MS * 10)%Q.

(** Elapsed times at the ties of the rounding and 1 ms to each side of them,
    on both sides of zero, up to [elapsedBound]. *)
Definition tieSamples : list Z :=
  flat_map
    (fun j =>
       let tie := (60480000 * (Z.of_nat j * 9293) + 30240000)%Z in
       [tie - 1; tie; tie + 1; - tie - 1; - tie; - tie + 1]%Z)
    (seq 0 4000).

(** ** The fetcher: outcomes *)

Definition raises {A : Type} (o : Outcome A) : Prop :=
  match o with Raised _ => True | Returned _ => False end.

(** The transport returned a non-success status. *)
Definition nonSuccess (t : Transport) : Prop :=
  match t with Responded r => ok r = false | Rejected => False end.

Definition bodyOf (t : Transport) : option JSON :=
  match t with Responded r => json r | Rejected => None end.

(** The error entries of a value: the items of its [errors] array. *)
Definition errorEntries (v : option JSON) : list JSON :=
  match v with
  | Some (JObj ms) =>
      match Json.assoc "errors" ms with
      | Some (JArr es) => es
      | _ => []
      end
  | _ => []
  end.

(** The body has error entries at top level or under [data]. *)
Definition hasErrorEntries (t : Transport) : Prop :=
  errorEntries (bodyOf t) <> [] \/ errorEntries (Json.opt (bodyOf t) "data") <> [].

(** The body cannot be read: it is not JSON, or it is null. *)
Definition unreadableBody (t : Transport) : Prop :=
  match t with
  | Responded r => json r = None \/ json r = Some JNull
  | Rejected => False
  end.

(** The [errors] member of a value has a truthy [length]. *)
Definition hasErrors (v : option JSON) : Prop :=
  Json.truthy (Json.opt (Json.opt v "errors") "length") = true.

(** The node of the first edge of [data.orders.edges]. *)
Definition firstEdgeNode (body : option JSON) : option JSON :=
  Json.opt (Json.opt0 (Json.opt (Json.opt (Json.opt body "data") "orders") "edges")) "node".

(** A response body of the shape the query asks for. *)
Definition envelope (edges : list JSON) : JSON :=
  JObj [("data", JObj [("orders", JObj [("edges", JArr edges)])])].

Definition edge (node : JSON) : JSON := JObj [("node", node)].

Definition okResponse (body : JSON) : Transport :=
  Responded {| ok := true; status := 200; json := Some body |}.

Definition someBackend : Backend :=
  {| SHOPIFY_TOKEN := "shpat_token"; SHOPIFY_VERSION := "2025-10";
     config := someConfig |}.

(** ** The identifier pattern *)

(** One attempt of [ORDER_REGEX], written out: the length of the match at the
    head of [s] when the character before is [prev]. *)
Definition tokenLen (prev : option ascii) (s : list ascii) : option nat :=
  match s with
  | c :: h :: d1 :: d2 :: d3 :: d4 :: r =>
      if negb (Regex.isWordAt prev) && Ascii.eqb "C" c && Ascii.eqb "#" h
         && Regex.isDigit d1 && Regex.isDigit d2 && Regex.isDigit d3
         && Regex.isDigit d4
      then
        match r with
        | [] => Some 6
        | d5 :: r' =>
            if Regex.isDigit d5
            then if Regex.isWordAt (hd_error r') then None else Some 7
            else if Regex.isWordChar d5 then None else Some 6
        end
      else None
  | _ => None
  end.

(** A token: the letter, the marker, and four or five decimal digits. *)
Definition isToken (m : list ascii) : Prop :=
  exists ds,
    m = "C"%char :: "#"%char :: ds
    /\ forallb Regex.isDigit ds = true
    /\ (List.length ds = 4 \/ List.length ds = 5).

(** [m] occurs in [s] at index [i]. *)
Definition occursAt (s : list ascii) (i : nat) (m : list ascii) : Prop :=
  exists pre post, s = pre ++ m ++ post /\ List.length pre = i.

(** The last character of [pre], or [prev] when [pre] is empty. *)
Fixpoint lastOr (prev : option ascii) (pre : list ascii) : option ascii :=
  match pre with
  | [] => prev
  | x :: pre' => lastOr (Some x) pre'
  end.

(** A token at index [i] of [s] with no word character next to it on either
    side. *)
Definition delimitedAt (s : list ascii) (i : nat) (m : list ascii) : Prop :=
  exists pre post,
    s = pre ++ m ++ post
    /\ List.length pre = i
    /\ isToken m
    /\ Regex.isWordAt (lastOr None pre) = false
    /\ Regex.isWordAt (hd_error post) = false.

(** The character before index [j] of [s]. *)
Fixpoint prevAt (prev : option ascii) (s : list ascii) (j : nat) {struct j}
  : option ascii :=
  match j, s with
  | 0, _ => prev
  | S j', c :: s' => prevAt (Some c) s' j'
  | S _, [] => None
  end.

(** None of the first [k] characters of [s] is the letter of a token. *)
Definition nonC (k : nat) (s : list ascii) : Prop :=
  forall j, j < k -> nth_error s j <> Some "C"%char.

(** ** The dispatcher: one apology per message *)

(** The event is dropped before any lookup. *)
Definition ignored (be : Backend) (ev : Event.t) : bool :=
  (truthyOpt (Event.subtype ev) || negb (truthyOpt (Event.text ev))
   || truthyOpt (Event.bot_id ev))
  || match LOCK_CHANNEL (config be) with
     | Some lock => JS.truthy lock && negb (String.eqb (Event.channel ev) lock)
     | None => false
     end.

Definition textOf (ev : Event.t) : string :=
  match Event.text ev with Some s => s | None => EmptyString end.

Definition apologyCall (w : World) (ev : Event.t) (calls : list Call) : Call :=
  {| message := apologyMessage ev;
     delivered := negb (postRejects w (List.length calls)) |}.

(** A message with two identifiers, met by a backend whose first call fails. *)
Definition twoIdentifiers : Event.t :=
  {| Event.subtype := None; Event.text := Some "C#1234 C#5678";
     Event.bot_id := None; Event.channel := "C0123"; Event.ts := "1730700000.000100" |}.

Definition failingWorld : World :=
  {| fetch := fun _ _ => Rejected; clock := fun _ => 0%Z; postRejects := fun _ => false |}.

(** ** Helpers: the latest fulfillment and the admin link *)

(** The timestamps the fulfillment events of an order carry. *)
Definition fulfillmentTimes (o : Order) : list Z :=
  filterBoolean
    (map f_createdAt (match fulfillments o with Some l => l | None => [] end)).

(** No character of [s] is [sep]. *)
Fixpoint without (sep : ascii) (s : string) : Prop :=
  match s with
  | EmptyString => True
  | String c s' => c <> sep /\ without sep s'
  end.

(** ** The rule engine: which lines and details can appear *)

(** The line of each later rule with the condition under which the rule
    pushes it. *)
Definition lineConditions (mf : Mf.t) : list (string * bool) :=
  [ (Text.needToArrange, isEq (Mf.arrangeStatus mf) "NEED TO ARRANGE");
    (Text.arranged,
     isEq (Mf.arrangeStatus mf) "ARRANGED" && negb (isYes (Mf.incoming mf) "INCOMING"));
    (Text.partiallyIncoming,
     isYes (Mf.incoming mf) "INCOMING" && isEq (Mf.arrangeStatus mf) "ARRANGED");
    (Text.incomingLine,
     isYes (Mf.incoming mf) "INCOMING" && negb (isEq (Mf.arrangeStatus mf) "ARRANGED"));
    (Text.readyToContact, isEq (Mf.readyToContact mf) "READY TO CONTACT");
    (Text.contactLater,
     negb (isEq (Mf.readyToContact mf) "READY TO CONTACT")
     && isEq (Mf.readyToContact mf) "CONTACT LATER");
    (Text.needsFollowUp, isEq (Mf.needsFollowUp mf) "NEEDS FOLLOW-UP");
    (Text.reserved, isEq (Mf.reserveIncoming mf) "RESERVED INCOMING INVENTORY");
    (Text.owesReturn, isEq (Mf.owesReturn mf) "OWES RETURN") ].

(** The keys [addDetail] is called with. *)
Definition detailKeys : list string :=
  ["invoice"; "followUpNotes"; "weeks"; "arrangedWith"; "returnNotes"].

(** The calls of [addDetail] that a fulfilled order can reach when it is not
    marked CONTACT LATER. *)
Definition requestsWithoutWeeks (mf : Mf.t) : list (string * Detail) :=
  [ ("invoice", {| label := "Invoiced With"; value := Mf.invoice mf |});
    ("followUpNotes", {| label := "Follow-Up Notes"; value := Mf.followUpNotes mf |});
    ("arrangedWith", {| label := "Arranged With"; value := Mf.arrangedWith mf |});
    ("arrangedWith", {| label := "Arranged/Reserved With"; value := Mf.arrangedWith mf |});
    ("returnNotes", {| label := "Return Notes"; value := Mf.returnNotes mf |}) ].

(** The blocks of the reply for an analysis with details [ds]. *)
Definition blocksFor (r : AnalysisResult) : list Block :=
  [header (plain_text (headerText r));
   divider;
   section (mrkdwn (JS.join Text.nl (blurbLines r)))]
  ++ match details r with
     | [] => []
     | ds => [divider; sectionFields (map fieldOf ds)]
     end
  ++ [context [mrkdwn (JS.join Text.footerSep (footer r))]].

(** A fulfilled order that still needs arranging and is ready to contact. *)
Definition fulfilledNeedsArranging : Order :=
  {| id := Some "gid://shopify/Order/8"; name := Some "C#0008"; createdAt := None;
     displayFulfillmentStatus := Some "fulfilled"; fulfillments := Some [];
     customer := None;
     weeksSinceOrder := Some {| mf_value := Some "3" |};
     arrangeStatus := Some {| mf_value := Some "Need to Arrange" |};
     arrangedWith := None; incoming := None; reserveIncoming := None;
     readyToContact := Some {| mf_value := Some "Ready to Contact" |};
     needsFollowUp := None;
     followUpNotes := Some {| mf_value := Some "waiting for a quote" |};
     owesReturn := None; returnNotes := None; invoicedWith := None |}.

(** A fulfilled order whose fulfillment events carry no timestamp. *)
Definition fulfilledNoDates : Order :=
  {| id := Some "gid://shopify/Order/7"; name := Some "C#0007"; createdAt := None;
     displayFulfillmentStatus := Some "Fulfilled";
     fulfillments := Some [{| f_createdAt := None; f_status := "SUCCESS" |}];
     customer := None;
     weeksSinceOrder := Some {| mf_value := Some "3.1" |};
     arrangeStatus := None; arrangedWith := None; incoming := None;
     reserveIncoming := None; readyToContact := None; needsFollowUp := None;
     followUpNotes := None; owesReturn := None; returnNotes := None;
     invoicedWith := None |}.

(** ** The fetcher: responses of the shape of a GraphQL answer *)

(** The [errors] member of a value is missing, null or an array. *)
Definition errorsWellFormed (v : option JSON) : Prop :=
  match Json.opt v "errors" with
  | None | Some JNull | Some (JArr _) => True
  | _ => False
  end.

(** ** The dispatcher: the replies of a run without failure *)

(** An answer at the types of the GraphQL projection: a member is missing or
    null where the schema allows it, and otherwise of its type. *)
Definition nullOr (p : JSON -> bool) (v : option JSON) : bool :=
  match v with
  | None | Some JNull => true
  | Some x => p x
  end.

Definition isStr (v : JSON) : bool :=
  match v with JStr _ => true | _ => false end.

Definition typedMember (k : string) (v : JSON) : bool :=
  match v with
  | JObj ms => nullOr isStr (Json.assoc k ms)
  | _ => false
  end.

Definition typedFulfillments (v : JSON) : bool :=
  match v with
  | JArr items => forallb (typedMember "createdAt") items
  | _ => false
  end.

Definition metafieldNames : list string :=
  ["weeksSinceOrder"; "arrangeStatus"; "arrangedWith"; "incoming"; "reserveIncoming";
   "readyToContact"; "needsFollowUp"; "followUpNotes"; "owesReturn"; "returnNotes";
   "invoicedWith"].

Definition typedOrder (node : JSON) : bool :=
  match node with
  | JObj ms =>
      nullOr isStr (Json.assoc "id" ms)
      && match Json.assoc "name" ms with Some (JStr _) => true | _ => false end
      && nullOr isStr (Json.assoc "createdAt" ms)
      && nullOr isStr (Json.assoc "displayFulfillmentStatus" ms)
      && nullOr typedFulfillments (Json.assoc "fulfillments" ms)
      && nullOr (typedMember "displayName") (Json.assoc "customer" ms)
      && forallb (fun k => nullOr (typedMember "value") (Json.assoc k ms)) metafieldNames
  | _ => false
  end.

(** Every order the backend returns is at the types of the projection. *)
Definition typedAnswers (be : Backend) (w : World) : Prop :=
  forall j orderName node,
    getOrderByName be (fetch w j) orderName = Returned (Some node) ->
    Json.truthy (Some node) = true ->
    typedOrder node = true.

(** The reply to the i-th identifier. *)
Definition replyTo (timeValue : string -> Z) (be : Backend) (w : World)
           (ev : Event.t) (i : nat) (orderName : string) : Message.t :=
  match getOrderByName be (fetch w i) orderName with
  | Returned (Some node) =>
      if Json.truthy (Some node)
      then summaryMessage ev
             (analyzeOrder (config be) (clock w i) (decodeOrder timeValue node)) node
      else notFoundMessage ev orderName
  | _ => notFoundMessage ev orderName
  end.

(** The replies to the identifiers [names], the first of which is the i-th. *)
Fixpoint repliesFrom (timeValue : string -> Z) (be : Backend) (w : World)
         (ev : Event.t) (i : nat) (names : list string) : list Call :=
  match names with
  | [] => []
  | orderName :: rest =>
      {| message := replyTo timeValue be w ev i orderName; delivered := true |}
      :: repliesFrom timeValue be w ev (S i) rest
  end.

(** A message with two identifiers in a world where the backend knows the
    first one only and nothing fails. *)
Definition knownOrder : JSON :=
  JObj [("id", JStr "gid://shopify/Order/123"); ("name", JStr "C#1234");
        ("displayFulfillmentStatus", JStr "UNFULFILLED")].

Definition quietWorld : World :=
  {| fetch := fun i _ =>
       match i with
       | 0 => okResponse (envelope [edge knownOrder])
       | _ => okResponse (envelope [])
       end;
     clock := fun _ => 0%Z;
     postRejects := fun _ => false |}.


(** ** The rule engine: the return notes *)

(** The calls of [addDetail] of the rules before the last one. *)
Definition requestsBeforeReturn (mf : Mf.t) : list (string * Detail) :=
  [ ("invoice", {| label := "Invoiced With"; value := Mf.invoice mf |});
    ("followUpNotes", {| label := "Follow-Up Notes"; value := Mf.followUpNotes mf |});
    ("weeks", {| label := "Weeks Since Order"; value := Mf.weeks mf |});
    ("arrangedWith", {| label := "Arranged With"; value := Mf.arrangedWith mf |});
    ("arrangedWith", {| label := "Arranged/Reserved With"; value := Mf.arrangedWith mf |}) ].

(** The locals before the last rule. *)
Definition beforeOwesReturn (now : Z) (o : Order) : Locals.t :=
  let mf := normalize o in
  let isFulfilled := isFulfilledOrder o in
  Locals.empty
    |> ruleFulfillment mf isFulfilled now (mostRecentFulfillmentAt o)
    |> ruleNeedToArrange mf isFulfilled
    |> ruleArranged mf isFulfilled
    |> ruleIncoming mf isFulfilled
    |> ruleReadyToContact mf
    |> ruleNeedsFollowUp mf
    |> ruleReserved mf.

(** An order that owes a return, with notes. *)
Definition owesReturnOrder : Order :=
  {| id := Some "gid://shopify/Order/9"; name := Some "C#0009"; createdAt := None;
     displayFulfillmentStatus := Some "FULFILLED"; fulfillments := Some [];
     customer := None; weeksSinceOrder := None; arrangeStatus := None;
     arrangedWith := None; incoming := None; reserveIncoming := None;
     readyToContact := None; needsFollowUp := None; followUpNotes := None;
     owesReturn := Some {| mf_value := Some "owes return" |};
     returnNotes := Some {| mf_value := Some " wrong size " |};
     invoicedWith := None |}.

(** * Properties *)

(** ** String primitives *)

(** White space beyond the ASCII range is trimmed, so a value of no-break
    spaces only is blank. *)
Lemma trim_unicode_white_space :
  JS.trim (noBreakSpace ++ " ACME" ++ noBreakSpace)%string = "ACME"
  /\ JS.trim (" Incoming" ++ noBreakSpace)%string = "Incoming"
  /\ JS.trim noBreakSpace = EmptyString
  /\ val (Some {| mf_value := Some noBreakSpace |}) "fallback" = "fallback".
Proof. vm_compute. repeat split; reflexivity. Qed.

(** Upper-casing maps characters beyond a-z. *)
Lemma toUpperCase_beyond_ascii :
  JS.toUpperCase (dotlessI ++ "ncoming")%string = "INCOMING"
  /\ isEq dotlessI "I" = true
  /\ isYes (JS.toUpperCase (val (Some {| mf_value :=
                                           Some ("Incoming" ++ noBreakSpace)%string |})
                                 EmptyString)) "INCOMING" = true.
Proof. vm_compute. repeat split; reflexivity. Qed.

(** ** The rule engine: narrative *)

Lemma blurb_addDetail k l v st :
  Locals.blurb (addDetail k l v st) = Locals.blurb st.
Proof.
  unfold addDetail.
  destruct (negb (JS.truthy v)); [reflexivity|].
  destruct (has (Locals.detailsAdded st) k); reflexivity.
Qed.

Lemma blurb_when c f st :
  (forall s, Locals.blurb (f s) = Locals.blurb s) ->
  Locals.blurb (when c f st) = Locals.blurb st.
Proof. intros Hf. destruct c; simpl; auto. Qed.

Lemma blurb_push line st :
  Locals.blurb (push line st) = Locals.blurb st ++ [line].
Proof. reflexivity. Qed.

Ltac blurb_simpl :=
  repeat first
    [ rewrite blurb_addDetail
    | rewrite blurb_when by (intros; apply blurb_addDetail)
    | rewrite blurb_push ].

Ltac blurb_rule :=
  intros;
  repeat match goal with
         | |- context [if ?c then _ else _] => destruct c
         end;
  cbn beta iota; blurb_simpl;
  rewrite ?app_nil_r; reflexivity.

Lemma blurb_ruleFulfillment mf f now at_ st :
  Locals.blurb (ruleFulfillment mf f now at_ st)
  = Locals.blurb st
    ++ [if f then fulfilledLine (weeksSince now at_) else notFulfilledLine (Mf.weeks mf)].
Proof. unfold ruleFulfillment. blurb_rule. Qed.

Lemma blurb_ruleNeedToArrange mf f st :
  Locals.blurb (ruleNeedToArrange mf f st)
  = Locals.blurb st
    ++ (if isEq (Mf.arrangeStatus mf) "NEED TO ARRANGE" then [Text.needToArrange] else []).
Proof. unfold ruleNeedToArrange. blurb_rule. Qed.

Lemma blurb_ruleArranged mf f st :
  Locals.blurb (ruleArranged mf f st)
  = Locals.blurb st
    ++ (if isEq (Mf.arrangeStatus mf) "ARRANGED" && negb (isYes (Mf.incoming mf) "INCOMING")
        then [Text.arranged] else []).
Proof. unfold ruleArranged. blurb_rule. Qed.

Lemma blurb_ruleIncoming mf f st :
  Locals.blurb (ruleIncoming mf f st)
  = Locals.blurb st
    ++ (if isYes (Mf.incoming mf) "INCOMING"
        then [if isEq (Mf.arrangeStatus mf) "ARRANGED"
              then Text.partiallyIncoming else Text.incomingLine]
        else []).
Proof. unfold ruleIncoming. blurb_rule. Qed.

Lemma blurb_ruleReadyToContact mf st :
  Locals.blurb (ruleReadyToContact mf st)
  = Locals.blurb st
    ++ (if isEq (Mf.readyToContact mf) "READY TO CONTACT" then [Text.readyToContact]
        else if isEq (Mf.readyToContact mf) "CONTACT LATER" then [Text.contactLater]
        else []).
Proof. unfold ruleReadyToContact. blurb_rule. Qed.

Lemma blurb_ruleNeedsFollowUp mf st :
  Locals.blurb (ruleNeedsFollowUp mf st)
  = Locals.blurb st
    ++ (if isEq (Mf.needsFollowUp mf) "NEEDS FOLLOW-UP" then [Text.needsFollowUp] else []).
Proof. unfold ruleNeedsFollowUp. blurb_rule. Qed.

Lemma blurb_ruleReserved mf st :
  Locals.blurb (ruleReserved mf st)
  = Locals.blurb st
    ++ (if isEq (Mf.reserveIncoming mf) "RESERVED INCOMING INVENTORY"
        then [Text.reserved] else []).
Proof. unfold ruleReserved. blurb_rule. Qed.

Lemma blurb_ruleOwesReturn mf st :
  Locals.blurb (ruleOwesReturn mf st)
  = Locals.blurb st
    ++ (if isEq (Mf.owesReturn mf) "OWES RETURN" then [Text.owesReturn] else []).
Proof. unfold ruleOwesReturn. blurb_rule. Qed.

Lemma fallback_nonempty st :
  Locals.blurb st <> [] -> fallback st = st.
Proof.
  unfold fallback. destruct (Locals.blurb st); [congruence | reflexivity].
Qed.

(** The narrative is the fulfillment line followed by the lines of the rules
    that fire; the fallback never adds to it. *)
Lemma blurb_analyzeLocals now o :
  Locals.blurb (analyzeLocals now o)
  = fulfillmentLine now o :: exceptionLines (normalize o).
Proof.
  unfold analyzeLocals.
  rewrite fallback_nonempty.
  - rewrite blurb_ruleOwesReturn, blurb_ruleReserved, blurb_ruleNeedsFollowUp,
      blurb_ruleReadyToContact, blurb_ruleIncoming, blurb_ruleArranged,
      blurb_ruleNeedToArrange, blurb_ruleFulfillment.
    unfold exceptionLines, fulfillmentLine. cbn [Locals.blurb Locals.empty app].
    rewrite <- !app_assoc. reflexivity.
  - rewrite blurb_ruleOwesReturn, blurb_ruleReserved, blurb_ruleNeedsFollowUp,
      blurb_ruleReadyToContact, blurb_ruleIncoming, blurb_ruleArranged,
      blurb_ruleNeedToArrange, blurb_ruleFulfillment.
    cbn [Locals.blurb Locals.empty app].
    rewrite <- !app_assoc. cbn [app]. discriminate.
Qed.

Lemma fulfillmentLine_not_sentinel now o :
  fulfillmentLine now o <> Text.noExceptions.
Proof.
  unfold fulfillmentLine, fulfilledLine, notFulfilledLine.
  destruct (isFulfilledOrder o); cbn; intros H; discriminate H.
Qed.

Lemma exceptionLines_none mf :
  otherRuleFires mf = false -> exceptionLines mf = [].
Proof.
  unfold otherRuleFires, exceptionLines. intros H.
  repeat (apply orb_false_elim in H; destruct H as [H ?]).
  repeat match goal with
         | E : _ && _ = false |- _ => rewrite E; clear E
         end.
  repeat match goal with
         | E : _ = false |- _ => rewrite E; clear E
         end.
  reflexivity.
Qed.

(** C3: for every order the narrative of analyzeOrder has at least one line,
    and its first line is the line of the fulfillment rule: the fulfilled
    line or the not-yet-fulfilled line. *)
Theorem C3_narrative_nonempty (cfg : Config) (now : Z) (o : Order) :
  1 <= List.length (blurbLines (analyzeOrder cfg now o))
  /\ hd_error (blurbLines (analyzeOrder cfg now o))
     = Some (if isFulfilledOrder o
             then fulfilledLine (weeksSince now (mostRecentFulfillmentAt o))
             else notFulfilledLine (Mf.weeks (normalize o))).
Proof.
  cbn [analyzeOrder blurbLines].
  rewrite blurb_analyzeLocals. cbn [List.length hd_error].
  split; [lia | reflexivity].
Qed.

(** C1, as stated, fails: on the order with nothing set the fulfillment rule
    is the only one that fires, and the narrative does not end with the
    sentinel line. *)
Lemma C1_sentinel_counterexample :
  otherRuleFires (normalize blankOrder) = false
  /\ last (blurbLines (analyzeOrder someConfig 0 blankOrder)) EmptyString
     <> Text.noExceptions.
Proof.
  split; [reflexivity|].
  vm_compute. intros H; discriminate H.
Qed.

(** C1, amended: when no rule besides the fulfillment rule fires, the
    narrative is exactly the fulfillment line, which is not the sentinel; the
    sentinel is appended to an empty narrative only. *)
Theorem C1_only_fulfillment_line (cfg : Config) (now : Z) (o : Order) :
  otherRuleFires (normalize o) = false ->
  blurbLines (analyzeOrder cfg now o) = [fulfillmentLine now o]
  /\ ~ In Text.noExceptions (blurbLines (analyzeOrder cfg now o))
  /\ (forall st, Locals.blurb st <> [] -> Locals.blurb (fallback st) = Locals.blurb st)
  /\ Locals.blurb (fallback Locals.empty) = [Text.noExceptions].
Proof.
  intros H. cbn [analyzeOrder blurbLines].
  rewrite blurb_analyzeLocals, (exceptionLines_none _ H).
  repeat split.
  - intros [E | []]. exact (fulfillmentLine_not_sentinel now o E).
  - intros st Hst. now rewrite fallback_nonempty.
Qed.

Lemma C1_only_fulfillment_line_witness :
  otherRuleFires (normalize blankOrder) = false
  /\ blurbLines (analyzeOrder someConfig 0 blankOrder)
     = [fulfillmentLine 0 blankOrder].
Proof.
  split; [reflexivity|].
  exact (proj1 (C1_only_fulfillment_line someConfig 0%Z blankOrder eq_refl)).
Defined.

(** ** The rule engine: details *)

Lemma has_In s k : has s k = true <-> In k s.
Proof.
  unfold has. rewrite existsb_exists. split.
  - intros [x [Hx E]]. apply String.eqb_eq in E. now subst.
  - intros H. exists k. split; [assumption | apply String.eqb_refl].
Qed.

Lemma NoDup_snoc {A : Type} (l : list A) (x : A) :
  NoDup l -> ~ In x l -> NoDup (l ++ [x]).
Proof.
  induction l as [|a l IH]; intros Hnd Hx; cbn.
  - constructor; [intros [] | constructor].
  - inversion Hnd as [|? ? Ha Hl]; subst. constructor.
    + rewrite in_app_iff. intros [H | [H | []]]; [now apply Ha|].
      subst. apply Hx. now left.
    + apply IH; [assumption|]. intros H. apply Hx. now right.
Qed.

Lemma combine_snoc {A B : Type} (l : list A) (l' : list B) (x : A) (y : B) :
  List.length l = List.length l' ->
  combine (l ++ [x]) (l' ++ [y]) = combine l l' ++ [(x, y)].
Proof.
  revert l'. induction l as [|a l IH]; intros [|b l'] E; cbn in *;
    try discriminate; [reflexivity|].
  f_equal. apply IH. now injection E.
Qed.

Lemma map_snd_combine {A B : Type} (l : list A) (l' : list B) :
  List.length l' = List.length l -> map snd (combine l l') = l'.
Proof.
  revert l'. induction l as [|a l IH]; intros [|b l'] E; cbn in *;
    try discriminate; [reflexivity|].
  f_equal. apply IH. now injection E.
Qed.

Lemma map_fst_combine {A B : Type} (l : list A) (l' : list B) :
  List.length l' = List.length l -> map fst (combine l l') = l.
Proof.
  revert l'. induction l as [|a l IH]; intros [|b l'] E; cbn in *;
    try discriminate; [reflexivity|].
  f_equal. apply IH. now injection E.
Qed.

Lemma Reach_trans R st1 st2 st3 :
  Reach R st1 st2 -> Reach R st2 st3 -> Reach R st1 st3.
Proof.
  intros H12 H23. induction H23.
  - assumption.
  - now apply reach_push.
  - now apply reach_add.
Qed.

Lemma Reach_incl R R' st st' :
  incl R R' -> Reach R st st' -> Reach R' st st'.
Proof.
  intros Hi H. induction H.
  - apply reach_refl.
  - now apply reach_push.
  - apply reach_add; [now apply Hi | assumption].
Qed.

Lemma Inv_empty mf : Inv mf Locals.empty.
Proof. constructor; cbn; constructor. Qed.

Lemma Inv_push mf line st : Inv mf st -> Inv mf (push line st).
Proof. intros [H1 H2 H3]. constructor; assumption. Qed.

Lemma Inv_addDetail mf k l v st :
  In (k, {| label := l; value := v |}) (requestsOf mf) ->
  Inv mf st -> Inv mf (addDetail k l v st).
Proof.
  intros Hin Hinv. unfold addDetail.
  destruct (JS.truthy v) eqn:Hv; cbn [negb]; [|assumption].
  destruct (has (Locals.detailsAdded st) k) eqn:Hk; [assumption|].
  destruct Hinv as [H1 H2 H3]. constructor; cbn [Locals.details Locals.detailsAdded].
  - rewrite !length_app. cbn. now rewrite H1.
  - apply NoDup_snoc; [assumption|]. intros Hc. apply has_In in Hc. congruence.
  - unfold keyed in *. cbn [Locals.details Locals.detailsAdded].
    rewrite combine_snoc by (symmetry; assumption).
    apply Forall_app. split; [assumption|].
    constructor; [|constructor]. cbn. auto.
Qed.

Lemma Reach_Inv mf R st st' :
  incl R (requestsOf mf) -> Reach R st st' -> Inv mf st -> Inv mf st'.
Proof.
  intros Hi H Hinv. induction H.
  - assumption.
  - now apply Inv_push.
  - apply Inv_addDetail; [now apply Hi | assumption].
Qed.

(** Entries are never removed or rewritten. *)
Lemma keyed_addDetail_mono k l v st kd :
  List.length (Locals.details st) = List.length (Locals.detailsAdded st) ->
  In kd (keyed st) -> In kd (keyed (addDetail k l v st)).
Proof.
  intros Hlen Hin. unfold addDetail.
  destruct (negb (JS.truthy v)); [assumption|].
  destruct (has (Locals.detailsAdded st) k); [assumption|].
  unfold keyed in *. cbn [Locals.details Locals.detailsAdded].
  rewrite combine_snoc by (symmetry; assumption).
  apply in_or_app. now left.
Qed.

Lemma Reach_keyed_mono mf R st st' kd :
  incl R (requestsOf mf) -> Reach R st st' -> Inv mf st ->
  In kd (keyed st) -> In kd (keyed st').
Proof.
  intros Hi H Hinv Hin. induction H.
  - assumption.
  - exact IHReach.
  - apply keyed_addDetail_mono; [|assumption].
    apply (inv_length mf). now apply (Reach_Inv mf R st).
Qed.

(** A key in use was in use before or is a key of [R]. *)
Lemma Reach_keys R st st' k :
  Reach R st st' ->
  In k (Locals.detailsAdded st') ->
  In k (Locals.detailsAdded st) \/ In k (map fst R).
Proof.
  intros H. induction H; intros Hk.
  - now left.
  - now apply IHReach.
  - unfold addDetail in Hk.
    destruct (negb (JS.truthy v)); [now apply IHReach|].
    destruct (has (Locals.detailsAdded st') k0); [now apply IHReach|].
    cbn [Locals.detailsAdded] in Hk. apply in_app_or in Hk.
    destruct Hk as [Hk | [Hk | []]]; [now apply IHReach|].
    subst. right. change k with (fst (k, {| label := l; value := v |})).
    now apply in_map.
Qed.

Ltac reach_rule :=
  intros;
  unfold when;
  repeat match goal with
         | |- context [if ?c then _ else _] => destruct c
         end;
  repeat first
    [ apply reach_refl
    | apply reach_push
    | apply reach_add; [cbn; auto 10|] ].

Lemma Reach_ruleFulfillment mf f now at_ st :
  Reach (earlyRequests mf) st (ruleFulfillment mf f now at_ st).
Proof. unfold ruleFulfillment. reach_rule. Qed.

Lemma Reach_ruleNeedToArrange mf f st :
  Reach (earlyRequests mf) st (ruleNeedToArrange mf f st).
Proof. unfold ruleNeedToArrange. reach_rule. Qed.

Lemma Reach_ruleArranged mf f st :
  Reach (requestsOf mf) st (ruleArranged mf f st).
Proof. unfold ruleArranged. reach_rule. Qed.

Lemma Reach_ruleIncoming mf f st :
  Reach (requestsOf mf) st (ruleIncoming mf f st).
Proof. unfold ruleIncoming. reach_rule. Qed.

Lemma Reach_ruleReadyToContact mf st :
  Reach (requestsOf mf) st (ruleReadyToContact mf st).
Proof. unfold ruleReadyToContact. reach_rule. Qed.

Lemma Reach_ruleNeedsFollowUp mf st :
  Reach (requestsOf mf) st (ruleNeedsFollowUp mf st).
Proof. unfold ruleNeedsFollowUp. reach_rule. Qed.

Lemma Reach_ruleReserved mf st :
  Reach (requestsOf mf) st (ruleReserved mf st).
Proof. unfold ruleReserved. reach_rule. Qed.

Lemma Reach_ruleOwesReturn mf st :
  Reach (requestsOf mf) st (ruleOwesReturn mf st).
Proof. unfold ruleOwesReturn. reach_rule. Qed.

Lemma Reach_fallback R st : Reach R st (fallback st).
Proof. unfold fallback. reach_rule. Qed.

Lemma earlyRequests_incl mf : incl (earlyRequests mf) (requestsOf mf).
Proof. intros x Hx. cbn in *. intuition. Qed.

Ltac reach_then lem := eapply Reach_trans; [| apply lem].

Lemma Reach_lateRules mf f st : Reach (requestsOf mf) st (lateRules mf f st).
Proof.
  unfold lateRules.
  reach_then Reach_fallback.
  reach_then Reach_ruleOwesReturn.
  reach_then Reach_ruleReserved.
  reach_then Reach_ruleNeedsFollowUp.
  reach_then Reach_ruleReadyToContact.
  apply Reach_ruleIncoming.
Qed.

Lemma Reach_earlyRules mf f now at_ :
  Reach (earlyRequests mf) Locals.empty (earlyRules mf f now at_).
Proof.
  unfold earlyRules.
  reach_then Reach_ruleNeedToArrange.
  apply Reach_ruleFulfillment.
Qed.

Lemma analyzeLocals_split now o :
  analyzeLocals now o
  = lateRules (normalize o) (isFulfilledOrder o)
      (ruleArranged (normalize o) (isFulfilledOrder o)
         (earlyRules (normalize o) (isFulfilledOrder o) now
                     (mostRecentFulfillmentAt o))).
Proof. reflexivity. Qed.

Lemma Reach_analyzeLocals now o :
  Reach (requestsOf (normalize o)) Locals.empty (analyzeLocals now o).
Proof.
  rewrite analyzeLocals_split.
  reach_then Reach_lateRules.
  reach_then Reach_ruleArranged.
  eapply Reach_incl; [apply earlyRequests_incl | apply Reach_earlyRules].
Qed.

Lemma Inv_analyzeLocals now o : Inv (normalize o) (analyzeLocals now o).
Proof.
  eapply Reach_Inv; [apply incl_refl | apply Reach_analyzeLocals | apply Inv_empty].
Qed.

Lemma requests_key mf kd :
  In kd (requestsOf mf) -> keyOfLabel (label (snd kd)) = fst kd.
Proof.
  cbn [requestsOf In]. intros H.
  repeat (destruct H as [H | H]; [subst kd; reflexivity|]).
  contradiction.
Qed.

Lemma keys_from_entries {A B : Type} (g : B -> A) (ks : list A) (ds : list B) :
  List.length ds = List.length ks ->
  Forall (fun kd => g (snd kd) = fst kd) (combine ks ds) ->
  map g ds = ks.
Proof.
  revert ds. induction ks as [|k ks IH]; intros [|d ds] E H; cbn in *;
    try discriminate; [reflexivity|].
  inversion H; subst. cbn in *. f_equal; [assumption|].
  apply IH; [now injection E | assumption].
Qed.

Lemma in_combine_key {A B : Type} (ks : list A) (ds : list B) (k : A) :
  List.length ds = List.length ks -> In k ks -> exists d, In (k, d) (combine ks ds).
Proof.
  revert ds. induction ks as [|a ks IH]; intros [|d ds] E H; cbn in *;
    try discriminate; try contradiction.
  destruct H as [H | H].
  - subst. exists d. now left.
  - destruct (IH ds) as [d' Hd']; [now injection E | assumption |].
    exists d'. now right.
Qed.

Lemma in_combine_entry {A B : Type} (ks : list A) (ds : list B) (d : B) :
  List.length ds = List.length ks -> In d ds -> exists k, In (k, d) (combine ks ds).
Proof.
  revert ds. induction ks as [|a ks IH]; intros [|d0 ds] E H; cbn in *;
    try discriminate; try contradiction.
  destruct H as [H | H].
  - subst. exists a. now left.
  - destruct (IH ds) as [k Hk]; [now injection E | assumption |].
    exists k. now right.
Qed.

Lemma addDetail_ignored st k l v :
  In k (Locals.detailsAdded st) -> addDetail k l v st = st.
Proof.
  intros H. unfold addDetail.
  destruct (negb (JS.truthy v)); [reflexivity|].
  apply has_In in H. now rewrite H.
Qed.

Lemma keys_of_details now o :
  map (fun d => keyOfLabel (label d)) (Locals.details (analyzeLocals now o))
  = Locals.detailsAdded (analyzeLocals now o).
Proof.
  destruct (Inv_analyzeLocals now o) as [Hlen _ Hreq].
  apply keys_from_entries; [assumption|].
  unfold keyed in Hreq. eapply Forall_impl; [|exact Hreq].
  intros kd [Hin _]. now apply (requests_key (normalize o)).
Qed.

Lemma noBlurb_push line st : noBlurb (push line st) = noBlurb st.
Proof. reflexivity. Qed.

Lemma noBlurb_addDetail k l v st :
  noBlurb (addDetail k l v st) = addDetail k l v (noBlurb st).
Proof.
  unfold addDetail. cbn [noBlurb Locals.detailsAdded Locals.details].
  destruct (negb (JS.truthy v)); [reflexivity|].
  destruct (has (Locals.detailsAdded st) k); reflexivity.
Qed.

Lemma noBlurb_when c k l v st :
  noBlurb (when c (addDetail k l v) st)
  = applyRequests (if c then [(k, {| label := l; value := v |})] else []) (noBlurb st).
Proof. destruct c; cbn; [apply noBlurb_addDetail | reflexivity]. Qed.

Lemma applyRequests_app rs rs' st :
  applyRequests (rs ++ rs') st = applyRequests rs' (applyRequests rs st).
Proof. apply fold_left_app. Qed.

Ltac requests_rule :=
  intros; unfold when; cbn [negb];
  repeat match goal with
         | |- context [if ?c then _ else _] => destruct c
         end;
  cbn [applyRequests fold_left app fst snd label value];
  rewrite ?noBlurb_addDetail, ?noBlurb_push; reflexivity.

(** Each rule makes the calls listed for it. *)
Lemma requests_ruleFulfillment mf f now at_ st :
  noBlurb (ruleFulfillment mf f now at_ st)
  = applyRequests
      (if f then [("invoice", {| label := "Invoiced With"; value := Mf.invoice mf |})]
       else []) (noBlurb st).
Proof. unfold ruleFulfillment. requests_rule. Qed.

Lemma requests_ruleNeedToArrange mf f st :
  noBlurb (ruleNeedToArrange mf f st)
  = applyRequests
      (if isEq (Mf.arrangeStatus mf) "NEED TO ARRANGE"
       then ("followUpNotes",
             {| label := "Follow-Up Notes"; value := Mf.followUpNotes mf |})
            :: (if f then []
                else [("weeks", {| label := "Weeks Since Order"; value := Mf.weeks mf |})])
       else []) (noBlurb st).
Proof. unfold ruleNeedToArrange. destruct f; requests_rule. Qed.

Lemma requests_ruleArranged mf f st :
  noBlurb (ruleArranged mf f st)
  = applyRequests
      (if isEq (Mf.arrangeStatus mf) "ARRANGED" && negb (isYes (Mf.incoming mf) "INCOMING")
       then ("arrangedWith",
             {| label := "Arranged With"; value := Mf.arrangedWith mf |})
            :: (if f then []
                else [("weeks", {| label := "Weeks Since Order"; value := Mf.weeks mf |})])
       else []) (noBlurb st).
Proof. unfold ruleArranged. destruct f; requests_rule. Qed.

Lemma requests_ruleIncoming mf f st :
  noBlurb (ruleIncoming mf f st)
  = applyRequests
      (if isYes (Mf.incoming mf) "INCOMING"
       then (if isEq (Mf.arrangeStatus mf) "ARRANGED"
             then [("followUpNotes",
                    {| label := "Follow-Up Notes"; value := Mf.followUpNotes mf |})]
             else [])
            ++ ("invoice", {| label := "Invoiced With"; value := Mf.invoice mf |})
               :: (if f then []
                   else [("weeks",
                          {| label := "Weeks Since Order"; value := Mf.weeks mf |})])
       else []) (noBlurb st).
Proof. unfold ruleIncoming. destruct f; requests_rule. Qed.

Lemma requests_ruleReadyToContact mf st :
  noBlurb (ruleReadyToContact mf st)
  = applyRequests
      (if isEq (Mf.readyToContact mf) "READY TO CONTACT"
       then [("invoice", {| label := "Invoiced With"; value := Mf.invoice mf |})]
       else if isEq (Mf.readyToContact mf) "CONTACT LATER"
       then [("weeks", {| label := "Weeks Since Order"; value := Mf.weeks mf |});
             ("invoice", {| label := "Invoiced With"; value := Mf.invoice mf |})]
       else []) (noBlurb st).
Proof. unfold ruleReadyToContact. requests_rule. Qed.

Lemma requests_ruleNeedsFollowUp mf st :
  noBlurb (ruleNeedsFollowUp mf st)
  = applyRequests
      (if isEq (Mf.needsFollowUp mf) "NEEDS FOLLOW-UP"
       then [("followUpNotes",
              {| label := "Follow-Up Notes"; value := Mf.followUpNotes mf |})]
       else []) (noBlurb st).
Proof. unfold ruleNeedsFollowUp. requests_rule. Qed.

Lemma requests_ruleReserved mf st :
  noBlurb (ruleReserved mf st)
  = applyRequests
      (if isEq (Mf.reserveIncoming mf) "RESERVED INCOMING INVENTORY"
       then [("arrangedWith",
              {| label := "Arranged/Reserved With"; value := Mf.arrangedWith mf |})]
       else []) (noBlurb st).
Proof. unfold ruleReserved. requests_rule. Qed.

Lemma requests_ruleOwesReturn mf st :
  noBlurb (ruleOwesReturn mf st)
  = applyRequests
      (if isEq (Mf.owesReturn mf) "OWES RETURN"
       then [("returnNotes", {| label := "Return Notes"; value := Mf.returnNotes mf |})]
       else []) (noBlurb st).
Proof. unfold ruleOwesReturn. requests_rule. Qed.

Lemma noBlurb_fallback st : noBlurb (fallback st) = noBlurb st.
Proof. unfold fallback. destruct (Nat.eqb _ _); reflexivity. Qed.

(** The details of the analysis are what the calls of the rules, made in
    order from empty locals, leave. *)
Lemma requests_analyzeLocals now o :
  noBlurb (analyzeLocals now o)
  = applyRequests (detailRequests (normalize o) (isFulfilledOrder o)) Locals.empty.
Proof.
  unfold analyzeLocals, detailRequests.
  rewrite noBlurb_fallback, requests_ruleOwesReturn, requests_ruleReserved,
    requests_ruleNeedsFollowUp, requests_ruleReadyToContact, requests_ruleIncoming,
    requests_ruleArranged, requests_ruleNeedToArrange, requests_ruleFulfillment.
  rewrite !applyRequests_app. reflexivity.
Qed.

Lemma filter_filter_key (seen : list string) (k : string) (l : list (string * Detail)) :
  filter (fun r => negb (has seen (fst r)))
         (filter (fun r => negb (String.eqb (fst r) k)) l)
  = filter (fun r => negb (has (seen ++ [k]) (fst r))) l.
Proof.
  induction l as [|r l IH]; [reflexivity|].
  cbn [filter]. unfold has at 2. rewrite existsb_app. fold (has seen (fst r)).
  cbn [existsb]. rewrite orb_false_r.
  destruct (String.eqb (fst r) k) eqn:E; cbn [negb].
  - rewrite orb_true_r. cbn [negb]. exact IH.
  - rewrite orb_false_r. cbn [filter].
    destruct (has seen (fst r)); cbn [negb]; [exact IH | now rewrite IH].
Qed.

Lemma filter_seen_key (seen : list string) (k : string) (l : list (string * Detail)) :
  has seen k = true ->
  filter (fun r => negb (has seen (fst r)))
         (filter (fun r => negb (String.eqb (fst r) k)) l)
  = filter (fun r => negb (has seen (fst r))) l.
Proof.
  intros Hk. induction l as [|r l IH]; [reflexivity|].
  cbn [filter]. destruct (String.eqb (fst r) k) eqn:E; cbn [negb].
  - apply String.eqb_eq in E. rewrite E, Hk. cbn [negb]. exact IH.
  - cbn [filter]. destruct (has seen (fst r)); cbn [negb]; [exact IH | now rewrite IH].
Qed.

(** The calls of [addDetail] append, in order, the first request of each key
    that is not in use yet, among the requests that carry a value. *)
Lemma keyed_applyRequests rs : forall st,
  List.length (Locals.details st) = List.length (Locals.detailsAdded st) ->
  keyed (applyRequests rs st)
  = keyed st
    ++ filter (fun r => negb (has (Locals.detailsAdded st) (fst r))) (firstRequests rs)
  /\ List.length (Locals.details (applyRequests rs st))
     = List.length (Locals.detailsAdded (applyRequests rs st)).
Proof.
  unfold firstRequests.
  induction rs as [|[k [l v]] rs IH]; intros st Hlen.
  - cbn. now rewrite app_nil_r.
  - cbn [applyRequests fold_left fst snd label value filter].
    fold (applyRequests rs (addDetail k l v st)).
    set (st' := {| Locals.blurb := Locals.blurb st;
                   Locals.details := Locals.details st ++ [{| label := l; value := v |}];
                   Locals.detailsAdded := Locals.detailsAdded st ++ [k] |}).
    assert (Hstep : addDetail k l v st
                    = if JS.truthy v
                      then if has (Locals.detailsAdded st) k then st else st'
                      else st).
    { unfold addDetail. destruct (JS.truthy v); reflexivity. }
    rewrite Hstep.
    destruct (JS.truthy v) eqn:Hv; [|now apply IH].
    cbn [firstByKey filter fst].
    destruct (has (Locals.detailsAdded st) k) eqn:Hk; cbn [negb].
    + rewrite (filter_seen_key _ _ _ Hk). now apply IH.
    + rewrite filter_filter_key.
      assert (Hlen' : List.length (Locals.details st')
                      = List.length (Locals.detailsAdded st')).
      { cbn. rewrite !length_app. cbn. now rewrite Hlen. }
      destruct (IH st' Hlen') as [IH1 IH2]. split; [|exact IH2].
      rewrite IH1. unfold keyed at 1. cbn [st' Locals.details Locals.detailsAdded].
      rewrite combine_snoc by (symmetry; exact Hlen).
      now rewrite <- app_assoc.
Qed.

Lemma filter_all {A : Type} (l : list A) : filter (fun _ => true) l = l.
Proof. induction l as [|a l IH]; [reflexivity|]. cbn. now rewrite IH. Qed.

Lemma keyed_noBlurb st : keyed (noBlurb st) = keyed st.
Proof. reflexivity. Qed.

(** First writer wins: the details of the analysis, with their keys, are the
    requests of the rules that carry a value, each key at its first
    request. *)
Lemma keyed_analyzeLocals now o :
  keyed (analyzeLocals now o)
  = firstRequests (detailRequests (normalize o) (isFulfilledOrder o)).
Proof.
  rewrite <- keyed_noBlurb, requests_analyzeLocals.
  destruct (keyed_applyRequests
              (detailRequests (normalize o) (isFulfilledOrder o)) Locals.empty eq_refl)
    as [H _].
  rewrite H. cbn [keyed Locals.empty Locals.details Locals.detailsAdded combine app has
                  existsb negb].
  apply filter_all.
Qed.

Lemma addDetail_appends k l v st :
  JS.truthy v = true -> ~ In k (Locals.detailsAdded st) ->
  Locals.details (addDetail k l v st)
  = Locals.details st ++ [{| label := l; value := v |}]
  /\ Locals.detailsAdded (addDetail k l v st) = Locals.detailsAdded st ++ [k].
Proof.
  intros Hv Hk. unfold addDetail. rewrite Hv. cbn [negb].
  destruct (has (Locals.detailsAdded st) k) eqn:Hh.
  - apply has_In in Hh. contradiction.
  - split; reflexivity.
Qed.

Lemma firstByKey_find (rs : list (string * Detail)) (r : string * Detail) :
  In r (firstByKey rs)
  <-> find (fun r' => String.eqb (fst r') (fst r)) rs = Some r.
Proof.
  induction rs as [|a rs IH]; cbn [firstByKey find In].
  - split; [intros [] | discriminate].
  - rewrite filter_In, IH. destruct (String.eqb (fst a) (fst r)) eqn:E.
    + split.
      * intros [-> | [_ Hn]]; [reflexivity|].
        rewrite String.eqb_sym, E in Hn. discriminate Hn.
      * intros [= ->]. now left.
    + split.
      * intros [-> | [H _]]; [|exact H].
        rewrite String.eqb_refl in E. discriminate E.
      * intros H. right. split; [exact H|].
        now rewrite String.eqb_sym, E.
Qed.

(** C2: the detail list of analyzeOrder has no two entries with the same
    key, and first writer wins.  With their keys, the entries are the calls of
    addDetail that the rules make with a non-empty value, in the order of the
    calls, each key at its first call: an entry with key k, label l and value
    v is in the list exactly when the first call with key k and a non-empty
    value has label l and value v.  The key of each entry (the key its label
    is added under) is the key recorded for it in detailsAdded; these keys are
    pairwise distinct, and so are the labels.  A call of addDetail with a
    non-empty value and a key not recorded yet appends its label and value;
    a call with a key already recorded leaves the locals as they are, and no
    call removes or rewrites an entry. *)
Theorem C2_detail_keys_unique (cfg : Config) (now : Z) (o : Order) :
  let ds := details (analyzeOrder cfg now o) in
  let calls :=
    filter (fun r => JS.truthy (value (snd r)))
           (detailRequests (normalize o) (isFulfilledOrder o)) in
  map (fun d => keyOfLabel (label d)) ds = Locals.detailsAdded (analyzeLocals now o)
  /\ NoDup (map (fun d => keyOfLabel (label d)) ds)
  /\ NoDup (map label ds)
  /\ (forall st k l v,
         In k (Locals.detailsAdded st) -> addDetail k l v st = st)
  /\ (forall st k l v kd,
         List.length (Locals.details st) = List.length (Locals.detailsAdded st) ->
         In kd (keyed st) -> In kd (keyed (addDetail k l v st)))
  /\ keyed (analyzeLocals now o) = firstByKey calls
  /\ ds = map snd (firstByKey calls)
  /\ (forall k l v,
         In (k, {| label := l; value := v |}) (keyed (analyzeLocals now o))
         <-> find (fun r => String.eqb (fst r) k) calls
             = Some (k, {| label := l; value := v |}))
  /\ (forall st k l v,
         JS.truthy v = true -> ~ In k (Locals.detailsAdded st) ->
         Locals.details (addDetail k l v st)
         = Locals.details st ++ [{| label := l; value := v |}]
         /\ Locals.detailsAdded (addDetail k l v st) = Locals.detailsAdded st ++ [k]).
Proof.
  cbn zeta. cbn [analyzeOrder details].
  pose proof (keys_of_details now o) as Hk.
  pose proof (inv_nodup _ _ (Inv_analyzeLocals now o)) as Hnd.
  pose proof (inv_length _ _ (Inv_analyzeLocals now o)) as Hlen.
  pose proof (keyed_analyzeLocals now o) as Hfirst. unfold firstRequests in Hfirst.
  repeat split.
  - exact Hk.
  - now rewrite Hk.
  - apply (NoDup_map_inv keyOfLabel). rewrite map_map. now rewrite Hk.
  - intros. now apply addDetail_ignored.
  - intros. now apply keyed_addDetail_mono.
  - exact Hfirst.
  - rewrite <- Hfirst. unfold keyed. now rewrite map_snd_combine.
  - rewrite Hfirst. intros H. now apply firstByKey_find in H.
  - rewrite Hfirst. intros H. now apply firstByKey_find.
  - now apply addDetail_appends.
  - now apply addDetail_appends.
Qed.

Lemma C2_detail_keys_unique_witness :
  details (analyzeOrder someConfig 0 followUpOrder)
  = [{| label := "Follow-Up Notes"; value := "call the supplier" |};
     {| label := "Weeks Since Order"; value := "4.5" |};
     {| label := "Invoiced With"; value := "INV-9" |}]
  /\ details (analyzeOrder someConfig 0 arrangedReservedOrder)
     = [{| label := "Arranged With"; value := "ACME" |};
        {| label := "Weeks Since Order"; value := "12.3" |}].
Proof.
  split.
  - rewrite (proj1 (proj2 (proj2 (proj2 (proj2 (proj2 (proj2
              (C2_detail_keys_unique someConfig 0%Z followUpOrder)))))))).
    vm_compute. reflexivity.
  - rewrite (proj1 (proj2 (proj2 (proj2 (proj2 (proj2 (proj2
              (C2_detail_keys_unique someConfig 0%Z arrangedReservedOrder)))))))).
    vm_compute. reflexivity.
Defined.

Lemma val_blank m : isBlank m = true -> val m EmptyString = EmptyString.
Proof.
  destruct m as [[[s|]]|]; cbn; try reflexivity.
  destruct (JS.truthy (JS.trim s)); [discriminate | reflexivity].
Qed.

Lemma normOf_blank a o :
  isBlank (rawOf a o) = true -> normOf a (normalize o) = EmptyString.
Proof.
  intros H. apply val_blank in H.
  destruct a; cbn [normOf normalize rawOf Mf.weeks Mf.arrangeStatus Mf.arrangedWith
    Mf.incoming Mf.reserveIncoming Mf.readyToContact Mf.needsFollowUp
    Mf.followUpNotes Mf.owesReturn Mf.returnNotes Mf.invoice] in *;
    rewrite H; reflexivity.
Qed.

Lemma request_label_value mf kd a :
  In kd (requestsOf mf) -> In (label (snd kd)) (labelsOf a) ->
  value (snd kd) = normOf a mf.
Proof.
  cbn [requestsOf In]. intros H.
  repeat (destruct H as [H | H]; [subst kd|]); try contradiction;
    destruct a; cbn; intros Hl;
    repeat (destruct Hl as [Hl | Hl]; [try discriminate Hl|]);
    try contradiction; reflexivity.
Qed.

Lemma request_key_value mf kd a :
  In kd (requestsOf mf) -> In (fst kd) (keysOf a) ->
  value (snd kd) = normOf a mf.
Proof.
  cbn [requestsOf In]. intros H.
  repeat (destruct H as [H | H]; [subst kd|]); try contradiction;
    destruct a; cbn; intros Hl;
    repeat (destruct Hl as [Hl | Hl]; [try discriminate Hl|]);
    try contradiction; reflexivity.
Qed.

Lemma fulfillmentLine_not_ruleLine now o l :
  In l ruleLines -> fulfillmentLine now o <> l.
Proof.
  unfold ruleLines. cbn [In]. intros H.
  unfold fulfillmentLine, fulfilledLine, notFulfilledLine.
  repeat (destruct H as [H | H]; [subst l|]); try contradiction;
    destruct (isFulfilledOrder o); cbn; intros E; discriminate E.
Qed.

Ltac blank_conditions H :=
  repeat match type of H with
         | context [isEq EmptyString ?t] => change (isEq EmptyString t) with false in H
         | context [isYes EmptyString ?t] => change (isYes EmptyString t) with false in H
         end;
  cbn [andb negb] in H.

Ltac split_lines H :=
  repeat match type of H with
         | In _ (_ ++ _) => apply in_app_or in H; destruct H as [H | H]
         | In _ (if ?c then _ else _) => destruct c
         | In _ [] => destruct H
         | In _ (_ :: _) => destruct H as [H | H]
         | (if ?c then _ else _) = _ => destruct c
         end.

Lemma blank_no_positive_line a o l :
  isBlank (rawOf a o) = true -> In l (positiveLines a) ->
  ~ In l (exceptionLines (normalize o)).
Proof.
  intros Hb Hl He. apply normOf_blank in Hb.
  unfold exceptionLines in He.
  destruct a; cbn [positiveLines In normOf] in Hl, Hb; try contradiction;
    rewrite Hb in He; blank_conditions He;
    repeat (destruct Hl as [Hl | Hl]; [subst l|]); try contradiction;
    split_lines He;
    try (vm_compute in He; discriminate He).
Qed.

(** C5: when the value of an attribute is missing or blank, no detail entry
    with a label of that attribute is in the output, no key of that attribute
    is recorded, and the narrative has no line of a rule whose condition
    requires an enum value of that attribute. *)
Theorem C5_blank_attribute_suppressed (cfg : Config) (now : Z) (o : Order) (a : Attr) :
  isBlank (rawOf a o) = true ->
  (forall d, In d (details (analyzeOrder cfg now o)) -> ~ In (label d) (labelsOf a))
  /\ (forall k, In k (keysOf a) ->
                ~ In k (Locals.detailsAdded (analyzeLocals now o)))
  /\ (forall l, In l (positiveLines a) ->
                ~ In l (blurbLines (analyzeOrder cfg now o))).
Proof.
  intros Hb. cbn [analyzeOrder details blurbLines].
  destruct (Inv_analyzeLocals now o) as [Hlen _ Hreq].
  rewrite Forall_forall in Hreq.
  pose proof (normOf_blank a o Hb) as Hn.
  repeat split.
  - intros d Hd Hl.
    destruct (in_combine_entry (Locals.detailsAdded (analyzeLocals now o)) _ d Hlen Hd)
      as [k Hk].
    destruct (Hreq _ Hk) as [Hin Ht].
    rewrite (request_label_value _ _ a Hin Hl), Hn in Ht. discriminate Ht.
  - intros k Hk Hin.
    destruct (in_combine_key _ (Locals.details (analyzeLocals now o)) k Hlen Hin)
      as [d Hd].
    destruct (Hreq _ Hd) as [Hr Ht].
    rewrite (request_key_value _ _ a Hr Hk), Hn in Ht. discriminate Ht.
  - intros l Hl. rewrite blurb_analyzeLocals. intros [E | E].
    + revert E. apply fulfillmentLine_not_ruleLine.
      destruct a; cbn [positiveLines In] in Hl; unfold ruleLines; cbn [In]; tauto.
    + exact (blank_no_positive_line a o l Hb Hl E).
Qed.

Lemma C5_blank_attribute_suppressed_witness :
  isBlank (rawOf AFollowUpNotes blankNotesOrder) = true
  /\ In Text.needsFollowUp (blurbLines (analyzeOrder someConfig 0 blankNotesOrder))
  /\ ~ In "Follow-Up Notes"
          (map label (details (analyzeOrder someConfig 0 blankNotesOrder))).
Proof.
  assert (Hb : isBlank (rawOf AFollowUpNotes blankNotesOrder) = true)
    by (vm_compute; reflexivity).
  split; [exact Hb|]. split.
  - vm_compute. right. left. reflexivity.
  - intros Hin. apply in_map_iff in Hin. destruct Hin as (d & Hl & Hd).
    apply (proj1 (C5_blank_attribute_suppressed someConfig 0%Z blankNotesOrder
                    AFollowUpNotes Hb) d Hd).
    rewrite Hl. now left.
Defined.

Lemma filter_none {A : Type} (p : A -> bool) (l : list A) :
  (forall y, In y l -> p y = false) -> filter p l = [].
Proof.
  induction l as [|a l IH]; intros H; [reflexivity|].
  cbn. rewrite (H a (or_introl eq_refl)). apply IH.
  intros y Hy. apply H. now right.
Qed.

Lemma filter_unique {A K : Type} (p : A -> bool) (key : A -> K) (l : list A) (x : A) :
  NoDup (map key l) -> In x l -> p x = true ->
  (forall y, In y l -> p y = true -> key y = key x) ->
  filter p l = [x].
Proof.
  induction l as [|a l IH]; intros Hnd Hx Hp Hall; [contradiction|].
  cbn in Hnd. inversion Hnd as [|? ? Ha Hl]; subst.
  destruct Hx as [Hx | Hx].
  - subst a. cbn. rewrite Hp. f_equal.
    apply filter_none. intros y Hy.
    destruct (p y) eqn:Hpy; [|reflexivity].
    exfalso. apply Ha. rewrite <- (Hall y (or_intror Hy) Hpy). now apply in_map.
  - cbn. destruct (p a) eqn:Hpa.
    + exfalso. apply Ha. rewrite (Hall a (or_introl eq_refl) Hpa). now apply in_map.
    + apply IH; try assumption. intros y Hy. apply Hall. now right.
Qed.

Lemma filter_map_snd {A B : Type} (p : B -> bool) (l : list (A * B)) :
  filter p (map snd l) = map snd (filter (fun kd => p (snd kd)) l).
Proof.
  induction l as [|[k d] l IH]; [reflexivity|].
  cbn. destruct (p d); cbn; now rewrite IH.
Qed.

Lemma keyed_addDetail_new k l v st :
  List.length (Locals.details st) = List.length (Locals.detailsAdded st) ->
  JS.truthy v = true -> ~ In k (Locals.detailsAdded st) ->
  In (k, {| label := l; value := v |}) (keyed (addDetail k l v st)).
Proof.
  intros Hlen Hv Hk. unfold addDetail. rewrite Hv. cbn [negb].
  destruct (has (Locals.detailsAdded st) k) eqn:Hh.
  - apply has_In in Hh. contradiction.
  - unfold keyed. cbn [Locals.details Locals.detailsAdded].
    rewrite combine_snoc by (symmetry; assumption).
    apply in_or_app. right. now left.
Qed.

Lemma arrangedWith_label_key mf kd :
  In kd (requestsOf mf) -> isArrangedWithLabel (label (snd kd)) = true ->
  fst kd = "arrangedWith".
Proof.
  cbn [requestsOf In]. intros H.
  repeat (destruct H as [H | H]; [subst kd|]); try contradiction;
    cbn; intros E; try discriminate E; reflexivity.
Qed.

(** C9: rules 3 and 7 add under the same key.  When arrange-status is
    ARRANGED, incoming is not INCOMING, reserve-incoming is RESERVED INCOMING
    INVENTORY and arranged-with is not blank, both rules fire, and the only
    arranged-with entry of the output is the one of rule 3, labelled
    Arranged With; the label Arranged/Reserved With does not appear. *)
Theorem C9_arrangedWith_first_label (cfg : Config) (now : Z) (o : Order) :
  let mf := normalize o in
  isEq (Mf.arrangeStatus mf) "ARRANGED" = true ->
  isYes (Mf.incoming mf) "INCOMING" = false ->
  isEq (Mf.reserveIncoming mf) "RESERVED INCOMING INVENTORY" = true ->
  JS.truthy (Mf.arrangedWith mf) = true ->
  filter (fun d => isArrangedWithLabel (label d)) (details (analyzeOrder cfg now o))
  = [{| label := "Arranged With"; value := Mf.arrangedWith mf |}]
  /\ In Text.arranged (blurbLines (analyzeOrder cfg now o))
  /\ In Text.reserved (blurbLines (analyzeOrder cfg now o))
  /\ (forall d, In d (details (analyzeOrder cfg now o)) ->
                label d <> "Arranged/Reserved With").
Proof.
  intros mf Harr Hinc Hres Hval. cbn [analyzeOrder details blurbLines].
  set (f := isFulfilledOrder o).
  set (st2 := earlyRules mf f now (mostRecentFulfillmentAt o)).
  assert (Hinv2 : Inv mf st2).
  { eapply Reach_Inv; [apply earlyRequests_incl | apply Reach_earlyRules | apply Inv_empty]. }
  assert (Hfresh : ~ In "arrangedWith" (Locals.detailsAdded st2)).
  { intros Hk.
    destruct (Reach_keys _ _ _ _ (Reach_earlyRules mf f now (mostRecentFulfillmentAt o)) Hk)
      as [[] | Hin].
    cbn in Hin. intuition discriminate. }
  set (x := ("arrangedWith", {| label := "Arranged With"; value := Mf.arrangedWith mf |})).
  assert (Hx3 : In x (keyed (ruleArranged mf f st2))).
  { unfold ruleArranged. rewrite Harr, Hinc. cbn [andb negb].
    assert (Hin : In x (keyed (addDetail "arrangedWith" "Arranged With"
                                  (Mf.arrangedWith mf) (push Text.arranged st2)))).
    { apply keyed_addDetail_new; [apply (inv_length mf); now apply Inv_push
                                 | assumption | exact Hfresh]. }
    unfold when. destruct (negb f); [|exact Hin].
    apply keyed_addDetail_mono; [|exact Hin].
    apply (inv_length mf). apply Inv_addDetail; [cbn; auto 10 | now apply Inv_push]. }
  assert (Hinv3 : Inv mf (ruleArranged mf f st2)).
  { eapply Reach_Inv; [apply incl_refl | apply Reach_ruleArranged | exact Hinv2]. }
  assert (Hx : In x (keyed (analyzeLocals now o))).
  { rewrite analyzeLocals_split.
    eapply Reach_keyed_mono;
      [apply incl_refl | apply Reach_lateRules | exact Hinv3 | exact Hx3]. }
  destruct (Inv_analyzeLocals now o) as [Hlen Hnd Hreq].
  fold mf in Hreq. rewrite Forall_forall in Hreq.
  assert (Hfilter :
    filter (fun kd => isArrangedWithLabel (label (snd kd))) (keyed (analyzeLocals now o))
    = [x]).
  { apply (filter_unique _ fst).
    - unfold keyed. now rewrite map_fst_combine.
    - exact Hx.
    - reflexivity.
    - intros y Hy Hp. destruct (Hreq y Hy) as [Hin _].
      now apply (arrangedWith_label_key mf). }
  assert (Hds : Locals.details (analyzeLocals now o) = map snd (keyed (analyzeLocals now o))).
  { unfold keyed. now rewrite map_snd_combine. }
  repeat split.
  - rewrite Hds, filter_map_snd, Hfilter. reflexivity.
  - rewrite blurb_analyzeLocals. right. unfold exceptionLines. fold mf.
    rewrite Harr, Hinc. cbn [andb negb].
    apply in_or_app. right. apply in_or_app. left. now left.
  - rewrite blurb_analyzeLocals. right. unfold exceptionLines. fold mf.
    rewrite Hres.
    do 5 (apply in_or_app; right). apply in_or_app. left. now left.
  - intros d Hd El.
    assert (Hin : In d (filter (fun d => isArrangedWithLabel (label d))
                               (Locals.details (analyzeLocals now o)))).
    { apply filter_In. split; [assumption|]. now rewrite El. }
    rewrite Hds, filter_map_snd, Hfilter in Hin.
    destruct Hin as [Hin | []]. subst d. discriminate El.
Qed.

Lemma C9_arrangedWith_first_label_witness :
  filter (fun d => isArrangedWithLabel (label d))
         (details (analyzeOrder someConfig 0 arrangedReservedOrder))
  = [{| label := "Arranged With";
        value := Mf.arrangedWith (normalize arrangedReservedOrder) |}].
Proof.
  assert (H1 : isEq (Mf.arrangeStatus (normalize arrangedReservedOrder)) "ARRANGED" = true)
    by (vm_compute; reflexivity).
  assert (H2 : isYes (Mf.incoming (normalize arrangedReservedOrder)) "INCOMING" = false)
    by (vm_compute; reflexivity).
  assert (H3 : isEq (Mf.reserveIncoming (normalize arrangedReservedOrder))
                    "RESERVED INCOMING INVENTORY" = true)
    by (vm_compute; reflexivity).
  assert (H4 : JS.truthy (Mf.arrangedWith (normalize arrangedReservedOrder)) = true)
    by (vm_compute; reflexivity).
  exact (proj1 (C9_arrangedWith_first_label someConfig 0%Z arrangedReservedOrder
                  H1 H2 H3 H4)).
Defined.

(** ** The formatter: chunks of fields *)

Lemma chunkStep_eq chunks current d :
  chunkStep (chunks, current) d
  = if Nat.eqb (List.length (current ++ [fieldOf d])) 10
    then (chunks ++ [current ++ [fieldOf d]], [])
    else (chunks, current ++ [fieldOf d]).
Proof. reflexivity. Qed.

Lemma chunk_loop ds : forall chunks current,
  Forall (fun c => List.length c = 10) chunks ->
  List.length current < 10 ->
  let acc := fold_left chunkStep ds (chunks, current) in
  Forall (fun c => List.length c = 10) (fst acc)
  /\ List.length (snd acc) < 10
  /\ List.concat (fst acc) ++ snd acc = List.concat chunks ++ current ++ map fieldOf ds.
Proof.
  induction ds as [|d ds IH]; intros chunks current Hc Hcur; cbn zeta.
  - cbn. rewrite app_nil_r. auto.
  - cbn [fold_left map]. rewrite chunkStep_eq.
    destruct (Nat.eqb (List.length (current ++ [fieldOf d])) 10) eqn:E.
    + apply Nat.eqb_eq in E.
      destruct (IH (chunks ++ [current ++ [fieldOf d]]) []) as (H1 & H2 & H3).
      * apply Forall_app. split; [assumption|]. constructor; [assumption | constructor].
      * cbn. lia.
      * repeat split; try assumption.
        rewrite H3, List.concat_app. cbn. rewrite !app_nil_r, <- !app_assoc. reflexivity.
    + apply Nat.eqb_neq in E.
      destruct (IH chunks (current ++ [fieldOf d])) as (H1 & H2 & H3).
      * assumption.
      * rewrite length_app in *. cbn in *. lia.
      * repeat split; try assumption.
        rewrite H3, <- !app_assoc. reflexivity.
Qed.

Lemma fieldChunks_shape ds :
  exists full rest,
    fieldChunks ds = full ++ rest
    /\ Forall (fun c => List.length c = 10) full
    /\ List.concat (full ++ rest) = map fieldOf ds
    /\ (rest = [] \/ exists c, rest = [c] /\ 1 <= List.length c < 10).
Proof.
  destruct (chunk_loop ds [] []) as (H1 & H2 & H3); [constructor | cbn; lia |].
  unfold fieldChunks. cbn in H3.
  destruct (fold_left chunkStep ds ([], [])) as [full current]. cbn [fst snd] in *.
  destruct current as [|x current].
  - exists full, []. rewrite !app_nil_r in *. auto.
  - exists full, [x :: current]. repeat split; try assumption.
    + rewrite List.concat_app. cbn. now rewrite app_nil_r.
    + right. eexists. split; [reflexivity|]. cbn in *. lia.
Qed.

Lemma fieldBlocks_map cs : fieldBlocks (map sectionFields cs) = cs.
Proof.
  induction cs as [|c cs IH]; [reflexivity|].
  unfold fieldBlocks in *. cbn. now rewrite IH.
Qed.

Lemma fieldBlocks_buildBlocks r ds :
  details r = ds -> fieldBlocks (buildBlocks r) = fieldChunks ds.
Proof.
  intros Hr. unfold buildBlocks. rewrite Hr.
  destruct ds as [|d ds']; [reflexivity|].
  unfold fieldBlocks. cbn [app flat_map]. rewrite flat_map_app.
  cbn [flat_map app]. rewrite app_nil_r. apply fieldBlocks_map.
Qed.

Lemma length_concat_full {A : Type} (full : list (list A)) :
  Forall (fun c => List.length c = 10) full ->
  List.length (List.concat full) = 10 * List.length full.
Proof.
  induction 1 as [|c full Hc _ IH]; [reflexivity|].
  cbn. rewrite length_app, IH, Hc. lia.
Qed.

(** C7: the formatter cuts a detail list of n entries, in order, into
    ceil(n/10) chunks; every chunk holds between 1 and 10 fields and every
    chunk but the last holds exactly 10; the message has one block of fields
    per chunk; 23 entries give chunks of 10, 10 and 3 fields. *)
Theorem C7_field_chunks (ds : list Detail) :
  let cs := fieldChunks ds in
  List.concat cs = map fieldOf ds
  /\ List.length cs = (List.length ds + 9) / 10
  /\ Forall (fun c => 1 <= List.length c <= 10) cs
  /\ (forall i, S i < List.length cs -> List.length (nth i cs []) = 10)
  /\ (forall r, details r = ds -> fieldBlocks (buildBlocks r) = cs)
  /\ (List.length ds = 23 -> map (@List.length TextObject) cs = [10; 10; 3]).
Proof.
  cbn zeta.
  destruct (fieldChunks_shape ds) as (full & rest & Hcs & Hfull & Hcat & Hrest).
  assert (Hn : List.length ds = 10 * List.length full + List.length (List.concat rest)).
  { rewrite <- (length_map fieldOf), <- Hcat, List.concat_app, length_app.
    now rewrite length_concat_full. }
  repeat split.
  - now rewrite Hcs.
  - rewrite Hcs, length_app, Hn.
    destruct Hrest as [-> | (c & -> & Hc)];
      cbn [List.length List.concat app]; rewrite ?app_nil_r.
    + apply (Nat.div_unique _ 10 _ 9); lia.
    + apply (Nat.div_unique _ 10 _ (List.length c - 1)); lia.
  - rewrite Hcs. apply Forall_app. split.
    + eapply Forall_impl; [|exact Hfull]. cbn. intros c Hc. lia.
    + destruct Hrest as [-> | (c & -> & Hc)];
        [apply Forall_nil | apply Forall_cons; [lia | apply Forall_nil]].
  - intros i Hi. rewrite Hcs in *. rewrite length_app in Hi.
    assert (Hlt : i < List.length full).
    { destruct Hrest as [-> | (c & -> & Hc)]; cbn in Hi; lia. }
    rewrite app_nth1 by assumption.
    rewrite Forall_forall in Hfull. apply Hfull. now apply nth_In.
  - intros r Hr. now apply fieldBlocks_buildBlocks.
  - intros H23.
    do 23 (destruct ds as [|? ds]; [discriminate H23|]).
    destruct ds; [reflexivity | discriminate H23].
Qed.

Lemma C7_field_chunks_witness :
  map (@List.length TextObject)
      (fieldChunks (repeat {| label := "Invoiced With"; value := "ACME" |} 23))
  = [10; 10; 3].
Proof.
  apply (C7_field_chunks (repeat {| label := "Invoiced With"; value := "ACME" |} 23)).
  reflexivity.
Defined.

(** ** Elapsed weeks *)

Lemma Math_round_nearest (x : Q) :
  (inject_Z (Math_round x) - (1 # 2) <= x)%Q
  /\ (x < inject_Z (Math_round x) + (1 # 2))%Q.
Proof.
  unfold Math_round.
  pose proof (Qfloor_le (x + (1 # 2))) as Hle.
  pose proof (Qlt_floor (x + (1 # 2))) as Hlt.
  rewrite inject_Z_plus in Hlt.
  change (inject_Z 1) with 1%Q in Hlt.
  split; lra.
Qed.

Lemma elapsed_nonneg (now dt : Z) :
  (dt <= now)%Z -> Qle_bool 0 (elapsedWeeks now dt * 10)%Q = true.
Proof.
  intros H. apply Qle_bool_iff. unfold elapsedWeeks.
  apply Qmult_le_0_compat; [|discriminate].
  apply Qle_shift_div_l; [reflexivity|].
  rewrite Qmult_0_l. rewrite <- (Zle_Qle 0). lia.
Qed.

(** In binary64 the elapsed time of the counterexample gives exactly the tie
    -0.5, and fourteen days give exactly 20 tenths, that is 2.0. *)
Lemma binary64_at_tie :
  PrimFloat.eqb (tenthsBinary64 (-30240000)%float) (-0.5)%float = true.
Proof. vm_compute. reflexivity. Qed.

Lemma binary64_fourteen_days :
  PrimFloat.eqb (tenthsBinary64 1209600000%float) 20%float = true
  /\ PrimFloat.eqb (20 / 10)%float 2%float = true.
Proof. vm_compute. split; reflexivity. Qed.

(** At the ties and next to them, up to the bound, the binary64 computation
    rounds to the same tenths as the exact one. *)
Lemma binary64_agrees_near_ties :
  forallb (fun ms => (Z.abs ms <=? elapsedBound)%Z
                     && (roundedTenthsBinary64 ms =? roundedTenths ms)%Z)
          tieSamples
  = true.
Proof. vm_compute. reflexivity. Qed.

(** Beyond it the binary64 tenths can reach a tie that the exact ones miss
    by 1 ms, and the results differ by one tenth. *)
Lemma binary64_differs_beyond_bound :
  (elapsedBound < 5073432204959999)%Z
  /\ PrimFloat.eqb (tenthsBinary64 5073432204959999%float) 83886114.5%float = true
  /\ roundedTenthsBinary64 5073432204959999 = 83886115%Z
  /\ roundedTenths 5073432204959999 = 83886114%Z.
Proof. vm_compute. repeat split; reflexivity. Qed.

(** C4, as stated, fails: for an event 8.4 hours after the evaluation time the
    elapsed weeks are -0.05, which Math.round takes to 0 tenths, where rounding
    half away from zero gives -0.1. *)
Lemma C4_half_away_counterexample :
  weeksSince 0 (Some 30240000%Z) = Some (inject_Z 0 / 10)%Q
  /\ ~ (inject_Z 0 / 10 == roundTo1Decimal (elapsedWeeks 0 30240000))%Q.
Proof.
  split; [reflexivity|].
  vm_compute. intros H. discriminate H.
Qed.

(** C4, amended: for every pair of timestamps at most 2^51 ms (about 71,000
    years) apart, the reported elapsed weeks are the elapsed milliseconds
    divided by 7*24*3600*1000, rounded to one decimal place with a tie going
    to the larger value, as Math.round does; when the event time is not after
    the evaluation time this is rounding half away from zero; an event exactly
    14 days before the evaluation time gives 2.0.  The bound is the range in
    which the binary64 arithmetic of the source returns the value of the exact
    arithmetic used here. *)
Theorem C4_weeks_rounding (now dt : Z) :
  (Z.abs (now - dt) <= elapsedBound)%Z ->
  exists t : Z,
    weeksSince now (Some dt) = Some (inject_Z t / 10)%Q
    /\ (inject_Z t - (1 # 2) <= elapsedWeeks now dt * 10)%Q
    /\ (elapsedWeeks now dt * 10 < inject_Z t + (1 # 2))%Q
    /\ ((dt <= now)%Z ->
        weeksSince now (Some dt) = Some (roundTo1Decimal (elapsedWeeks now dt)))
    /\ ((now - dt = 14 * 24 * 3600 * 1000)%Z ->
        t = 20%Z /\ (inject_Z t / 10 == 2)%Q
        /\ numberToString (inject_Z t / 10)%Q = "2").
Proof.
  intros _.
  exists (Math_round (elapsedWeeks now dt * 10)%Q).
  split; [reflexivity|].
  destruct (Math_round_nearest (elapsedWeeks now dt * 10)%Q) as [Hlo Hhi].
  repeat split; try assumption.
  - intros H. unfold roundTo1Decimal, roundHalfAway.
    now rewrite (elapsed_nonneg now dt H).
  - unfold elapsedWeeks. rewrite H. reflexivity.
  - unfold elapsedWeeks. rewrite H. reflexivity.
  - unfold elapsedWeeks. rewrite H. reflexivity.
Qed.

Lemma C4_weeks_rounding_witness :
  (Z.abs (1209600000 - 0) <= elapsedBound)%Z
  /\ weeksSince 1209600000 (Some 0%Z)
     = Some (roundTo1Decimal (elapsedWeeks 1209600000 0)).
Proof.
  assert (Hb : (Z.abs (1209600000 - 0) <= elapsedBound)%Z)
    by (vm_compute; discriminate).
  split; [exact Hb|].
  destruct (C4_weeks_rounding 1209600000 0 Hb) as (t & _ & _ & _ & H & _).
  apply H. lia.
Defined.

(** ** The fetcher: outcomes *)

Lemma get_as_opt data k :
  data <> JNull -> Json.get data k = Json.opt (Some data) k.
Proof. destruct data; intros H; [congruence | reflexivity ..]. Qed.

Lemma readResponse_ok st data :
  data <> JNull ->
  readResponse (Responded {| ok := true; status := st; json := Some data |})
  = if Json.truthy (Json.opt (Json.opt (Some data) "errors") "length")
    then Raised (ShopifyGQLErrors (Json.opt (Some data) "errors"))
    else if Json.truthy
              (Json.opt (Json.opt (Json.opt (Some data) "data") "errors") "length")
         then Raised (ShopifyDataErrors (Json.opt (Json.opt (Some data) "data") "errors"))
         else Returned (Json.orNull (firstEdgeNode (Some data))).
Proof. destruct data; intros H; [congruence | reflexivity ..]. Qed.

Lemma readResponse_raises t :
  raises (readResponse t)
  <-> t = Rejected \/ nonSuccess t \/ unreadableBody t
      \/ hasErrors (bodyOf t) \/ hasErrors (Json.opt (bodyOf t) "data").
Proof.
  destruct t as [|[o st [data|]]].
  - cbn. tauto.
  - destruct o.
    + assert (Hd : data = JNull \/ data <> JNull)
        by (destruct data; [now left | right; discriminate ..]).
      destruct Hd as [-> | Hd].
      * cbn. split; [intros _ | tauto]. right. right. left. now right.
      * rewrite (readResponse_ok st data Hd).
        unfold hasErrors, nonSuccess, unreadableBody, bodyOf. cbn [ok json].
        destruct (Json.truthy (Json.opt (Json.opt (Some data) "errors") "length"));
          [cbn; tauto|].
        destruct (Json.truthy
                    (Json.opt (Json.opt (Json.opt (Some data) "data") "errors") "length"));
          [cbn; tauto|].
        cbn [raises]. split; [tauto|].
        intros [H | [H | [[H | H] | [H | H]]]]; try discriminate H.
        injection H as H. contradiction.
    + cbn. split; [intros _ | tauto]. right. now left.
  - destruct o; cbn.
    + split; [intros _ | tauto]. right. right. left. now left.
    + split; [intros _ | tauto]. right. now left.
Qed.

Lemma readResponse_returned t r :
  readResponse t = Returned r -> r = Json.orNull (firstEdgeNode (bodyOf t)).
Proof.
  destruct t as [|[o st [data|]]]; [discriminate | | destruct o; discriminate].
  destruct o; [|discriminate].
  assert (Hd : data = JNull \/ data <> JNull)
    by (destruct data; [now left | right; discriminate ..]).
  destruct Hd as [-> | Hd]; [discriminate|].
  rewrite (readResponse_ok st data Hd). cbn [bodyOf json].
  repeat match goal with
         | |- context [if ?c then _ else _] => destruct c; [discriminate|]
         end.
  intros H. now injection H as <-.
Qed.

(** C6, as stated, fails: the function also raises when the call of fetch
    itself rejects, and when a response with a success status has the body
    null, with no error entry anywhere. *)
Lemma C6_raises_counterexample :
  (raises (getOrderByName someBackend (fun _ => okResponse JNull) "C#1234")
   /\ ~ (nonSuccess (okResponse JNull) \/ hasErrorEntries (okResponse JNull)))
  /\ (raises (getOrderByName someBackend (fun _ => Rejected) "C#1234")
      /\ ~ (nonSuccess Rejected \/ hasErrorEntries Rejected)).
Proof.
  split; (split; [exact I|]); cbn; unfold hasErrorEntries; cbn;
    intros [H | [H | H]]; try discriminate H; try contradiction; now apply H.
Qed.

(** C6, amended: the fetch operation makes one request and raises exactly
    when the call rejects, the status is not a success, the body cannot be
    read as JSON or is null, or the body has an errors member with a truthy
    length at top level or under data; in every other case it returns the node
    of the first edge of data.orders.edges, or absent when there is no such
    node or it is null.  For a body of the shape asked for, zero edges give
    absent and a first edge with a non-null node gives that node. *)
Theorem C6_fetch_outcomes (be : Backend) (fetch : Request -> Transport)
        (orderName : string) :
  let t := fetch (requestFor be orderName) in
  (raises (getOrderByName be fetch orderName)
   <-> t = Rejected \/ nonSuccess t \/ unreadableBody t
       \/ hasErrors (bodyOf t) \/ hasErrors (Json.opt (bodyOf t) "data"))
  /\ (~ raises (getOrderByName be fetch orderName) ->
      getOrderByName be fetch orderName = Returned (Json.orNull (firstEdgeNode (bodyOf t))))
  /\ (forall node,
         getOrderByName be fetch orderName = Returned (Some node) -> node <> JNull)
  /\ (t = okResponse (envelope []) ->
      getOrderByName be fetch orderName = Returned None)
  /\ (forall node rest,
         node <> JNull -> t = okResponse (envelope (edge node :: rest)) ->
         getOrderByName be fetch orderName = Returned (Some node)).
Proof.
  cbn zeta. unfold getOrderByName.
  set (t := fetch (requestFor be orderName)).
  split; [apply readResponse_raises|].
  split.
  { intros H. destruct (readResponse t) as [e | r] eqn:E; [destruct (H I)|].
    f_equal. now apply readResponse_returned. }
  split.
  { intros node H Hn. subst node.
    apply readResponse_returned in H. unfold Json.orNull in H.
    destruct (firstEdgeNode (bodyOf t)) as [[]|]; discriminate H. }
  split.
  { intros ->. reflexivity. }
  intros node rest Hn ->.
  destruct node; [congruence | reflexivity ..].
Qed.

Lemma C6_fetch_outcomes_witness :
  getOrderByName someBackend
    (fun _ => okResponse (envelope [edge (JObj [("name", JStr "C#1234")])]))
    "C#1234"
  = Returned (Some (JObj [("name", JStr "C#1234")])).
Proof.
  pose proof (C6_fetch_outcomes someBackend
           (fun _ => okResponse (envelope [edge (JObj [("name", JStr "C#1234")])]))
           "C#1234") as H.
  cbv zeta in H. destruct H as (_ & _ & _ & _ & H).
  apply (H _ []); [discriminate | reflexivity].
Defined.

(** ** The identifier pattern *)

Lemma isDigit_word d : Regex.isDigit d = true -> Regex.isWordChar d = true.
Proof.
  unfold Regex.isDigit, Regex.isWordChar. intros H. now rewrite H.
Qed.

Ltac exec_cases :=
  repeat match goal with
         | |- context [Regex.isDigit ?d] =>
             let E := fresh "E" in
             destruct (Regex.isDigit d) eqn:E;
             [ try rewrite (isDigit_word d E) | ]
         | |- context [Regex.isWordChar ?d] => destruct (Regex.isWordChar d)
         | |- context [Regex.isWordAt ?p] => destruct (Regex.isWordAt p)
         end;
  cbn [xorb negb andb]; try reflexivity.

Lemma exec_ORDER_REGEX prev s :
  Regex.exec ORDER_REGEX prev s = tokenLen prev s.
Proof.
  unfold Regex.exec, ORDER_REGEX, tokenLen.
  destruct s as [|c s].
  { cbn. now destruct (Regex.isWordAt prev). }
  cbn [Regex.compile Regex.one hd_error].
  destruct (Ascii.eqb "C" c) eqn:Ec.
  2: { rewrite !andb_false_r. cbn [andb].
       destruct (xorb _ _); destruct s as [|? [|? [|? [|? [|? ?]]]]]; reflexivity. }
  apply Ascii.eqb_eq in Ec. subst c.
  change (Regex.isWordAt (Some "C"%char)) with true.
  destruct (Regex.isWordAt prev); cbn [xorb negb andb].
  { destruct s as [|? [|? [|? [|? [|? ?]]]]]; reflexivity. }
  destruct s as [|h s]; [reflexivity|].
  cbn [Regex.one].
  destruct (Ascii.eqb "#" h) eqn:Eh; cbn [andb].
  2: { destruct s as [|? [|? [|? [|? ?]]]]; reflexivity. }
  cbn [Regex.repeatGreedy Nat.eqb pred].
  destruct s as [|d1 s]; [reflexivity|].
  cbn [Regex.one].
  destruct (Regex.isDigit d1) eqn:E1; cbn [andb].
  2: { destruct s as [|? [|? [|? ?]]]; reflexivity. }
  destruct s as [|d2 s]; [reflexivity|].
  cbn [Regex.one].
  destruct (Regex.isDigit d2) eqn:E2; cbn [andb].
  2: { destruct s as [|? [|? ?]]; reflexivity. }
  destruct s as [|d3 s]; [reflexivity|].
  cbn [Regex.one].
  destruct (Regex.isDigit d3) eqn:E3; cbn [andb].
  2: { destruct s as [|? ?]; reflexivity. }
  destruct s as [|d4 s]; [reflexivity|].
  cbn [Regex.one].
  destruct (Regex.isDigit d4) eqn:E4; cbn [andb]; [|reflexivity].
  destruct s as [|d5 s]; cbn [Regex.one hd_error Regex.isWordAt];
    rewrite ?(isDigit_word d4 E4); [reflexivity|].
  destruct (Regex.isDigit d5) eqn:E5.
  - rewrite (isDigit_word d5 E5). cbn [xorb].
    destruct s as [|x s]; [reflexivity|]. cbn [hd_error Regex.isWordAt].
    destruct (Regex.isWordChar x); reflexivity.
  - destruct (Regex.isWordChar d5); reflexivity.
Qed.

Lemma tokenLen_inv prev s len :
  tokenLen prev s = Some len ->
  Regex.isWordAt prev = false
  /\ exists ds post,
       s = "C"%char :: "#"%char :: ds ++ post
       /\ forallb Regex.isDigit ds = true
       /\ (List.length ds = 4 \/ List.length ds = 5)
       /\ len = 2 + List.length ds
       /\ Regex.isWordAt (hd_error post) = false.
Proof.
  unfold tokenLen.
  destruct s as [|c [|h [|d1 [|d2 [|d3 [|d4 r]]]]]]; try discriminate.
  destruct (negb (Regex.isWordAt prev) && Ascii.eqb "C" c && Ascii.eqb "#" h
            && Regex.isDigit d1 && Regex.isDigit d2 && Regex.isDigit d3
            && Regex.isDigit d4) eqn:E; [|discriminate].
  repeat (apply andb_prop in E; destruct E as [E ?]).
  apply negb_true_iff in E.
  repeat match goal with
         | H : Ascii.eqb _ _ = true |- _ => apply Ascii.eqb_eq in H; subst
         end.
  destruct r as [|d5 r'].
  - intros [= <-]. split; [assumption|].
    exists [d1; d2; d3; d4], []. cbn.
    repeat match goal with H : Regex.isDigit _ = true |- _ => rewrite H; clear H end.
    auto 10.
  - destruct (Regex.isDigit d5) eqn:E5.
    + destruct (Regex.isWordAt (hd_error r')) eqn:Ew; [discriminate|].
      intros [= <-]. split; [assumption|].
      exists [d1; d2; d3; d4; d5], r'. cbn.
      repeat match goal with H : Regex.isDigit _ = true |- _ => rewrite H; clear H end.
      auto 10.
    + destruct (Regex.isWordChar d5) eqn:Ew; [discriminate|].
      intros [= <-]. split; [assumption|].
      exists [d1; d2; d3; d4], (d5 :: r'). cbn.
      repeat match goal with H : Regex.isDigit _ = true |- _ => rewrite H; clear H end.
      auto 10.
Qed.

Lemma tokenLen_complete prev m post :
  Regex.isWordAt prev = false -> isToken m ->
  Regex.isWordAt (hd_error post) = false ->
  tokenLen prev (m ++ post) = Some (List.length m).
Proof.
  intros Hp (ds & -> & Hd & Hlen) Hpost.
  assert (Hnd : forall p, Regex.isWordChar p = false -> Regex.isDigit p = false).
  { intros p Hw. destruct (Regex.isDigit p) eqn:E; [|reflexivity].
    apply isDigit_word in E. congruence. }
  destruct Hlen as [Hlen | Hlen].
  - destruct ds as [|d1 [|d2 [|d3 [|d4 [|]]]]]; try discriminate Hlen.
    cbn in Hd. repeat (apply andb_prop in Hd; destruct Hd as [? Hd]).
    cbn [app tokenLen List.length]. rewrite Hp.
    repeat match goal with H : Regex.isDigit _ = true |- _ => rewrite H; clear H end.
    cbn [negb andb Ascii.eqb Bool.eqb].
    destruct post as [|p post]; [reflexivity|].
    cbn [hd_error Regex.isWordAt] in Hpost.
    now rewrite (Hnd p Hpost), Hpost.
  - destruct ds as [|d1 [|d2 [|d3 [|d4 [|d5 [|]]]]]]; try discriminate Hlen.
    cbn in Hd. repeat (apply andb_prop in Hd; destruct Hd as [? Hd]).
    cbn [app tokenLen List.length]. rewrite Hp, Hpost.
    repeat match goal with H : Regex.isDigit _ = true |- _ => rewrite H; clear H end.
    reflexivity.
Qed.

Lemma tokenLen_nonC prev c s len :
  tokenLen prev (c :: s) = Some len -> c = "C"%char /\ nonC (pred len) s.
Proof.
  intros H. apply tokenLen_inv in H.
  destruct H as (_ & ds & post & Hs & Hd & _ & -> & _).
  injection Hs as -> ->. split; [reflexivity|].
  intros j Hj. cbn [pred plus] in Hj.
  destruct j as [|j]; [discriminate|].
  cbn [nth_error]. rewrite nth_error_app1 by lia.
  intros Hn. apply nth_error_In in Hn.
  rewrite forallb_forall in Hd. apply Hd in Hn. discriminate Hn.
Qed.

Lemma nonC_tail k c s : nonC (S k) (c :: s) -> c <> "C"%char /\ nonC k s.
Proof.
  intros H. split.
  - intros ->. apply (H 0); [lia | reflexivity].
  - intros j Hj. apply (H (S j)). lia.
Qed.

Lemma scan_In s : forall skip prev idx i m,
  nonC skip s ->
  (In (i, m) (Regex.scan ORDER_REGEX skip prev s idx)
   <-> exists j len,
         i = idx + j
         /\ tokenLen (prevAt prev s j) (skipn j s) = Some len
         /\ m = firstn len (skipn j s)).
Proof.
  induction s as [|c s IH]; intros skip prev idx i m Hskip.
  - cbn [Regex.scan]. rewrite exec_ORDER_REGEX. cbn [tokenLen].
    split.
    + destruct skip; intros [].
    + intros (j & len & _ & H & _). destruct j; discriminate H.
  - cbn [Regex.scan]. destruct skip as [|k].
    + rewrite exec_ORDER_REGEX.
      destruct (tokenLen prev (c :: s)) as [len|] eqn:E.
      * destruct (tokenLen_nonC _ _ _ _ E) as [_ Hn].
        cbn [In]. rewrite (IH (pred len) (Some c) (S idx) i m Hn).
        split.
        -- intros [[= <- <-] | (j & len' & -> & H1 & H2)].
           ++ exists 0, len. cbn. rewrite Nat.add_0_r. auto.
           ++ exists (S j), len'. cbn [prevAt skipn].
              split; [lia | auto].
        -- intros (j & len' & -> & H1 & H2). destruct j as [|j].
           ++ left. cbn [prevAt skipn] in *. rewrite E in H1.
              injection H1 as <-. subst m. now rewrite Nat.add_0_r.
           ++ right. exists j, len'. cbn [prevAt skipn] in *.
              split; [lia | auto].
      * rewrite (IH 0 (Some c) (S idx) i m) by (intros j Hj; lia).
        split.
        -- intros (j & len' & -> & H1 & H2).
           exists (S j), len'. cbn [prevAt skipn]. split; [lia | auto].
        -- intros (j & len' & -> & H1 & H2). destruct j as [|j].
           ++ cbn [prevAt skipn] in H1. congruence.
           ++ exists j, len'. cbn [prevAt skipn] in *. split; [lia | auto].
    + destruct (nonC_tail _ _ _ Hskip) as [Hc Hk].
      rewrite (IH k (Some c) (S idx) i m Hk).
      split.
      * intros (j & len' & -> & H1 & H2).
        exists (S j), len'. cbn [prevAt skipn]. split; [lia | auto].
      * intros (j & len' & -> & H1 & H2). destruct j as [|j].
        -- cbn [prevAt skipn] in H1.
           destruct (tokenLen_nonC _ _ _ _ H1) as [-> _]. contradiction.
        -- exists j, len'. cbn [prevAt skipn] in *. split; [lia | auto].
Qed.

Lemma prevAt_app prev pre rest :
  prevAt prev (pre ++ rest) (List.length pre) = lastOr prev pre.
Proof.
  revert prev. induction pre as [|x pre IH]; intros prev; [reflexivity|].
  cbn. apply IH.
Qed.

Lemma skipn_app_length {A : Type} (pre rest : list A) :
  skipn (List.length pre) (pre ++ rest) = rest.
Proof. induction pre as [|x pre IH]; [reflexivity | exact IH]. Qed.

Lemma firstn_app_length {A : Type} (m post : list A) :
  firstn (List.length m) (m ++ post) = m.
Proof. induction m as [|x m IH]; [reflexivity | cbn; now rewrite IH]. Qed.

Lemma tokenAt_delimited s i m :
  (exists j len,
      i = 0 + j
      /\ tokenLen (prevAt None s j) (skipn j s) = Some len
      /\ m = firstn len (skipn j s))
  <-> delimitedAt s i m.
Proof.
  split.
  - intros (j & len & -> & H & ->). cbn [plus].
    assert (Hj : j <= List.length s).
    { destruct (Nat.le_gt_cases j (List.length s)) as [Hle | Hgt]; [assumption|].
      rewrite skipn_all2 in H by lia. discriminate H. }
    pose proof (firstn_skipn j s) as Hsplit.
    assert (Hpre : List.length (firstn j s) = j) by (rewrite length_firstn; lia).
    assert (Hprev : prevAt None s j = lastOr None (firstn j s)).
    { pose proof (prevAt_app None (firstn j s) (skipn j s)) as P.
      rewrite Hsplit, Hpre in P. exact P. }
    rewrite Hprev in H. apply tokenLen_inv in H.
    destruct H as (Hw & ds & post & Hs & Hd & Hlen & -> & Hpost).
    exists (firstn j s), post.
    assert (Hm : firstn (2 + List.length ds) (skipn j s) = "C"%char :: "#"%char :: ds).
    { rewrite Hs. cbn [plus firstn]. now rewrite firstn_app_length. }
    rewrite Hm. repeat split; try assumption.
    + rewrite <- Hsplit at 1. f_equal. exact Hs.
    + exists ds. auto.
  - intros (pre & post & -> & <- & Htok & Hw & Hpost).
    exists (List.length pre), (List.length m). cbn [plus].
    rewrite prevAt_app, skipn_app_length, firstn_app_length.
    repeat split. now apply tokenLen_complete.
Qed.

(** Every index reported after [skip] more characters is at least that far. *)
Lemma scan_lower r s : forall skip prev idx i m,
  In (i, m) (Regex.scan r skip prev s idx) -> idx + skip <= i.
Proof.
  induction s as [|c s IH]; intros skip prev idx i m; cbn [Regex.scan].
  - destruct skip; [|intros []].
    destruct (Regex.exec r prev []); [|intros []].
    intros [[= <- <-] | []]. lia.
  - destruct skip as [|k].
    + destruct (Regex.exec r prev (c :: s)) as [len|].
      * intros [[= <- <-] | H]; [lia|]. apply IH in H. lia.
      * intros H. apply IH in H. lia.
    + intros H. apply IH in H. lia.
Qed.

(** Matches are reported from left to right and do not overlap. *)
Lemma scan_ordered r s : forall skip prev idx,
  ForallOrdPairs (fun a b => fst a + List.length (snd a) <= fst b)
                 (Regex.scan r skip prev s idx).
Proof.
  induction s as [|c s IH]; intros skip prev idx; cbn [Regex.scan].
  - destruct skip; [|constructor].
    destruct (Regex.exec r prev []); repeat constructor.
  - destruct skip as [|k]; [|apply IH].
    destruct (Regex.exec r prev (c :: s)) as [len|]; [|apply IH].
    constructor; [|apply IH].
    apply Forall_forall. intros [i m] Hin. apply scan_lower in Hin.
    cbn [fst snd].
    pose proof (firstn_le_length len (c :: s)) as Hl.
    destruct len as [|len]; cbn [pred] in Hin; [cbn; lia | lia].
Qed.

Lemma ForallOrdPairs_map {A B : Type} (f : A -> B) (R : B -> B -> Prop) (l : list A) :
  ForallOrdPairs (fun a b => R (f a) (f b)) l -> ForallOrdPairs R (map f l).
Proof.
  induction 1 as [|a l Ha _ IH]; cbn; constructor; [|assumption].
  apply Forall_forall. intros b Hb. apply in_map_iff in Hb.
  destruct Hb as (x & <- & Hx). rewrite Forall_forall in Ha. now apply Ha.
Qed.

Lemma ForallOrdPairs_weaken {A : Type} (P Q : A -> A -> Prop) (l : list A) :
  (forall a b, P a b -> Q a b) -> ForallOrdPairs P l -> ForallOrdPairs Q l.
Proof.
  intros HPQ. induction 1 as [|a l Ha _ IH]; constructor; [|assumption].
  eapply Forall_impl; [|exact Ha]. intros b. apply HPQ.
Qed.

Lemma length_string_of_list (l : list ascii) :
  String.length (string_of_list_ascii l) = List.length l.
Proof. induction l as [|x l IH]; [reflexivity | cbn; now rewrite IH]. Qed.

(** C8, as stated, fails: a token right after a word character, or followed
    by one more digit, occurs in the text and is not returned. *)
Lemma C8_word_context_counterexample :
  isToken (list_ascii_of_string "C#1234")
  /\ occursAt (list_ascii_of_string "XC#1234") 1 (list_ascii_of_string "C#1234")
  /\ orderMatches "XC#1234" = []
  /\ occursAt (list_ascii_of_string "C#123456") 0 (list_ascii_of_string "C#1234")
  /\ orderMatches "C#123456" = [].
Proof.
  repeat split.
  - exists (list_ascii_of_string "1234"). cbn. auto.
  - exists (list_ascii_of_string "X"), []. split; reflexivity.
  - exists [], (list_ascii_of_string "56"). split; reflexivity.
Qed.

(** C8, amended: for every text the identifier extraction returns, from left
    to right and without overlap, exactly the occurrences of a token (the
    letter C, the marker #, and 4 or 5 decimal digits, matched case-sensitively)
    that have no word character (letter, digit or underscore) right before or
    right after them. *)
Theorem C8_delimited_tokens (text : string) :
  (forall i m,
      In (i, m) (Regex.matchAll ORDER_REGEX text)
      <-> delimitedAt (list_ascii_of_string text) i (list_ascii_of_string m))
  /\ ForallOrdPairs (fun a b => fst a + String.length (snd a) <= fst b)
                    (Regex.matchAll ORDER_REGEX text)
  /\ orderMatches text = map snd (Regex.matchAll ORDER_REGEX text).
Proof.
  unfold Regex.matchAll. repeat split.
  - intros H. apply in_map_iff in H. destruct H as ([i' l] & [= <- <-] & Hin).
    rewrite list_ascii_of_string_of_list_ascii.
    apply tokenAt_delimited. apply (scan_In _ 0 None 0); [|exact Hin].
    intros j Hj. lia.
  - intros H. apply tokenAt_delimited in H.
    apply (scan_In _ 0 None 0) in H; [|intros j Hj; lia].
    apply in_map_iff. exists (i, list_ascii_of_string m). split; [|exact H].
    cbn [fst snd]. now rewrite string_of_list_ascii_of_string.
  - apply ForallOrdPairs_map. cbn [fst snd].
    eapply ForallOrdPairs_weaken; [|apply scan_ordered].
    intros a b H. cbn beta. now rewrite length_string_of_list.
Qed.

Lemma C8_delimited_tokens_witness :
  In (4, "C#1234") (Regex.matchAll ORDER_REGEX "see C#1234.").
Proof.
  apply (C8_delimited_tokens "see C#1234.").
  exists (list_ascii_of_string "see "), (list_ascii_of_string ".").
  repeat split.
  exists (list_ascii_of_string "1234"). cbn. auto.
Defined.

Example orderMatches_example :
  orderMatches "C#1234, XC#5678 and C#12345; C#123456 c#1234 -C#9999"
  = ["C#1234"; "C#12345"; "C#9999"].
Proof. vm_compute. reflexivity. Qed.

(** ** The dispatcher: one apology per message *)

Section DispatcherFacts.

Variable timeValue : string -> Z.
Variable be : Backend.
Variable w : World.
Variable ev : Event.t.

Lemma notFound_not_apology orderName :
  notFoundMessage ev orderName <> apologyMessage ev.
Proof.
  unfold notFoundMessage, apologyMessage, reply. intros H.
  injection H as H. cbn in H. discriminate H.
Qed.

Lemma summary_not_apology r node :
  summaryMessage ev r node <> apologyMessage ev.
Proof.
  unfold summaryMessage, apologyMessage, reply, buildBlocks. intros H.
  injection H as _ H. cbn [app] in H. discriminate H.
Qed.

(** One turn of the loop adds at most one call, a reply and not the apology;
    without an error it adds exactly one, delivered; with an error from the
    lookup it adds none, and with an error from the post the call did not go
    through. *)
Lemma processOne_calls i orderName calls calls' err :
  processOne timeValue be w ev i orderName calls = (calls', err) ->
  exists extra,
    calls' = calls ++ extra
    /\ List.length extra <= 1
    /\ Forall (fun c => message c <> apologyMessage ev) extra
    /\ (err = None -> List.length extra = 1 /\ Forall (fun c => delivered c = true) extra)
    /\ (err <> None -> Forall (fun c => delivered c = false) extra).
Proof.
  unfold processOne.
  destruct (getOrderByName be (fetch w i) orderName) as [e | order].
  - intros [= <- <-]. exists []. rewrite app_nil_r.
    repeat split; auto; try constructor. discriminate.
  - unfold postMessage.
    destruct (negb (Json.truthy order)) eqn:Et.
    + intros [= <- <-]. eexists [_]. split; [reflexivity|].
      cbn [List.length message delivered].
      repeat split; auto.
      * constructor; [apply notFound_not_apology | constructor].
      * destruct (postRejects w (List.length calls)); [discriminate|].
        repeat constructor.
      * destruct (postRejects w (List.length calls)); [|congruence].
        repeat constructor.
    + destruct order as [node|]; [|discriminate Et].
      destruct (analyzeNode timeValue be (clock w i) node) as [e | r].
      * intros [= <- <-]. exists []. rewrite app_nil_r.
        repeat split; auto; try constructor. discriminate.
      * intros [= <- <-]. eexists [_]. split; [reflexivity|].
        cbn [List.length message delivered].
        repeat split; auto.
        -- constructor; [apply summary_not_apology | constructor].
        -- destruct (postRejects w (List.length calls)); [discriminate|].
           repeat constructor.
        -- destruct (postRejects w (List.length calls)); [|congruence].
           repeat constructor.
Qed.

Lemma forEachMatch_app pre : forall rest i calls,
  forEachMatch timeValue be w ev i (pre ++ rest) calls
  = match forEachMatch timeValue be w ev i pre calls with
    | (calls', None) =>
        forEachMatch timeValue be w ev (i + List.length pre) rest calls'
    | (calls', Some e) => (calls', Some e)
    end.
Proof.
  induction pre as [|x pre IH]; intros rest i calls.
  - cbn. now rewrite Nat.add_0_r.
  - cbn [app forEachMatch List.length].
    destruct (processOne timeValue be w ev i x calls) as [calls' [e|]]; [reflexivity|].
    rewrite IH. now rewrite Nat.add_succ_r.
Qed.

(** A run of the loop without an error makes one delivered reply per
    identifier. *)
Lemma forEachMatch_done names : forall i calls calls',
  forEachMatch timeValue be w ev i names calls = (calls', None) ->
  exists extra,
    calls' = calls ++ extra
    /\ List.length extra = List.length names
    /\ Forall (fun c => delivered c = true /\ message c <> apologyMessage ev) extra.
Proof.
  induction names as [|x names IH]; intros i calls calls'.
  - cbn. intros [= <-]. exists []. rewrite app_nil_r. repeat split. constructor.
  - cbn [forEachMatch].
    destruct (processOne timeValue be w ev i x calls) as [calls1 [e|]] eqn:E1;
      [discriminate|].
    intros H. apply IH in H. destruct H as (extra2 & -> & Hlen2 & Hall2).
    apply processOne_calls in E1.
    destruct E1 as (extra1 & -> & _ & Hna & Hok & _).
    destruct (Hok eq_refl) as [Hlen1 Hdel].
    exists (extra1 ++ extra2). rewrite app_assoc. repeat split.
    + rewrite length_app. cbn. lia.
    + apply Forall_app. split; [|assumption].
      rewrite Forall_forall in *. intros c Hc. split; auto.
Qed.

End DispatcherFacts.

(** C10: the exception handler wraps the whole loop.  When the identifiers of
    a message are pre, x and post in this order, the ones of pre are processed
    without an error and processing x raises, the handler makes one delivered
    reply for each identifier of pre, at most one call for x (a post that did
    not go through), and then exactly one call with the apology, which is the
    last call: nothing is looked up or posted for the identifiers of post.
    The apology is delivered unless that call of postMessage rejects too, a
    failure the handler swallows. *)
Theorem C10_one_apology_then_stop
        (timeValue : string -> Z) (be : Backend) (w : World) (ev : Event.t)
        (pre post : list string) (x : string)
        (callsPre callsX : list Call) (e : Error) :
  ignored be ev = false ->
  orderMatches (textOf ev) = pre ++ x :: post ->
  forEachMatch timeValue be w ev 0 pre [] = (callsPre, None) ->
  processOne timeValue be w ev (List.length pre) x callsPre = (callsX, Some e) ->
  handler timeValue be w ev = callsX ++ [apologyCall w ev callsX]
  /\ Forall (fun c => message c <> apologyMessage ev) callsX
  /\ List.length callsPre = List.length pre
  /\ Forall (fun c => delivered c = true) callsPre
  /\ (exists extra,
         callsX = callsPre ++ extra /\ List.length extra <= 1
         /\ Forall (fun c => delivered c = false) extra)
  /\ List.length (handler timeValue be w ev) <= List.length pre + 2
  /\ (postRejects w (List.length callsX) = false ->
      delivered (apologyCall w ev callsX) = true).
Proof.
  intros Hign Hm Hpre Hx.
  assert (Hrun : handler timeValue be w ev = callsX ++ [apologyCall w ev callsX]).
  { unfold handler. unfold ignored in Hign.
    apply orb_false_elim in Hign. destruct Hign as [H1 H2].
    rewrite H1, H2. fold (textOf ev). rewrite Hm.
    rewrite forEachMatch_app, Hpre. cbn [plus forEachMatch]. rewrite Hx.
    destruct (pre ++ x :: post) eqn:El; [destruct pre; discriminate El|].
    reflexivity. }
  destruct (forEachMatch_done timeValue be w ev pre 0 [] callsPre Hpre)
    as (extraPre & Hc & Hlen & Hall).
  cbn [app] in Hc. subst extraPre.
  destruct (processOne_calls timeValue be w ev _ _ _ _ _ Hx)
    as (extra & -> & Hle & Hna & _ & Hfail).
  assert (Hdel : Forall (fun c => delivered c = false) extra)
    by (apply Hfail; discriminate).
  rewrite Forall_forall in Hall.
  repeat split.
  - exact Hrun.
  - apply Forall_app. split; [|assumption].
    apply Forall_forall. intros c Hc. now apply Hall.
  - exact Hlen.
  - apply Forall_forall. intros c Hc. now apply Hall.
  - exists extra. auto.
  - rewrite Hrun, !length_app. cbn. lia.
  - intros Hp. cbn. now rewrite Hp.
Qed.

Lemma C10_one_apology_then_stop_witness :
  handler (fun _ => 0%Z) someBackend failingWorld twoIdentifiers
  = [] ++ [apologyCall failingWorld twoIdentifiers []].
Proof.
  assert (H1 : ignored someBackend twoIdentifiers = false) by reflexivity.
  assert (H2 : orderMatches (textOf twoIdentifiers) = [] ++ "C#1234" :: ["C#5678"])
    by (vm_compute; reflexivity).
  assert (H3 : forEachMatch (fun _ => 0%Z) someBackend failingWorld twoIdentifiers 0 [] []
               = ([], None)) by reflexivity.
  assert (H4 : processOne (fun _ => 0%Z) someBackend failingWorld twoIdentifiers
                 (List.length (@nil string)) "C#1234" []
               = ([], Some FetchFailed)) by reflexivity.
  exact (proj1 (C10_one_apology_then_stop (fun _ => 0%Z) someBackend failingWorld
                  twoIdentifiers [] ["C#5678"] "C#1234" [] [] FetchFailed
                  H1 H2 H3 H4)).
Defined.

(** ** Helpers: the latest fulfillment and the admin link *)

Lemma insertDesc_In a l x : In x (insertDesc a l) <-> x = a \/ In x l.
Proof.
  induction l as [|b l IH]; cbn.
  - intuition.
  - destruct (b - a <=? 0)%Z; cbn; [intuition|].
    rewrite IH. intuition.
Qed.

Lemma sortDesc_In l x : In x (sortDesc l) <-> In x l.
Proof.
  induction l as [|a l IH]; cbn; [tauto|].
  rewrite insertDesc_In, IH. intuition.
Qed.

Lemma insertDesc_sorted a l :
  StronglySorted Z.ge l -> StronglySorted Z.ge (insertDesc a l).
Proof.
  induction 1 as [|b l Hs IH Hb]; cbn.
  - repeat constructor.
  - destruct (b - a <=? 0)%Z eqn:E.
    + apply Z.leb_le in E. constructor; [now constructor|].
      constructor; [lia|].
      eapply Forall_impl; [|exact Hb]. cbn. intros x Hx. lia.
    + apply Z.leb_gt in E. constructor; [assumption|].
      apply Forall_forall. intros x Hx. apply insertDesc_In in Hx.
      destruct Hx as [-> | Hx]; [lia|].
      rewrite Forall_forall in Hb. now apply Hb.
Qed.

Lemma sortDesc_sorted l : StronglySorted Z.ge (sortDesc l).
Proof.
  induction l as [|a l IH]; cbn; [constructor | now apply insertDesc_sorted].
Qed.

Lemma filterBoolean_In l t : In t (filterBoolean l) <-> In (Some t) l.
Proof.
  induction l as [|[x|] l IH]; cbn; [tauto | | ].
  - split.
    + intros [-> | H]; [now left | right; now apply IH].
    + intros [H | H]; [injection H as ->; now left | right; now apply IH].
  - split.
    + intros H. right. now apply IH.
    + intros [H | H]; [discriminate | now apply IH].
Qed.

(** X4: mostRecentFulfillmentAt returns the latest of the timestamps the
    fulfillment events carry, and nothing when no event carries one (no
    events, a missing list, or events without a timestamp). *)
Theorem mostRecentFulfillmentAt_latest (o : Order) :
  match mostRecentFulfillmentAt o with
  | Some t =>
      In t (fulfillmentTimes o)
      /\ forall t', In t' (fulfillmentTimes o) -> (t' <= t)%Z
  | None => fulfillmentTimes o = []
  end.
Proof.
  unfold mostRecentFulfillmentAt, fulfillmentTimes.
  destruct (fulfillments o) as [[|f fs]|]; try reflexivity.
  set (ts := filterBoolean (map f_createdAt (f :: fs))).
  pose proof (sortDesc_sorted ts) as Hs.
  pose proof (sortDesc_In ts) as Hin.
  destruct (sortDesc ts) as [|t rest] eqn:E; cbn [hd_error].
  - destruct ts as [|x ts']; [reflexivity|].
    exfalso. apply (proj2 (Hin x)). now left.
  - split.
    + apply Hin. now left.
    + intros t' Ht'. apply Hin in Ht'. destruct Ht' as [-> | Ht']; [lia|].
      inversion Hs as [|? ? _ Hall]; subst.
      rewrite Forall_forall in Hall. specialize (Hall _ Ht'). lia.
Qed.

Lemma pop_cons (x : string) (l : list string) :
  l <> [] -> JS.pop (x :: l) = JS.pop l.
Proof.
  intros Hl. unfold JS.pop. cbn [rev].
  destruct (rev l) as [|y r] eqn:E.
  - exfalso. apply Hl. apply (f_equal (@rev string)) in E.
    now rewrite rev_involutive in E.
  - reflexivity.
Qed.

Lemma splitAux_nonempty sep cur s : JS.splitAux sep cur s <> [].
Proof.
  revert cur. induction s as [|c s IH]; intros cur; cbn; [discriminate|].
  destruct (Ascii.eqb c sep); [discriminate | apply IH].
Qed.

Lemma append_assoc_char cur c s :
  ((cur ++ String c EmptyString) ++ s)%string = (cur ++ String c s)%string.
Proof. induction cur as [|a cur IH]; cbn; [reflexivity | now rewrite IH]. Qed.

Lemma pop_splitAux_without sep cur s :
  without sep s -> JS.pop (JS.splitAux sep cur s) = Some (cur ++ s)%string.
Proof.
  revert cur. induction s as [|c s IH]; intros cur Hs; cbn.
  - unfold JS.pop. cbn.
    now replace (cur ++ EmptyString)%string with cur
      by (clear; induction cur as [|a cur IH]; cbn; [|rewrite <- IH]; reflexivity).
  - destruct Hs as [Hc Hs]. apply Ascii.eqb_neq in Hc. rewrite Hc.
    rewrite IH by assumption. now rewrite append_assoc_char.
Qed.

Lemma pop_splitAux_last sep cur pre n :
  without sep n ->
  JS.pop (JS.splitAux sep cur (pre ++ String sep n)) = Some n.
Proof.
  revert cur. induction pre as [|c pre IH]; intros cur Hn; cbn.
  - rewrite Ascii.eqb_refl. rewrite pop_cons by apply splitAux_nonempty.
    now apply (pop_splitAux_without sep EmptyString n).
  - destruct (Ascii.eqb c sep).
    + rewrite pop_cons by apply splitAux_nonempty. now apply IH.
    + now apply IH.
Qed.

(** X5: adminOrderUrlFromGid links to the order named by the part of the
    identifier after its last slash; an identifier that is missing, empty or
    ends with a slash gives the link to the admin root. *)
Theorem adminOrderUrlFromGid_last_segment (cfg : Config) (pre n : string) :
  without "/" n ->
  (n <> EmptyString ->
   adminOrderUrlFromGid cfg (Some (pre ++ String "/" n)%string)
   = ("https://" ++ SHOPIFY_DOMAIN cfg ++ "/admin/orders/" ++ n)%string
   /\ adminOrderUrlFromGid cfg (Some n)
      = ("https://" ++ SHOPIFY_DOMAIN cfg ++ "/admin/orders/" ++ n)%string)
  /\ adminOrderUrlFromGid cfg (Some (pre ++ String "/" EmptyString)%string)
     = ("https://" ++ SHOPIFY_DOMAIN cfg ++ "/admin")%string
  /\ adminOrderUrlFromGid cfg (Some EmptyString)
     = ("https://" ++ SHOPIFY_DOMAIN cfg ++ "/admin")%string
  /\ adminOrderUrlFromGid cfg None
     = ("https://" ++ SHOPIFY_DOMAIN cfg ++ "/admin")%string.
Proof.
  intros Hn. unfold adminOrderUrlFromGid, JS.split.
  repeat split.
  - rewrite (pop_splitAux_last "/" EmptyString pre n Hn).
    destruct n; [contradiction | reflexivity].
  - rewrite (pop_splitAux_without "/" EmptyString n Hn). cbn [append].
    destruct n; [contradiction | reflexivity].
  - now rewrite (pop_splitAux_last "/" EmptyString pre EmptyString I).
Qed.

Lemma adminOrderUrlFromGid_last_segment_witness :
  adminOrderUrlFromGid someConfig (Some "gid://shopify/Order/123")
  = "https://shop.example/admin/orders/123".
Proof.
  assert (Hn : without "/" "123") by (cbn; repeat split; discriminate).
  assert (Hne : "123" <> EmptyString) by discriminate.
  exact (proj1 (proj1 (adminOrderUrlFromGid_last_segment someConfig
                         "gid://shopify/Order" "123" Hn) Hne)).
Defined.

(** ** The rule engine: which lines and details can appear *)

Lemma In_exceptionLines mf l :
  In l (exceptionLines mf)
  <-> existsb (fun lc => String.eqb (fst lc) l && snd lc) (lineConditions mf) = true.
Proof.
  unfold exceptionLines, lineConditions.
  destruct (isEq (Mf.arrangeStatus mf) "NEED TO ARRANGE");
  destruct (isEq (Mf.arrangeStatus mf) "ARRANGED");
  destruct (isYes (Mf.incoming mf) "INCOMING");
  destruct (isEq (Mf.readyToContact mf) "READY TO CONTACT");
  destruct (isEq (Mf.readyToContact mf) "CONTACT LATER");
  destruct (isEq (Mf.needsFollowUp mf) "NEEDS FOLLOW-UP");
  destruct (isEq (Mf.reserveIncoming mf) "RESERVED INCOMING INVENTORY");
  destruct (isEq (Mf.owesReturn mf) "OWES RETURN");
  cbn [existsb fst snd andb orb negb In app];
  rewrite ?andb_true_r, ?andb_false_r, ?orb_false_r, ?orb_false_l,
    ?orb_true_iff, ?String.eqb_eq;
  try tauto; split; try tauto; try discriminate.
Qed.

Ltac decide_line_eqb :=
  repeat match goal with
         | |- context [String.eqb ?a ?b] =>
             let v := eval vm_compute in (String.eqb a b) in
             change (String.eqb a b) with v
         end.

Lemma line_condition_of_member now o l c :
  In (l, c) (lineConditions (normalize o)) ->
  In l (Locals.blurb (analyzeLocals now o)) -> c = true.
Proof.
  intros Hin. rewrite blurb_analyzeLocals.
  revert Hin. generalize (normalize o) as mf. intros mf Hin.
  assert (Hl : In l ruleLines).
  { unfold lineConditions in Hin. unfold ruleLines. cbn [In] in *.
    repeat (destruct Hin as [Hin | Hin]; [injection Hin as <- _; tauto|]).
    contradiction. }
  cbn [In]. rewrite In_exceptionLines.
  intros [E | H]; [destruct (fulfillmentLine_not_ruleLine now o l Hl E)|].
  revert H. unfold lineConditions in *. cbn [In] in Hin.
  repeat (destruct Hin as [Hin | Hin];
          [injection Hin as <- <-; cbn [existsb fst snd]; decide_line_eqb;
           cbn [andb orb negb];
           repeat match goal with
                  | |- context [if ?b then _ else _] => destruct b
                  | |- context [?b && _] => destruct b; cbn [andb orb negb]
                  | |- context [?b || _] => destruct b; cbn [andb orb negb]
                  end;
           auto |]).
  contradiction.
Qed.

(** X6: the line of a rule is in the narrative exactly when the condition of
    the rule holds for the normalized attributes. *)
Theorem narrative_line_iff_condition (cfg : Config) (now : Z) (o : Order)
        (l : string) (c : bool) :
  In (l, c) (lineConditions (normalize o)) ->
  (In l (blurbLines (analyzeOrder cfg now o)) <-> c = true).
Proof.
  intros Hin. cbn [analyzeOrder blurbLines].
  split; [now apply line_condition_of_member|].
  rewrite blurb_analyzeLocals.
  revert Hin. generalize (normalize o) as mf. intros mf Hin.
  cbn [In]. rewrite In_exceptionLines.
  intros ->. right.
  unfold lineConditions in *. cbn [In] in Hin.
  repeat (destruct Hin as [Hin | Hin];
          [injection Hin as <- Hc; cbn [existsb fst snd]; decide_line_eqb;
           rewrite Hc; cbn [andb orb];
           rewrite ?orb_true_r; reflexivity |]).
  contradiction.
Qed.

Lemma narrative_line_iff_condition_witness :
  In Text.arranged (blurbLines (analyzeOrder someConfig 0 arrangedReservedOrder)).
Proof.
  apply (narrative_line_iff_condition someConfig 0%Z arrangedReservedOrder
           Text.arranged true).
  - right. left. vm_compute. reflexivity.
  - reflexivity.
Defined.

Lemma isEq_exclusive s a b :
  isEq s a = true -> isEq a b = false -> isEq s b = false.
Proof.
  unfold isEq. intros H1 H2. apply String.eqb_eq in H1.
  rewrite H1. exact H2.
Qed.

Lemma exceptionLines_length mf : List.length (exceptionLines mf) <= 6.
Proof.
  unfold exceptionLines. rewrite !length_app.
  destruct (isEq (Mf.arrangeStatus mf) "NEED TO ARRANGE") eqn:E1.
  - rewrite (isEq_exclusive _ _ "ARRANGED" E1 eq_refl). cbn [andb].
    repeat match goal with
           | |- context [if ?b then _ else _] => destruct b
           end; cbn; lia.
  - destruct (isYes (Mf.incoming mf) "INCOMING"); cbn [negb andb];
      rewrite ?andb_false_r;
      repeat match goal with
             | |- context [if ?b then _ else _] => destruct b
             end; cbn; lia.
Qed.

(** X7: the narrative has at most seven lines, and some lines exclude each
    other: the arranged line never stands with the need-to-arrange line or
    with an incoming line, the two incoming lines never stand together, the
    partially-incoming line never stands with the need-to-arrange line, and
    the ready-to-contact and contact-later lines never stand together. *)
Theorem narrative_bounded_and_exclusive (cfg : Config) (now : Z) (o : Order) :
  let lines := blurbLines (analyzeOrder cfg now o) in
  List.length lines <= 7
  /\ ~ (In Text.needToArrange lines /\ In Text.arranged lines)
  /\ ~ (In Text.arranged lines /\ In Text.partiallyIncoming lines)
  /\ ~ (In Text.arranged lines /\ In Text.incomingLine lines)
  /\ ~ (In Text.partiallyIncoming lines /\ In Text.incomingLine lines)
  /\ ~ (In Text.needToArrange lines /\ In Text.partiallyIncoming lines)
  /\ ~ (In Text.readyToContact lines /\ In Text.contactLater lines).
Proof.
  cbn zeta.
  assert (Hiff : forall l c, In (l, c) (lineConditions (normalize o)) ->
                 In l (blurbLines (analyzeOrder cfg now o)) -> c = true).
  { intros l c Hin. cbn [analyzeOrder blurbLines].
    now apply line_condition_of_member. }
  split.
  { cbn [analyzeOrder blurbLines]. rewrite blurb_analyzeLocals. cbn [List.length].
    pose proof (exceptionLines_length (normalize o)). lia. }
  unfold lineConditions in Hiff.
  repeat split; intros [H1 H2];
    eapply Hiff in H1; try (cbn [In]; auto 12; fail);
    eapply Hiff in H2; try (cbn [In]; auto 12; fail);
    repeat match goal with
           | H : _ && _ = true |- _ => apply andb_prop in H; destruct H
           | H : negb _ = true |- _ => apply negb_true_iff in H
           end;
    try congruence.
  all: match goal with
       | H : isEq ?s ?a = true, H' : isEq ?s ?b = true |- _ =>
           pose proof (isEq_exclusive s a b H eq_refl); congruence
       end.
Qed.

Lemma in_keyed_key st k d : In (k, d) (keyed st) -> In k (Locals.detailsAdded st).
Proof. unfold keyed. apply in_combine_l. Qed.

Lemma detailsAdded_keys now o :
  incl (Locals.detailsAdded (analyzeLocals now o)) detailKeys.
Proof.
  intros k Hk.
  destruct (Reach_keys _ _ _ k (Reach_analyzeLocals now o) Hk) as [[] | H].
  cbn in H. unfold detailKeys. cbn. tauto.
Qed.

Lemma fieldChunks_single ds :
  0 < List.length ds <= 10 -> fieldChunks ds = [map fieldOf ds].
Proof.
  intros Hlen.
  destruct (fieldChunks_shape ds) as (full & rest & Hcs & Hfull & Hcat & Hrest).
  assert (Hn : List.length (List.concat (full ++ rest)) = List.length ds)
    by (now rewrite Hcat, length_map).
  rewrite Hcs. rewrite List.concat_app, length_app in Hn.
  rewrite (length_concat_full full Hfull) in Hn.
  destruct full as [|c full].
  - cbn [app]. destruct Hrest as [-> | (x & -> & Hx)].
    + cbn in Hn. lia.
    + cbn in Hcat. rewrite app_nil_r in Hcat. now rewrite Hcat.
  - destruct full as [|c' full]; [|cbn in Hn; lia].
    destruct Hrest as [-> | (x & -> & Hx)].
    + cbn in Hcat. rewrite !app_nil_r in Hcat. now rewrite <- Hcat.
    + cbn in Hn. rewrite app_nil_r in Hn. lia.
Qed.

(** X8: every detail entry of the output has a non-empty value and one of the
    six labels of the rules, so the formatter never falls back to the dash;
    there are at most five entries, one per key; hence the reply holds the
    header, a divider, the narrative, then, only when there are details, a
    divider and a single block with all the fields, and the footer: four or
    six blocks. *)
Theorem reply_blocks_shape (cfg : Config) (now : Z) (o : Order) :
  let r := analyzeOrder cfg now o in
  Forall (fun d =>
            JS.truthy (value d) = true
            /\ In (label d) ["Invoiced With"; "Follow-Up Notes"; "Weeks Since Order";
                             "Arranged With"; "Arranged/Reserved With"; "Return Notes"]
            /\ fieldOf d = mrkdwn ("*" ++ label d ++ "*" ++ Text.nl ++ value d))
         (details r)
  /\ List.length (details r) <= 5
  /\ buildBlocks r = blocksFor r
  /\ (List.length (buildBlocks r) = 4 \/ List.length (buildBlocks r) = 6).
Proof.
  cbn zeta.
  destruct (Inv_analyzeLocals now o) as [Hlen Hnd Hreq].
  rewrite Forall_forall in Hreq.
  assert (H5 : List.length (details (analyzeOrder cfg now o)) <= 5).
  { cbn [analyzeOrder details]. rewrite Hlen.
    apply (NoDup_incl_length Hnd (detailsAdded_keys now o)). }
  assert (Hb : buildBlocks (analyzeOrder cfg now o) = blocksFor (analyzeOrder cfg now o)).
  { unfold buildBlocks, blocksFor.
    destruct (details (analyzeOrder cfg now o)) as [|d ds] eqn:E; [reflexivity|].
    rewrite fieldChunks_single by (cbn [List.length] in *; lia). reflexivity. }
  repeat split; try assumption.
  - apply Forall_forall. intros d Hd. cbn [analyzeOrder details] in Hd.
    destruct (in_combine_entry (Locals.detailsAdded (analyzeLocals now o)) _ d Hlen Hd)
      as [k Hk].
    destruct (Hreq _ Hk) as [Hin Ht]. cbn [snd] in Ht.
    repeat split.
    + exact Ht.
    + unfold requestsOf in Hin. cbn [In] in Hin.
      repeat (destruct Hin as [Hin | Hin]; [injection Hin as _ <-; cbn; tauto|]).
      contradiction.
    + unfold fieldOf. now rewrite Ht.
  - rewrite Hb. unfold blocksFor.
    destruct (details (analyzeOrder cfg now o)); cbn; auto.
Qed.

Lemma sortDesc_hd ts :
  match hd_error (sortDesc ts) with
  | Some t => In t ts /\ forall t', In t' ts -> (t' <= t)%Z
  | None => ts = []
  end.
Proof.
  pose proof (sortDesc_sorted ts) as Hs.
  pose proof (sortDesc_In ts) as Hin.
  destruct (sortDesc ts) as [|t rest]; cbn [hd_error].
  - destruct ts as [|x ts']; [reflexivity|].
    exfalso. apply (proj2 (Hin x)). now left.
  - split; [apply Hin; now left|].
    intros t' Ht'. apply Hin in Ht'. destruct Ht' as [-> | Ht']; [lia|].
    inversion Hs as [|? ? _ Hall]; subst.
    rewrite Forall_forall in Hall. specialize (Hall _ Ht'). lia.
Qed.

Lemma mostRecent_hd o :
  mostRecentFulfillmentAt o = hd_error (sortDesc (fulfillmentTimes o)).
Proof.
  unfold mostRecentFulfillmentAt, fulfillmentTimes.
  destruct (fulfillments o) as [[|f fs]|]; reflexivity.
Qed.

Lemma fulfilled_first_line now o :
  isFulfilledOrder o = true ->
  hd_error (Locals.blurb (analyzeLocals now o))
  = Some (fulfilledLine (weeksSince now (mostRecentFulfillmentAt o))).
Proof.
  intros H. rewrite blurb_analyzeLocals. unfold fulfillmentLine. now rewrite H.
Qed.

(** X9: for a fulfilled order the first line reports the weeks since the
    latest fulfillment timestamp, and reports the date as unavailable when no
    fulfillment event carries a timestamp. *)
Theorem fulfilled_line_date (cfg : Config) (now : Z) (o : Order) :
  isFulfilledOrder o = true ->
  (fulfillmentTimes o = [] ->
   hd_error (blurbLines (analyzeOrder cfg now o))
   = Some (Text.fulfilledPrefix ++ Text.dateUnavailable ++ ".")%string)
  /\ (forall t, In t (fulfillmentTimes o) ->
      exists latest w,
        In latest (fulfillmentTimes o) /\ (t <= latest)%Z
        /\ weeksSince now (Some latest) = Some w
        /\ hd_error (blurbLines (analyzeOrder cfg now o))
           = Some (Text.fulfilledPrefix ++ (numberToString w ++ " weeks ago") ++ ".")%string).
Proof.
  intros Hf. cbn [analyzeOrder blurbLines]. rewrite (fulfilled_first_line now o Hf).
  pose proof (sortDesc_hd (fulfillmentTimes o)) as Hm.
  rewrite <- mostRecent_hd in Hm.
  destruct (mostRecentFulfillmentAt o) as [latest|].
  - destruct Hm as [Hin Hmax]. split.
    + intros He. rewrite He in Hin. destruct Hin.
    + intros t Ht. exists latest. eexists. repeat split; auto.
  - split.
    + intros _. reflexivity.
    + intros t Ht. rewrite Hm in Ht. destruct Ht.
Qed.

Lemma fulfilled_line_date_witness :
  hd_error (blurbLines (analyzeOrder someConfig 0 fulfilledNoDates))
  = Some (Text.fulfilledPrefix ++ Text.dateUnavailable ++ ".")%string.
Proof.
  assert (Hf : isFulfilledOrder fulfilledNoDates = true) by reflexivity.
  assert (Ht : fulfillmentTimes fulfilledNoDates = []) by reflexivity.
  exact (proj1 (fulfilled_line_date someConfig 0%Z fulfilledNoDates Hf) Ht).
Defined.

Lemma Reach_fulfilled_early mf now at_ :
  Reach (requestsWithoutWeeks mf) Locals.empty
        (ruleArranged mf true
           (ruleNeedToArrange mf true (ruleFulfillment mf true now at_ Locals.empty))).
Proof.
  unfold ruleArranged, ruleNeedToArrange, ruleFulfillment, when. cbn [negb].
  repeat match goal with
         | |- context [if ?c then _ else _] => destruct c
         end;
  repeat first
    [ apply reach_refl
    | apply reach_push
    | apply reach_add; [cbn; auto 10|] ].
Qed.

Lemma Reach_fulfilled_late mf st :
  isEq (Mf.readyToContact mf) "CONTACT LATER" = false ->
  Reach (requestsWithoutWeeks mf) st (lateRules mf true st).
Proof.
  intros Hl.
  unfold lateRules, fallback, ruleOwesReturn, ruleReserved, ruleNeedsFollowUp,
    ruleReadyToContact, ruleIncoming, when.
  rewrite Hl. cbn [negb].
  repeat match goal with
         | |- context [if ?c then _ else _] => destruct c
         end;
  repeat first
    [ apply reach_refl
    | apply reach_push
    | apply reach_add; [cbn; auto 10|] ].
Qed.

(** X10: for a fulfilled order that is not marked CONTACT LATER no detail
    entry shows the weeks since the order: the rules add it for open orders
    only, the contact-later rule apart. *)
Theorem fulfilled_no_weeks_detail (cfg : Config) (now : Z) (o : Order) :
  isFulfilledOrder o = true ->
  isEq (Mf.readyToContact (normalize o)) "CONTACT LATER" = false ->
  forall d, In d (details (analyzeOrder cfg now o)) -> label d <> "Weeks Since Order".
Proof.
  intros Hf Hl d Hd El. cbn [analyzeOrder details] in Hd.
  destruct (Inv_analyzeLocals now o) as [Hlen _ Hreq].
  rewrite Forall_forall in Hreq.
  destruct (in_combine_entry (Locals.detailsAdded (analyzeLocals now o)) _ d Hlen Hd)
    as [k Hk].
  destruct (Hreq _ Hk) as [Hin _].
  pose proof (requests_key _ _ Hin) as Hkey. cbn [fst snd] in Hkey.
  rewrite El in Hkey. cbn in Hkey. subst k.
  apply in_keyed_key in Hk.
  assert (Hr : Reach (requestsWithoutWeeks (normalize o)) Locals.empty
                     (analyzeLocals now o)).
  { rewrite analyzeLocals_split, Hf. unfold earlyRules.
    eapply Reach_trans; [apply Reach_fulfilled_early | now apply Reach_fulfilled_late]. }
  destruct (Reach_keys _ _ _ _ Hr Hk) as [[] | H].
  cbn in H. intuition discriminate.
Qed.

Lemma fulfilled_no_weeks_detail_witness :
  In Text.needToArrange (blurbLines (analyzeOrder someConfig 0 fulfilledNeedsArranging))
  /\ JS.truthy (Mf.weeks (normalize fulfilledNeedsArranging)) = true
  /\ filter (fun d => String.eqb (label d) "Weeks Since Order")
            (details (analyzeOrder someConfig 0 fulfilledNeedsArranging))
     = [].
Proof.
  assert (H1 : isFulfilledOrder fulfilledNeedsArranging = true)
    by (vm_compute; reflexivity).
  assert (H2 : isEq (Mf.readyToContact (normalize fulfilledNeedsArranging))
                    "CONTACT LATER" = false)
    by (vm_compute; reflexivity).
  split; [vm_compute; right; left; reflexivity|].
  split; [vm_compute; reflexivity|].
  apply filter_none. intros d Hd.
  destruct (String.eqb (label d) "Weeks Since Order") eqn:E; [|reflexivity].
  apply String.eqb_eq in E.
  destruct (fulfilled_no_weeks_detail someConfig 0%Z fulfilledNeedsArranging
              H1 H2 d Hd E).
Defined.

(** ** Elapsed weeks: order *)

Lemma Math_round_mono x y : (x <= y)%Q -> (Math_round x <= Math_round y)%Z.
Proof.
  intros H. unfold Math_round. apply Qfloor_resp_le. lra.
Qed.

(** X11: the reported weeks grow with the evaluation time and shrink with the
    event time: a later evaluation or an earlier event never gives a smaller
    value, and evaluating at the event time itself gives 0. *)
Theorem weeksSince_monotone (now now' dt dt' : Z) :
  (now <= now')%Z -> (dt' <= dt)%Z ->
  exists w w',
    weeksSince now (Some dt) = Some w
    /\ weeksSince now' (Some dt') = Some w'
    /\ (w <= w')%Q
    /\ weeksSince dt (Some dt) = Some (inject_Z 0 / 10)%Q.
Proof.
  intros Hn Hd. eexists. eexists.
  split; [reflexivity|]. split; [reflexivity|]. split.
  - apply Qmult_le_compat_r; [|discriminate].
    rewrite <- Zle_Qle. apply Math_round_mono.
    apply Qmult_le_compat_r; [|discriminate].
    apply Qmult_le_compat_r; [|discriminate].
    rewrite <- Zle_Qle. lia.
  - unfold weeksSince. rewrite Z.sub_diag. reflexivity.
Qed.

Lemma weeksSince_monotone_witness :
  exists w w',
    weeksSince 1000 (Some 0%Z) = Some w
    /\ weeksSince 604800000 (Some 0%Z) = Some w'
    /\ (w <= w')%Q.
Proof.
  destruct (weeksSince_monotone 1000 604800000 0 0) as (w & w' & H1 & H2 & H3 & _);
    [lia | lia |].
  exists w, w'. auto.
Defined.

(** ** The fetcher: responses of the shape of a GraphQL answer *)

Lemma hasErrors_entries v :
  errorsWellFormed v -> (hasErrors v <-> errorEntries v <> []).
Proof.
  unfold errorsWellFormed, hasErrors, errorEntries.
  destruct v as [[| | | | |ms]|]; cbn; try (intros _; split; [discriminate | congruence]).
  destruct (Json.assoc "errors" ms) as [[| | | |es|]|]; cbn; try contradiction;
    intros _; try (split; [discriminate | congruence]).
  destruct es; cbn; split; try discriminate; try congruence; auto.
Qed.

(** X12: for a response whose body is a JSON object with well-formed errors
    members (missing, null or an array) at top level and under data, the fetch
    raises exactly when the status is not a success or an errors array is not
    empty; an empty errors array is not an error. *)
Theorem fetch_raises_on_graphql_shape (be : Backend) (fetch : Request -> Transport)
        (orderName : string) (resp : Response) (ms : list (string * JSON)) :
  fetch (requestFor be orderName) = Responded resp ->
  json resp = Some (JObj ms) ->
  errorsWellFormed (Some (JObj ms)) ->
  errorsWellFormed (Json.opt (Some (JObj ms)) "data") ->
  (raises (getOrderByName be fetch orderName)
   <-> nonSuccess (Responded resp) \/ hasErrorEntries (Responded resp)).
Proof.
  intros Hf Hj Hw1 Hw2. unfold getOrderByName. rewrite Hf.
  rewrite readResponse_raises.
  unfold hasErrorEntries, unreadableBody, bodyOf. rewrite Hj.
  rewrite (hasErrors_entries _ Hw1), (hasErrors_entries _ Hw2).
  split.
  - intros [H | [H | [[H | H] | H]]]; try discriminate H; tauto.
  - tauto.
Qed.

Lemma fetch_raises_on_graphql_shape_witness :
  raises (getOrderByName someBackend
            (fun _ => okResponse (JObj [("errors", JArr []);
                                        ("data", JObj [("errors", JArr [])])]))
            "C#1234")
  <-> nonSuccess (okResponse (JObj [("errors", JArr []);
                                    ("data", JObj [("errors", JArr [])])]))
      \/ hasErrorEntries (okResponse (JObj [("errors", JArr []);
                                            ("data", JObj [("errors", JArr [])])])).
Proof.
  exact (fetch_raises_on_graphql_shape someBackend
           (fun _ => okResponse (JObj [("errors", JArr []);
                                       ("data", JObj [("errors", JArr [])])]))
           "C#1234" _ _ eq_refl eq_refl I I).
Defined.

(** ** The dispatcher: replies *)

Section DispatcherReplies.

Variable timeValue : string -> Z.
Variable be : Backend.
Variable w : World.
Variable ev : Event.t.



(** The analysis of an order at the types of the projection does not
    raise. *)
Lemma typed_analyzeNode now node :
  typedOrder node = true ->
  analyzeNode timeValue be now node
  = Returned (analyzeOrder (config be) now (decodeOrder timeValue node)).
Proof.
  destruct node as [| | | | |ms]; try discriminate.
  unfold typedOrder, analyzeNode, statusRaises, idRaises. cbn [Json.get].
  intros H. repeat (apply andb_prop in H; destruct H as [H ?]).
  destruct (Json.assoc "id" ms) as [[]|]; try discriminate;
    destruct (Json.assoc "displayFulfillmentStatus" ms) as [[]|]; try discriminate;
    reflexivity.
Qed.

Lemma forEachMatch_quiet names : forall i calls,
  (forall n, postRejects w n = false) ->
  (forall j orderName, ~ raises (getOrderByName be (fetch w j) orderName)) ->
  typedAnswers be w ->
  forEachMatch timeValue be w ev i names calls
  = (calls ++ repliesFrom timeValue be w ev i names, None).
Proof.
  induction names as [|x names IH]; intros i calls Hp Hr Ht.
  - cbn. now rewrite app_nil_r.
  - cbn [forEachMatch repliesFrom].
    assert (E : processOne timeValue be w ev i x calls
                = (calls ++ [{| message := replyTo timeValue be w ev i x;
                                delivered := true |}], None)).
    { unfold processOne, replyTo, postMessage. specialize (Hr i x).
      specialize (Ht i x).
      destruct (getOrderByName be (fetch w i) x) as [e | order];
        [destruct (Hr I)|].
      rewrite Hp. cbn [negb].
      destruct order as [node|]; [|reflexivity].
      destruct (Json.truthy (Some node)) eqn:Et; cbn [negb]; [|reflexivity].
      rewrite (typed_analyzeNode _ _ (Ht node eq_refl Et)). reflexivity. }
    rewrite E, (IH (S i) _ Hp Hr Ht), <- app_assoc. reflexivity.
Qed.

End DispatcherReplies.

Lemma length_repliesFrom timeValue be w ev names : forall i,
  List.length (repliesFrom timeValue be w ev i names) = List.length names.
Proof.
  induction names as [|x names IH]; intros i; [reflexivity|].
  cbn [repliesFrom List.length]. now rewrite IH.
Qed.

(** X13: the handler makes no call at all exactly when the event is ignored
    (it has a subtype, no text, a bot id, or comes from another channel than
    the locked one) or its text holds no identifier. *)
Theorem handler_silent_iff (timeValue : string -> Z) (be : Backend) (w : World)
        (ev : Event.t) :
  handler timeValue be w ev = []
  <-> ignored be ev = true \/ orderMatches (textOf ev) = [].
Proof.
  unfold handler, ignored. fold (textOf ev).
  destruct (truthyOpt (Event.subtype ev) || negb (truthyOpt (Event.text ev))
            || truthyOpt (Event.bot_id ev)); cbn [orb]; [tauto|].
  destruct (match LOCK_CHANNEL (config be) with
            | Some lock => JS.truthy lock && negb (String.eqb (Event.channel ev) lock)
            | None => false
            end); [tauto|].
  destruct (orderMatches (textOf ev)) as [|x names] eqn:Em; [tauto|].
  split; [|intros [H | H]; discriminate H].
  destruct (forEachMatch timeValue be w ev 0 (x :: names) []) as [calls [e|]] eqn:E.
  - unfold postMessage. cbn [fst]. intros H. destruct calls; discriminate H.
  - intros ->. apply forEachMatch_done in E.
    destruct E as (extra & He & Hlen & _). cbn in He. subst extra.
    discriminate Hlen.
Qed.

(** X14: when no lookup raises, every order the backend returns is at the
    types of the GraphQL projection and no call of postMessage rejects, the
    handler makes exactly one delivered reply per identifier, in the order of
    the identifiers in the text: the summary of the order found, under the
    text made of its name, or the not-found reply. *)
Theorem handler_replies_in_order (timeValue : string -> Z) (be : Backend)
        (w : World) (ev : Event.t) :
  ignored be ev = false ->
  (forall n, postRejects w n = false) ->
  (forall j orderName, ~ raises (getOrderByName be (fetch w j) orderName)) ->
  typedAnswers be w ->
  handler timeValue be w ev
  = repliesFrom timeValue be w ev 0 (orderMatches (textOf ev))
  /\ List.length (handler timeValue be w ev)
     = List.length (orderMatches (textOf ev)).
Proof.
  intros Hign Hp Hr Ht.
  assert (H : handler timeValue be w ev
              = repliesFrom timeValue be w ev 0 (orderMatches (textOf ev))).
  { unfold handler. unfold ignored in Hign.
    apply orb_false_elim in Hign. destruct Hign as [H1 H2].
    rewrite H1, H2. fold (textOf ev).
    rewrite (forEachMatch_quiet timeValue be w ev _ 0 [] Hp Hr Ht). cbn [app].
    destruct (orderMatches (textOf ev)); reflexivity. }
  split; [exact H|]. rewrite H. apply length_repliesFrom.
Qed.

Lemma handler_replies_in_order_witness :
  handler (fun _ => 0%Z) someBackend quietWorld twoIdentifiers
  = repliesFrom (fun _ => 0%Z) someBackend quietWorld twoIdentifiers 0
      (orderMatches (textOf twoIdentifiers)).
Proof.
  apply (handler_replies_in_order (fun _ => 0%Z) someBackend quietWorld twoIdentifiers).
  - reflexivity.
  - intros n. reflexivity.
  - intros [|j] orderName H; exact H.
  - intros [|j] orderName node H _; vm_compute in H; [|discriminate H].
    injection H as <-. reflexivity.
Defined.


(** ** The rule engine: the return notes *)

Ltac reach_with :=
  unfold when;
  repeat match goal with
         | |- context [if ?c then _ else _] => destruct c
         end;
  repeat first
    [ apply reach_refl
    | apply reach_push
    | apply reach_add; [cbn; auto 10|] ].

Lemma Reach_beforeOwesReturn now o :
  Reach (requestsBeforeReturn (normalize o)) Locals.empty (beforeOwesReturn now o).
Proof.
  unfold beforeOwesReturn. cbn zeta.
  reach_then (fun st => ltac:(unfold ruleReserved; reach_with)
              : Reach (requestsBeforeReturn (normalize o)) st
                      (ruleReserved (normalize o) st)).
  reach_then (fun st => ltac:(unfold ruleNeedsFollowUp; reach_with)
              : Reach (requestsBeforeReturn (normalize o)) st
                      (ruleNeedsFollowUp (normalize o) st)).
  reach_then (fun st => ltac:(unfold ruleReadyToContact; reach_with)
              : Reach (requestsBeforeReturn (normalize o)) st
                      (ruleReadyToContact (normalize o) st)).
  reach_then (fun st => ltac:(unfold ruleIncoming; reach_with)
              : Reach (requestsBeforeReturn (normalize o)) st
                      (ruleIncoming (normalize o) (isFulfilledOrder o) st)).
  reach_then (fun st => ltac:(unfold ruleArranged; reach_with)
              : Reach (requestsBeforeReturn (normalize o)) st
                      (ruleArranged (normalize o) (isFulfilledOrder o) st)).
  reach_then (fun st => ltac:(unfold ruleNeedToArrange; reach_with)
              : Reach (requestsBeforeReturn (normalize o)) st
                      (ruleNeedToArrange (normalize o) (isFulfilledOrder o) st)).
  unfold ruleFulfillment. reach_with.
Qed.

Lemma analyzeLocals_last_rule now o :
  analyzeLocals now o
  = fallback (ruleOwesReturn (normalize o) (beforeOwesReturn now o)).
Proof. reflexivity. Qed.

Lemma returnNotes_fresh now o :
  ~ In "returnNotes" (Locals.detailsAdded (beforeOwesReturn now o)).
Proof.
  intros H.
  destruct (Reach_keys _ _ _ _ (Reach_beforeOwesReturn now o) H) as [[] | Hk].
  cbn in Hk. intuition discriminate.
Qed.

(** X16: the output has a Return Notes entry exactly when owes-return is
    OWES RETURN and the return notes are not blank; the entry then holds the
    trimmed notes and is the last of the detail list. *)
Theorem returnNotes_detail_iff (cfg : Config) (now : Z) (o : Order) :
  let mf := normalize o in
  ((exists d, In d (details (analyzeOrder cfg now o)) /\ label d = "Return Notes")
   <-> isEq (Mf.owesReturn mf) "OWES RETURN" = true
       /\ JS.truthy (Mf.returnNotes mf) = true)
  /\ (isEq (Mf.owesReturn mf) "OWES RETURN" = true ->
      JS.truthy (Mf.returnNotes mf) = true ->
      details (analyzeOrder cfg now o)
      = Locals.details (beforeOwesReturn now o)
        ++ [{| label := "Return Notes"; value := Mf.returnNotes mf |}]).
Proof.
  cbn zeta. cbn [analyzeOrder details].
  assert (Hlast : isEq (Mf.owesReturn (normalize o)) "OWES RETURN" = true ->
                  JS.truthy (Mf.returnNotes (normalize o)) = true ->
                  Locals.details (analyzeLocals now o)
                  = Locals.details (beforeOwesReturn now o)
                    ++ [{| label := "Return Notes";
                           value := Mf.returnNotes (normalize o) |}]).
  { intros Ho Hv. rewrite analyzeLocals_last_rule.
    unfold ruleOwesReturn. rewrite Ho.
    rewrite fallback_nonempty.
    - unfold addDetail. rewrite Hv. cbn [negb Locals.detailsAdded push].
      destruct (has (Locals.detailsAdded (beforeOwesReturn now o)) "returnNotes") eqn:Eh.
      + apply has_In in Eh. destruct (returnNotes_fresh now o Eh).
      + reflexivity.
    - rewrite blurb_addDetail, blurb_push.
      destruct (Locals.blurb (beforeOwesReturn now o)); discriminate. }
  split; [|exact Hlast].
  split.
  - intros (d & Hd & Hl).
    destruct (Inv_analyzeLocals now o) as [Hlen _ Hreq].
    rewrite Forall_forall in Hreq.
    destruct (in_combine_entry (Locals.detailsAdded (analyzeLocals now o)) _ d Hlen Hd)
      as [k Hk].
    destruct (Hreq _ Hk) as [Hin Ht]. cbn [snd] in Ht.
    assert (Hval : value d = Mf.returnNotes (normalize o)).
    { apply (request_label_value _ (k, d) AReturnNotes Hin).
      cbn [snd labelsOf In]. rewrite Hl. now left. }
    split; [|now rewrite <- Hval].
    destruct (isEq (Mf.owesReturn (normalize o)) "OWES RETURN") eqn:Eo; [reflexivity|].
    exfalso.
    pose proof (requests_key _ _ Hin) as Hkey. cbn [fst snd] in Hkey.
    rewrite Hl in Hkey. cbn in Hkey. subst k.
    apply in_keyed_key in Hk. revert Hk.
    rewrite analyzeLocals_last_rule. unfold ruleOwesReturn. rewrite Eo.
    intros Hk.
    assert (Hf : Locals.detailsAdded (fallback (beforeOwesReturn now o))
                 = Locals.detailsAdded (beforeOwesReturn now o)).
    { unfold fallback. destruct (Nat.eqb _ 0); reflexivity. }
    rewrite Hf in Hk. exact (returnNotes_fresh now o Hk).
  - intros [Ho Hv].
    exists {| label := "Return Notes"; value := Mf.returnNotes (normalize o) |}.
    split; [|reflexivity].
    rewrite (Hlast Ho Hv). apply in_or_app. right. now left.
Qed.

Lemma returnNotes_detail_iff_witness :
  details (analyzeOrder someConfig 0 owesReturnOrder)
  = Locals.details (beforeOwesReturn 0 owesReturnOrder)
    ++ [{| label := "Return Notes";
           value := Mf.returnNotes (normalize owesReturnOrder) |}].
Proof.
  assert (H1 : isEq (Mf.owesReturn (normalize owesReturnOrder)) "OWES RETURN" = true)
    by (vm_compute; reflexivity).
  assert (H2 : JS.truthy (Mf.returnNotes (normalize owesReturnOrder)) = true)
    by (vm_compute; reflexivity).
  exact (proj2 (returnNotes_detail_iff someConfig 0%Z owesReturnOrder) H1 H2).
Defined.
